(** * Renegade external-match client: request signing, BigInt-safe JSON, match client

    A shallow embedding of [src/http.ts] (the authenticated transport
    [RelayerHttpClient], [parseBigJSON], [stringifyBigJSON]), of
    [src/client.ts] (the option builders and [ExternalMatchClient]) and of
    [src/utils/data] (hex strings, byte arrays and their padding).

    Conventions.
    - A JavaScript string is a Rocq [string]: the sequence of bytes of its
      UTF-8 encoding, so that [TextEncoder.encode] is [list_byte_of_string].
      All the text the client compares against is ASCII.
    - A [Uint8Array] / [Buffer] is a [list byte]; a 32-bit word is a [Z] in
      [0, 2^32) with the wrap-around written out.
    - The libraries the source imports (json-bigint, @noble/hashes, Buffer,
      URLSearchParams, axios) are not part of the repository; they are
      modelled here by executable definitions after their documented
      behaviour, each in its own module.
    - Of axios the model keeps what happens around the code of the client:
      the merge of the headers of a call into the defaults, the request
      interceptor, [transformRequest], the split of the replies by status,
      the byte order mark dropped from a reply, [transformResponse].  What
      the adapter does to a request after that is part of the [server], a
      parameter.
    - [String.prototype.localeCompare] is a parameter of the signer.
      [Collation.localeCompare] is the collation of the runtime on ASCII
      names, [ordinalCompare] the comparison of code units. *)

From Stdlib Require Import ZArith NArith Lia Bool List.
From Stdlib.Strings Require Import String Ascii Byte.
From Stdlib Require Import Permutation Sorted DecimalString DecimalPos DecimalZ.
Import ListNotations.

#[local] Set Warnings "-register-all".

Local Open Scope string_scope.
Local Open Scope list_scope.
Local Open Scope Z_scope.

(* ================================================================== *)
(** * Part I: definitions *)
(* ================================================================== *)

(** ** Text: JavaScript string primitives used by the client *)
Module Text.

(** [TextEncoder.encode]. *)
Definition utf8 (s : string) : list byte := list_byte_of_string s.

Definition code (c : ascii) : Z := Z.of_N (N_of_ascii c).
Definition chr (z : Z) : ascii := ascii_of_N (Z.to_N z).

(** [String.prototype.toLowerCase], on the ASCII letters. *)
Definition lower_char (c : ascii) : ascii :=
  if (65 <=? code c) && (code c <=? 90) then chr (code c + 32) else c.

Fixpoint toLowerCase (s : string) : string :=
  match s with
  | EmptyString => EmptyString
  | String c s' => String (lower_char c) (toLowerCase s')
  end.

(** [s.startsWith(p)]. *)
Definition startsWith (s p : string) : bool := String.prefix p s.

(** Truthiness of a string: the empty string is falsy. *)
Definition nonempty (s : string) : bool :=
  match s with EmptyString => false | _ => true end.

(** Decimal rendering of an integer ([BigInt.prototype.toString], and
    [Number.prototype.toString] on integers below 1e21). *)
Definition of_Z (z : Z) : string := NilZero.string_of_int (Z.to_int z).

Definition is_digit (c : ascii) : bool := (48 <=? code c) && (code c <=? 57).

Definition of_bool (b : bool) : string := if b then "true" else "false".

Fixpoint join (sep : string) (l : list string) : string :=
  match l with
  | [] => ""
  | [x] => x
  | x :: rest => x ++ sep ++ join sep rest
  end.

Fixpoint repeat_string (n : nat) (s : string) : string :=
  match n with O => "" | S n' => s ++ repeat_string n' s end.

End Text.

(** ** Base64: [Buffer.from(s, 'base64')] and [buf.toString('base64')] *)
Module Base64.

Definition alphabet : string :=
  "ABCDEFGHIJKLMNOPQRSTUVWXYZabcdefghijklmnopqrstuvwxyz0123456789+/".

Definition sextet_char (n : Z) : ascii :=
  match String.get (Z.to_nat n) alphabet with
  | Some c => c
  | None => "="%char
  end.

Definition b (x : byte) : Z := Z.of_N (Byte.to_N x).

(** Standard base64 with [=] padding. *)
Fixpoint encode (bs : list byte) : string :=
  match bs with
  | [] => ""
  | [x] =>
      String (sextet_char (Z.shiftr (b x) 2))
     (String (sextet_char (Z.shiftl (Z.land (b x) 3) 4)) "==")
  | [x; y] =>
      String (sextet_char (Z.shiftr (b x) 2))
     (String (sextet_char (Z.lor (Z.shiftl (Z.land (b x) 3) 4) (Z.shiftr (b y) 4)))
     (String (sextet_char (Z.shiftl (Z.land (b y) 15) 2)) "="))
  | x :: y :: z :: rest =>
      String (sextet_char (Z.shiftr (b x) 2))
     (String (sextet_char (Z.lor (Z.shiftl (Z.land (b x) 3) 4) (Z.shiftr (b y) 4)))
     (String (sextet_char (Z.lor (Z.shiftl (Z.land (b y) 15) 2) (Z.shiftr (b z) 6)))
     (String (sextet_char (Z.land (b z) 63)) (encode rest))))
  end.

(** Value of a base64 character; the decoder also accepts the URL-safe
    alphabet. *)
Definition sextet_of (c : ascii) : option Z :=
  let n := Text.code c in
  if (65 <=? n) && (n <=? 90) then Some (n - 65)
  else if (97 <=? n) && (n <=? 122) then Some (n - 71)
  else if (48 <=? n) && (n <=? 57) then Some (n + 4)
  else if (n =? 43) || (n =? 45) then Some 62
  else if (n =? 47) || (n =? 95) then Some 63
  else None.

(** The sextets of the input: characters outside the alphabet are skipped
    and the first [=] ends the data. *)
Fixpoint sextets (s : string) : list Z :=
  match s with
  | EmptyString => []
  | String c s' =>
      if Ascii.eqb c "="%char then []
      else match sextet_of c with
           | Some v => v :: sextets s'
           | None => sextets s'
           end
  end.

Definition byte_of (z : Z) : byte :=
  match Byte.of_N (Z.to_N (Z.land z 255)) with
  | Some x => x
  | None => x00
  end.

Fixpoint group (l : list Z) : list byte :=
  match l with
  | p :: q :: r :: s :: rest =>
      byte_of (Z.lor (Z.shiftl p 2) (Z.shiftr q 4))
      :: byte_of (Z.lor (Z.shiftl q 4) (Z.shiftr r 2))
      :: byte_of (Z.lor (Z.shiftl r 6) s)
      :: group rest
  | [p; q; r] =>
      [byte_of (Z.lor (Z.shiftl p 2) (Z.shiftr q 4));
       byte_of (Z.lor (Z.shiftl q 4) (Z.shiftr r 2))]
  | [p; q] => [byte_of (Z.lor (Z.shiftl p 2) (Z.shiftr q 4))]
  | _ => []
  end.

Definition decode (s : string) : list byte := group (sextets s).

(** [str.replace(/=+$/, '')]: drop the maximal run of [=] at the end. *)
Fixpoint strip_padding (s : string) : string :=
  match s with
  | EmptyString => EmptyString
  | String c s' =>
      match strip_padding s' with
      | EmptyString => if Ascii.eqb c "="%char then EmptyString else String c EmptyString
      | t => String c t
      end
  end.

End Base64.

(** ** SHA-256 (FIPS 180-4) and HMAC (RFC 2104), as @noble/hashes provides *)
Module Sha256.

Definition mask32 : Z := 4294967295.
Definition add32 (x y : Z) : Z := (x + y) mod 4294967296.
Definition rotr (n x : Z) : Z :=
  Z.lor (Z.shiftr x n) (Z.land (Z.shiftl x (32 - n)) mask32).
Definition not32 (x : Z) : Z := Z.lxor x mask32.

Definition Ch (x y z : Z) : Z := Z.lxor (Z.land x y) (Z.land (not32 x) z).
Definition Maj (x y z : Z) : Z :=
  Z.lxor (Z.lxor (Z.land x y) (Z.land x z)) (Z.land y z).
Definition Sigma0 (x : Z) : Z := Z.lxor (Z.lxor (rotr 2 x) (rotr 13 x)) (rotr 22 x).
Definition Sigma1 (x : Z) : Z := Z.lxor (Z.lxor (rotr 6 x) (rotr 11 x)) (rotr 25 x).
Definition sigma0 (x : Z) : Z := Z.lxor (Z.lxor (rotr 7 x) (rotr 18 x)) (Z.shiftr x 3).
Definition sigma1 (x : Z) : Z := Z.lxor (Z.lxor (rotr 17 x) (rotr 19 x)) (Z.shiftr x 10).

(** The first sixty-four primes. *)
Definition primes : list Z :=
  [2; 3; 5; 7; 11; 13; 17; 19; 23; 29; 31; 37; 41; 43; 47; 53;
   59; 61; 67; 71; 73; 79; 83; 89; 97; 101; 103; 107; 109; 113; 127; 131;
   137; 139; 149; 151; 157; 163; 167; 173; 179; 181; 191; 193; 197; 199; 211; 223;
   227; 229; 233; 239; 241; 251; 257; 263; 269; 271; 277; 281; 283; 293; 307; 311].

(** Integer cube root below [2^n], one bit at a time. *)
Fixpoint cbrt_bits (n : nat) (x r : Z) : Z :=
  match n with
  | O => r
  | S n' =>
      let c := r + 2 ^ Z.of_nat n' in
      cbrt_bits n' x (if c * c * c <=? x then c else r)
  end.

(** The round constants: the first 32 bits of the fractional parts of
    the cube roots of the primes. *)
Definition K : list Z :=
  Eval vm_compute in map (fun p => cbrt_bits 40 (p * 2 ^ 96) 0 mod 2 ^ 32) primes.

(** The initial hash value: the first 32 bits of the fractional parts of
    the square roots of the first eight primes. *)
Definition H0 : list Z :=
  Eval vm_compute in map (fun p => Z.sqrt (p * 2 ^ 64) mod 2 ^ 32) (firstn 8 primes).

Definition w (l : list Z) (i : nat) : Z := nth i l 0.

(** Message schedule: [n] more words from a sliding window of sixteen. *)
Fixpoint schedule (n : nat) (win : list Z) : list Z :=
  match n with
  | O => []
  | S n' =>
      let x := add32 (add32 (sigma1 (w win 14)) (w win 9))
                     (add32 (sigma0 (w win 1)) (w win 0)) in
      x :: schedule n' (tl win ++ [x])
  end.

Definition round (st : list Z) (kw : Z * Z) : list Z :=
  let '(k, wt) := kw in
  let a := w st 0 in let b := w st 1 in let c := w st 2 in let d := w st 3 in
  let e := w st 4 in let f := w st 5 in let g := w st 6 in let h := w st 7 in
  let t1 := add32 (add32 (add32 h (Sigma1 e)) (add32 (Ch e f g) k)) wt in
  let t2 := add32 (Sigma0 a) (Maj a b c) in
  [add32 t1 t2; a; b; c; add32 d t1; e; f; g].

Definition compress (st : list Z) (block : list Z) : list Z :=
  let ws := block ++ schedule 48 block in
  let st' := fold_left round (combine K ws) st in
  map (fun p => add32 (fst p) (snd p)) (combine st st').

Definition bz (x : byte) : Z := Z.of_N (Byte.to_N x).

(** Big-endian 32-bit words of a byte sequence (length a multiple of 4). *)
Fixpoint words (bs : list byte) : list Z :=
  match bs with
  | a :: b :: c :: d :: rest =>
      (Z.shiftl (bz a) 24 + Z.shiftl (bz b) 16 + Z.shiftl (bz c) 8 + bz d) :: words rest
  | _ => []
  end.

Definition be_bytes (n : nat) (z : Z) : list byte :=
  map (fun i => Base64.byte_of (Z.shiftr z (8 * Z.of_nat i))) (List.rev (seq 0 n)).

(** Padding: 0x80, zeros up to 56 mod 64, the bit length on 8 bytes. *)
Definition pad (msg : list byte) : list byte :=
  let len := Z.of_nat (List.length msg) in
  let zeros := Z.to_nat ((55 - len) mod 64) in
  msg ++ [x80] ++ repeat x00 zeros ++ be_bytes 8 (8 * len).

Fixpoint blocks (n : nat) (ws : list Z) (st : list Z) : list Z :=
  match n with
  | O => st
  | S n' =>
      match ws with
      | [] => st
      | _ => blocks n' (skipn 16 ws) (compress st (firstn 16 ws))
      end
  end.

Definition sha256 (msg : list byte) : list byte :=
  let ws := words (pad msg) in
  flat_map (be_bytes 4) (blocks (List.length ws) ws H0).

(** The incremental interface: [create], [update], [digest]. *)
Record hash := { absorbed : list byte }.
Definition create : hash := {| absorbed := [] |}.
Definition update (h : hash) (buf : list byte) : hash :=
  {| absorbed := absorbed h ++ buf |}.
Definition digest (h : hash) : list byte := sha256 (absorbed h).

End Sha256.

Module Hmac.

Definition blockLen : nat := 64.

Definition xor_byte (c : Z) (x : byte) : byte :=
  Base64.byte_of (Z.lxor (Sha256.bz x) c).

(** The key block: a key longer than a block is hashed first, then the key
    is padded with zeros to the block length. *)
Definition key_block (key : list byte) : list byte :=
  let k := if (blockLen <? List.length key)%nat then Sha256.sha256 key else key in
  k ++ repeat x00 (blockLen - List.length k).

(** RFC 2104 in one shot. *)
Definition hmac_sha256 (key msg : list byte) : list byte :=
  Sha256.sha256 (map (xor_byte 0x5c) (key_block key)
                 ++ Sha256.sha256 (map (xor_byte 0x36) (key_block key) ++ msg)).

(** The streaming object of [hmac.create(sha256, key)]. *)
Record mac := { iHash : Sha256.hash; oHash : Sha256.hash }.

Definition create (key : list byte) : mac :=
  {| iHash := Sha256.update Sha256.create (map (xor_byte 0x36) (key_block key));
     oHash := Sha256.update Sha256.create (map (xor_byte 0x5c) (key_block key)) |}.

Definition update (m : mac) (buf : list byte) : mac :=
  {| iHash := Sha256.update (iHash m) buf; oHash := oHash m |}.

Definition digest (m : mac) : list byte :=
  Sha256.digest (Sha256.update (oHash m) (Sha256.digest (iHash m))).

End Hmac.

(** ** JavaScript values carried by requests and responses *)
Module Js.

(** The records of [types.ts] hold strings, booleans, bigints, nested
    objects and optional fields; no field is a JS [number], and the decoder
    below is configured to produce bigints only. *)
Inductive value : Type :=
| VUndefined
| VNull
| VBool (b : bool)
| VBigInt (z : Z)
| VString (s : string)
| VArray (items : list value)
| VObject (fields : list (string * value)).

(** [!!v]. *)
Definition truthy (v : value) : bool :=
  match v with
  | VUndefined | VNull => false
  | VBool b => b
  | VBigInt z => negb (z =? 0)
  | VString s => Text.nonempty s
  | VArray _ | VObject _ => true
  end.

(** [typeof v === 'object'] (which holds of [null] too). *)
Definition is_object (v : value) : bool :=
  match v with VNull | VArray _ | VObject _ => true | _ => false end.

Fixpoint lookup {A : Type} (k : string) (l : list (string * A)) : option A :=
  match l with
  | [] => None
  | (k', v) :: r => if String.eqb k' k then Some v else lookup k r
  end.

(** [o[k] = v]: an existing key keeps its place, a new key goes last. *)
Fixpoint set {A : Type} (k : string) (v : A) (l : list (string * A)) : list (string * A) :=
  match l with
  | [] => [(k, v)]
  | (k', v') :: r => if String.eqb k' k then (k', v) :: r else (k', v') :: set k v r
  end.

(** An array index: the canonical decimal text of an integer below
    [2^32 - 1]. *)
Definition array_index (k : string) : option Z :=
  match k with
  | EmptyString => None
  | String c r =>
      match NilEmpty.uint_of_string k with
      | Some d =>
          if Ascii.eqb c "0" && Text.nonempty r then None
          else if Z.of_uint d <? 2 ^ 32 - 1 then Some (Z.of_uint d) else None
      | None => None
      end
  end.

(** Where a new property with the array index [i] goes: after the array
    indices below [i]. *)
Fixpoint place {A : Type} (i : Z) (k : string) (v : A) (l : list (string * A))
  : list (string * A) :=
  match l with
  | [] => [(k, v)]
  | (k', v') :: r =>
      match array_index k' with
      | Some j => if j <? i then (k', v') :: place i k v r else (k, v) :: l
      | None => (k, v) :: l
      end
  end.

(** [o[k] = v] on an ordinary object, whose properties are in the order
    of [Object.keys]: the array indices first, in ascending order, then
    the other names in the order of their creation.  An existing key
    keeps its place. *)
Definition assign {A : Type} (k : string) (v : A) (l : list (string * A))
  : list (string * A) :=
  match lookup k l, array_index k with
  | None, Some i => place i k v l
  | _, _ => set k v l
  end.

(** The order of the properties of an ordinary object: [no_index] names
    after array indices that go up from [lo]. *)
Definition no_index (l : list string) : bool :=
  forallb (fun k => match array_index k with Some _ => false | None => true end) l.

Fixpoint ascending (lo : Z) (l : list string) : bool :=
  match l with
  | [] => true
  | k :: r =>
      match array_index k with
      | Some i => (lo <? i) && ascending i r
      | None => no_index r
      end
  end.

Definition property_order (l : list string) : bool := ascending (-1) l.

(** [v.k] for a property name [k] that no built-in prototype defines:
    [None] is the [TypeError] of reading a property of [undefined] or
    [null]. *)
Definition prop (v : value) (k : string) : option value :=
  match v with
  | VUndefined | VNull => None
  | VObject fs => Some (match lookup k fs with Some x => x | None => VUndefined end)
  | _ => Some VUndefined
  end.

Definition keys (v : value) : list string :=
  match v with VObject fs => map fst fs | _ => [] end.

End Js.

(** ** Double precision, as far as the decoder needs it: the value of a
    decimal literal rounded to the nearest double (ties to even). *)
Module Double.

(** Quotient rounded to nearest, ties to even. *)
Definition div_rne (n d : Z) : Z :=
  let q := n / d in
  let r := n mod d in
  if 2 * r <? d then q
  else if d <? 2 * r then q + 1
  else if Z.even q then q else q + 1.

(** [floor (log2 (n / d))] for positive [n], [d]. *)
Definition exponent (n d : Z) : Z :=
  if d <=? n then Z.log2 (n / d) else - Z.log2_up ((d + n - 1) / n).

(** The double nearest to [n / d] ([n], [d] positive), as a pair [(m, e)]
    standing for [m * 2^e] with [m <= 2^53]; [None] when the result is
    [Infinity]. *)
Definition round_pos (n d : Z) : option (Z * Z) :=
  let e := Z.max (exponent n d) (-1022) in
  let m := div_rne (n * 2 ^ Z.max 0 (52 - e)) (d * 2 ^ Z.max 0 (e - 52)) in
  if (1024 <=? e) || ((e =? 1023) && (m =? 2 ^ 53)) then None
  else Some (m, e - 52).

(** The integer a finite double stands for, when it is one. *)
Definition integer_value (x : Z * Z) : option Z :=
  let '(m, e) := x in
  if 0 <=? e then Some (m * 2 ^ e)
  else if m mod 2 ^ (- e) =? 0 then Some (m / 2 ^ (- e)) else None.

End Double.

(** ** json-bigint, configured with [alwaysParseAsBig] and [useNativeBigInt] *)
Module JSONBig.
Import Js.

Inductive res (A : Type) : Type :=
| Ok (a : A)
| Err (msg : string).
Arguments Ok {A} a.
Arguments Err {A} msg.

Definition dq : ascii := Text.chr 34.
Definition ch (c : ascii) : string := String c EmptyString.
Definition is_code (c : ascii) (n : Z) : bool := Text.code c =? n.

(** *** stringify *)

Definition hexdigit (n : Z) : ascii :=
  match String.get (Z.to_nat n) "0123456789abcdef" with
  | Some c => c
  | None => "0"%char
  end.

Definition hex4 (n : Z) : string :=
  String (hexdigit (Z.shiftr n 12 mod 16)) (String (hexdigit (Z.shiftr n 8 mod 16))
 (String (hexdigit (Z.shiftr n 4 mod 16)) (String (hexdigit (n mod 16)) ""))).

(** One ASCII character of [quote]: the quotation mark, the backslash,
    the control characters and U+007F are escaped. *)
Definition escape_char (c : ascii) : string :=
  let n := Text.code c in
  if n =? 34 then String "\" (ch dq)
  else if n =? 92 then "\\"
  else if n =? 8 then "\b"
  else if n =? 9 then "\t"
  else if n =? 10 then "\n"
  else if n =? 12 then "\f"
  else if n =? 13 then "\r"
  else if (n <? 32) || (n =? 127) then "\u" ++ hex4 n
  else ch c.

(** The code unit that two and three bytes of UTF-8 stand for. *)
Definition unit2 (a b : ascii) : Z := (Text.code a - 192) * 64 + (Text.code b - 128).

Definition unit3 (a b c : ascii) : Z :=
  ((Text.code a - 224) * 64 + (Text.code b - 128)) * 64 + (Text.code c - 128).

Definition lead2 (a : ascii) : bool := (194 <=? Text.code a) && (Text.code a <=? 223).
Definition lead3 (a : ascii) : bool := (224 <=? Text.code a) && (Text.code a <=? 239).
Definition continuation (c : ascii) : bool := (128 <=? Text.code c) && (Text.code c <=? 191).

(** The characters beyond ASCII in the character class [escapable]:
    U+0080-009F, U+00AD, U+0600-0604, U+070F, U+17B4, U+17B5,
    U+200C-200F, U+2028-202F, U+2060-206F, U+FEFF and U+FFF0-FFFF. *)
Definition escapable (u : Z) : bool :=
  ((128 <=? u) && (u <=? 159)) || (u =? 173)
  || ((1536 <=? u) && (u <=? 1540)) || (u =? 1807)
  || (u =? 6068) || (u =? 6069)
  || ((8204 <=? u) && (u <=? 8207)) || ((8232 <=? u) && (u <=? 8239))
  || ((8288 <=? u) && (u <=? 8303)) || (u =? 65279)
  || ((65520 <=? u) && (u <=? 65535)).

Definition escaped2 (a b : ascii) : bool :=
  lead2 a && continuation b && escapable (unit2 a b).

Definition escaped3 (a b c : ascii) : bool :=
  lead3 a && continuation b && continuation c
  && (2048 <=? unit3 a b c) && escapable (unit3 a b c).

(** [string.replace(escapable, ...)]: an escapable character is replaced
    by its escape, the others are copied.  A string is the bytes of its
    UTF-8 encoding, an escapable character beyond ASCII is two or three
    of them. *)
Fixpoint escape (s : string) : string :=
  match s with
  | EmptyString => EmptyString
  | String a r =>
      match r with
      | String b r2 =>
          if escaped2 a b then ("\u" ++ hex4 (unit2 a b) ++ escape r2)%string
          else
            match r2 with
            | String c r3 =>
                if escaped3 a b c then ("\u" ++ hex4 (unit3 a b c) ++ escape r3)%string
                else (escape_char a ++ escape r)%string
            | EmptyString => (escape_char a ++ escape r)%string
            end
      | EmptyString => (escape_char a ++ escape r)%string
      end
  end.

Definition quote (s : string) : string := String dq (escape s ++ ch dq).

(** [str(key, holder)]: [None] is [undefined]; an [undefined] item of an
    array prints as [null], an [undefined] property is left out. *)
Fixpoint str (v : value) : option string :=
  match v with
  | VUndefined => None
  | VNull => Some "null"
  | VBool b => Some (Text.of_bool b)
  | VBigInt z => Some (Text.of_Z z)
  | VString s => Some (quote s)
  | VArray items =>
      Some ("[" ++ Text.join ","
              (map (fun x => match str x with Some t => t | None => "null" end) items)
            ++ "]")%string
  | VObject fields =>
      Some ("{" ++ Text.join ","
              ((fix members (l : list (string * value)) : list string :=
                  match l with
                  | [] => []
                  | (k, x) :: r =>
                      match str x with
                      | Some t => (quote k ++ ":" ++ t)%string :: members r
                      | None => members r
                      end
                  end) fields)
            ++ "}")%string
  end.

Definition stringify (v : value) : option string := str v.

(** *** parse *)

(** [white()]: skip characters up to the space. *)
Fixpoint white (s : string) : string :=
  match s with
  | String c r => if Text.code c <=? 32 then white r else s
  | EmptyString => EmptyString
  end.

Definition head (s : string) : string :=
  match s with String c _ => ch c | EmptyString => "" end.

(** The message of [next(c)] when the current character is not [c]. *)
Definition expected (c : string) (s : string) : string :=
  ("Expected '" ++ c ++ "' instead of '" ++ head s ++ "'")%string.

Definition hexval (c : ascii) : option Z :=
  let n := Text.code c in
  if (48 <=? n) && (n <=? 57) then Some (n - 48)
  else if (97 <=? n) && (n <=? 102) then Some (n - 87)
  else if (65 <=? n) && (n <=? 70) then Some (n - 55)
  else None.

(** [String.fromCharCode(u)] for a 16-bit code unit, in UTF-8; a
    surrogate half on its own has the three bytes of its code. *)
Definition fromCharCode (u : Z) : string :=
  if u <? 128 then ch (Text.chr u)
  else if u <? 2048 then
    String (Text.chr (192 + Z.shiftr u 6)) (ch (Text.chr (128 + Z.land u 63)))
  else
    String (Text.chr (224 + Z.shiftr u 12))
   (String (Text.chr (128 + Z.land (Z.shiftr u 6) 63)) (ch (Text.chr (128 + Z.land u 63)))).

(** The four bytes of a code point from U+10000 on. *)
Definition astral (v : Z) : string :=
  String (Text.chr (240 + Z.shiftr v 18))
 (String (Text.chr (128 + Z.land (Z.shiftr v 12) 63))
 (String (Text.chr (128 + Z.land (Z.shiftr v 6) 63)) (ch (Text.chr (128 + Z.land v 63))))).

Definition high_surrogate (u : Z) : bool := (55296 <=? u) && (u <=? 56319).
Definition low_surrogate (u : Z) : bool := (56320 <=? u) && (u <=? 57343).

(** A string that ends with a high surrogate on its own: what comes
    before it, and the surrogate. *)
Fixpoint split_high (acc : string) : option (string * Z) :=
  match acc with
  | EmptyString => None
  | String a r =>
      match r with
      | String b (String c EmptyString) =>
          if (Text.code a =? 237) && continuation b && continuation c
             && high_surrogate (unit3 a b c)
          then Some (EmptyString, unit3 a b c)
          else None
      | _ =>
          match split_high r with
          | Some (pre, hi) => Some (String a pre, hi)
          | None => None
          end
      end
  end.

(** [string += String.fromCharCode(u)]: a low surrogate that follows a
    high one makes one character with it, of four bytes. *)
Definition append_unit (acc : string) (u : Z) : string :=
  if low_surrogate u then
    match split_high acc with
    | Some (pre, hi) => (pre ++ astral (65536 + (hi - 55296) * 1024 + (u - 56320)))%string
    | None => (acc ++ fromCharCode u)%string
    end
  else (acc ++ fromCharCode u)%string.

Definition escapee (c : ascii) : option string :=
  let n := Text.code c in
  if n =? 34 then Some (ch dq)
  else if n =? 92 then Some "\"
  else if n =? 47 then Some "/"
  else if n =? 98 then Some (ch (Text.chr 8))
  else if n =? 102 then Some (ch (Text.chr 12))
  else if n =? 110 then Some (ch (Text.chr 10))
  else if n =? 114 then Some (ch (Text.chr 13))
  else if n =? 116 then Some (ch (Text.chr 9))
  else None.

(** Where the scanner of [string()] stands: in plain text, after a
    backslash, or inside a [\u] escape with [k] hex digits to go. *)
Inductive mode : Type :=
| Plain
| Escaped
| Hex (k : nat) (u : Z).

(** The body of a string, after the opening quote.  A character that
    ends a [\u] escape early is consumed with the escape. *)
Fixpoint string_body (m : mode) (acc : string) (s : string) : res (string * string) :=
  match s with
  | EmptyString => Err "Bad string"
  | String c r =>
      match m with
      | Plain =>
          if is_code c 34 then Ok (acc, r)
          else if is_code c 92 then string_body Escaped acc r
          else string_body Plain (acc ++ ch c) r
      | Escaped =>
          if is_code c 117 then string_body (Hex 4 0) acc r
          else match escapee c with
               | Some x => string_body Plain (acc ++ x) r
               | None => Err "Bad string"
               end
      | Hex k u =>
          match hexval c with
          | None => string_body Plain (append_unit acc u) r
          | Some h =>
              match k with
              | S (S k') => string_body (Hex (S k') (u * 16 + h)) acc r
              | _ => string_body Plain (append_unit acc (u * 16 + h)) r
              end
          end
      end
  end.

(** [string()]. *)
Definition string_lit (s : string) : res (string * string) :=
  match s with
  | String c r => if is_code c 34 then string_body Plain "" r else Err "Bad string"
  | EmptyString => Err "Bad string"
  end.

(** *** Numbers *)

Fixpoint span_digits (s : string) : string * string :=
  match s with
  | String c r =>
      if Text.is_digit c
      then let (d, t) := span_digits r in (String c d, t)
      else (EmptyString, s)
  | EmptyString => (EmptyString, EmptyString)
  end.

(** The pieces [number()] collects in its variable [string]. *)
Record literal : Type := {
  l_minus : bool;
  l_int : string;
  l_frac : option string;                 (* digits after a [.] *)
  l_exp : option (ascii * string * string) (* [e] or [E], sign, digits *)
}.

Definition text (l : literal) : string :=
  ((if l_minus l then "-" else "")
   ++ l_int l
   ++ match l_frac l with Some f => "." ++ f | None => "" end
   ++ match l_exp l with Some (e, sg, d) => String e (sg ++ d) | None => "" end)%string.

Definition lex_number (s : string) : literal * string :=
  let (neg, s1) :=
    match s with
    | String c r => if is_code c 45 then (true, r) else (false, s)
    | EmptyString => (false, s)
    end in
  let (ip, s2) := span_digits s1 in
  let (fp, s3) :=
    match s2 with
    | String c r =>
        if is_code c 46 then let (f, t) := span_digits r in (Some f, t) else (None, s2)
    | EmptyString => (None, s2)
    end in
  let (ep, s4) :=
    match s3 with
    | String c r =>
        if is_code c 101 || is_code c 69 then
          let (sg, r1) :=
            match r with
            | String c' r' =>
                if is_code c' 45 || is_code c' 43 then (ch c', r') else (EmptyString, r)
            | EmptyString => (EmptyString, r)
            end in
          let (d, t) := span_digits r1 in (Some (c, sg, d), t)
        else (None, s3)
    | EmptyString => (None, s3)
    end in
  ({| l_minus := neg; l_int := ip; l_frac := fp; l_exp := ep |}, s4).

Definition digits_value (s : string) : Z :=
  match NilEmpty.uint_of_string s with
  | Some d => Z.of_uint d
  | None => 0
  end.

(** [+string], the magnitude only: [None] when the result is [NaN] (the
    text is not a numeric literal) or infinite. *)
Definition to_number (l : literal) : option (Z * Z) :=
  let fr := match l_frac l with Some f => f | None => EmptyString end in
  let no_digits := negb (Text.nonempty (l_int l)) && negb (Text.nonempty fr) in
  let bad_exp := match l_exp l with Some (_, _, d) => negb (Text.nonempty d) | None => false end in
  if no_digits || bad_exp then None
  else
    let mant := digits_value (l_int l ++ fr) in
    let e10 :=
      match l_exp l with
      | Some (_, sg, d) => if String.eqb sg "-" then - digits_value d else digits_value d
      | None => 0
      end - Z.of_nat (String.length fr) in
    if mant =? 0 then Some (0, 0)
    else if 0 <=? e10 then Double.round_pos (mant * 10 ^ e10) 1
    else Double.round_pos mant (10 ^ (- e10)).

(** [BigInt(string)]: [None] is its [SyntaxError]. *)
Definition bigint_of_string (s : string) : option Z :=
  option_map Z.of_int (NilZero.int_of_string s).

(** [number()].  A literal that is not finite as a double is a
    ["Bad number"]; a text of more than 15 characters goes to
    [BigInt(string)], a shorter one to [BigInt(number)]. *)
Definition number (s : string) : res (value * string) :=
  let (l, rest) := lex_number s in
  match to_number l with
  | None => Err "Bad number"
  | Some x =>
      if (15 <? String.length (text l))%nat then
        match bigint_of_string (text l) with
        | Some z => Ok (VBigInt z, rest)
        | None => Err ("Cannot convert " ++ text l ++ " to a BigInt")
        end
      else
        match Double.integer_value x with
        | Some z => Ok (VBigInt (if l_minus l then - z else z), rest)
        | None =>
            Err ("The number " ++ text l
                 ++ " cannot be converted to a BigInt because it is not an integer")
        end
  end.

(** *** Words *)

Fixpoint strip_prefix (p s : string) : option string :=
  match p, s with
  | EmptyString, _ => Some s
  | String a p', String c s' => if Ascii.eqb a c then strip_prefix p' s' else None
  | _, EmptyString => None
  end.

(** [word()]: successive [next(c)] for the letters of the word. *)
Fixpoint next_all (w : string) (s : string) : res string :=
  match w with
  | EmptyString => Ok s
  | String a w' =>
      match s with
      | String c s' => if Ascii.eqb a c then next_all w' s' else Err (expected (ch a) s)
      | EmptyString => Err (expected (ch a) s)
      end
  end.

Definition word (s : string) : res (value * string) :=
  let keyword (w : string) (v : value) :=
    match next_all w s with Ok r => Ok (v, r) | Err m => Err m end in
  match s with
  | String c _ =>
      if is_code c 116 then keyword "true" (VBool true)
      else if is_code c 102 then keyword "false" (VBool false)
      else if is_code c 110 then keyword "null" VNull
      else Err ("Unexpected '" ++ ch c ++ "'")
  | EmptyString => Err "Unexpected ''"
  end.

(** *** Forbidden keys ([protoAction] and [constructorAction] are ['error']) *)

Definition upper_hex (c : ascii) : ascii :=
  if (97 <=? Text.code c) && (Text.code c <=? 102) then Text.chr (Text.code c - 32) else c.

(** The spellings a suspect-key pattern accepts for one character: the
    character, or its [\u00XX] escape with the last hex digit in either
    case. *)
Definition spellings (c : ascii) : list string :=
  let hi := hexdigit (Text.code c / 16) in
  let lo := hexdigit (Text.code c mod 16) in
  [ch c; "\u00" ++ String hi (ch lo); "\u00" ++ String hi (ch (upper_hex lo))]%string.

Fixpoint match_here (pat : string) (s : string) : bool :=
  match pat with
  | EmptyString => true
  | String c pat' =>
      existsb (fun a => match strip_prefix a s with
                        | Some r => match_here pat' r
                        | None => false
                        end) (spellings c)
  end.

Fixpoint suspect (pat : string) (s : string) : bool :=
  match_here pat s ||
  match s with
  | String _ r => suspect pat r
  | EmptyString => false
  end.

(** *** Values *)

(** [value()], [array()] and [object()]; [fuel] bounds the depth of the
    calls, and twice the length of the text plus one is always enough. *)
Fixpoint value_ (fuel : nat) (s : string) : res (value * string) :=
  match fuel with
  | O => Err "Maximum call stack size exceeded"
  | S fuel' =>
      let s := white s in
      match s with
      | EmptyString => word s
      | String c r =>
          if is_code c 123 then
            match white r with
            | EmptyString => Err "Bad object"
            | String c' r' as r1 =>
                if is_code c' 125 then Ok (VObject [], r') else members fuel' [] r1
            end
          else if is_code c 91 then
            match white r with
            | EmptyString => Err "Bad array"
            | String c' r' as r1 =>
                if is_code c' 93 then Ok (VArray [], r') else elements fuel' [] r1
            end
          else if is_code c 34 then
            match string_lit s with
            | Ok (t, r') => Ok (VString t, r')
            | Err m => Err m
            end
          else if is_code c 45 || Text.is_digit c then number s
          else word s
      end
  end

with elements (fuel : nat) (acc : list value) (s : string) : res (value * string) :=
  match fuel with
  | O => Err "Maximum call stack size exceeded"
  | S fuel' =>
      match s with
      | EmptyString => Err "Bad array"
      | _ =>
          match value_ fuel' s with
          | Err m => Err m
          | Ok (v, r) =>
              match white r with
              | String c r' as r1 =>
                  if is_code c 93 then Ok (VArray (acc ++ [v]), r')
                  else if is_code c 44 then elements fuel' (acc ++ [v]) (white r')
                  else Err (expected "," r1)
              | EmptyString => Err (expected "," EmptyString)
              end
          end
      end
  end

with members (fuel : nat) (acc : list (string * value)) (s : string) : res (value * string) :=
  match fuel with
  | O => Err "Maximum call stack size exceeded"
  | S fuel' =>
      match s with
      | EmptyString => Err "Bad object"
      | _ =>
          match string_lit s with
          | Err m => Err m
          | Ok (key, r) =>
              match white r with
              | EmptyString => Err (expected ":" EmptyString)
              | String c r' as r1 =>
                  if negb (is_code c 58) then Err (expected ":" r1)
                  else if suspect "__proto__" key
                  then Err "Object contains forbidden prototype property"
                  else if suspect "constructor" key
                  then Err "Object contains forbidden constructor property"
                  else
                    match value_ fuel' r' with
                    | Err m => Err m
                    | Ok (v, r2) =>
                        match white r2 with
                        | String c2 r3 as r2' =>
                            if is_code c2 125 then Ok (VObject (assign key v acc), r3)
                            else if is_code c2 44
                            then members fuel' (assign key v acc) (white r3)
                            else Err (expected "," r2')
                        | EmptyString => Err (expected "," EmptyString)
                        end
                    end
              end
          end
      end
  end.

(** [JSONBig.parse(text)]. *)
Definition parse (source : string) : res value :=
  match value_ (S (2 * String.length source)) source with
  | Err m => Err m
  | Ok (v, r) =>
      match white r with
      | EmptyString => Ok v
      | _ => Err "Syntax error"
      end
  end.

End JSONBig.

(** ** [URLSearchParams] *)
Module URLSearchParams.

Definition t : Type := list (string * string).

Definition empty : t := [].

(** [params.set(name, value)]: the first pair named [name] takes the
    value and the others go; a new name is appended. *)
Fixpoint set (name value : string) (p : t) : t :=
  match p with
  | [] => [(name, value)]
  | (k, v) :: r =>
      if String.eqb k name
      then (k, value) :: filter (fun kv => negb (String.eqb (fst kv) name)) r
      else (k, v) :: set name value r
  end.

Definition upper_hexdigit (n : Z) : ascii :=
  match String.get (Z.to_nat n) "0123456789ABCDEF" with
  | Some c => c
  | None => "0"%char
  end.

(** The application/x-www-form-urlencoded byte serializer. *)
Definition encode_char (c : ascii) : string :=
  let n := Text.code c in
  if n =? 32 then "+"
  else if ((48 <=? n) && (n <=? 57)) || ((65 <=? n) && (n <=? 90)) || ((97 <=? n) && (n <=? 122))
          || (n =? 42) || (n =? 45) || (n =? 46) || (n =? 95)
  then String c EmptyString
  else String "%" (String (upper_hexdigit (n / 16)) (String (upper_hexdigit (n mod 16)) EmptyString)).

Fixpoint encode (s : string) : string :=
  match s with
  | EmptyString => EmptyString
  | String c r => (encode_char c ++ encode r)%string
  end.

Definition toString (p : t) : string :=
  Text.join "&" (map (fun kv => (encode (fst kv) ++ "=" ++ encode (snd kv))%string) p).

End URLSearchParams.

(** ** [src/http.ts] *)
Module Http.
Import Js.

Definition RENEGADE_HEADER_PREFIX : string := "x-renegade".
Definition RENEGADE_AUTH_HEADER : string := "x-renegade-auth".
Definition RENEGADE_AUTH_EXPIRATION_HEADER : string := "x-renegade-auth-expiration".

Definition REQUEST_SIGNATURE_DURATION_MS : Z := 10 * 1000.

(** What [console.error] receives. *)
Record diagnostic : Type := { d_label : string; d_error : string }.

(** [parseBigJSON]: the decoded value, or the input itself and one
    diagnostic when the decoder throws. *)
Definition parseBigJSON (data : string) : value * list diagnostic :=
  match JSONBig.parse data with
  | JSONBig.Ok v => (v, [])
  | JSONBig.Err e =>
      (VString data, [{| d_label := "Failed to parse JSON with BigInt"; d_error := e |}])
  end.

(** [stringifyBigJSON]; [None] is [undefined]. *)
Definition stringifyBigJSON (data : value) : option string := JSONBig.stringify data.

(** A header object: own properties in insertion order, names unique. *)
Definition headers : Type := list (string * string).

Record config : Type := {
  url : option string;
  c_headers : option headers;
  data : value
}.

Record RelayerHttpClient : Type := {
  baseUrl : string;
  authKey : list byte
}.

Definition decodeBase64 (base64 : string) : list byte := Base64.decode base64.

Definition encodeBase64 (data : list byte) : string :=
  Base64.strip_padding (Base64.encode data).

(** The constructor, as far as the state of the client goes. *)
Definition new (baseUrl authKey : string) : RelayerHttpClient :=
  {| baseUrl := baseUrl; authKey := decodeBase64 authKey |}.

(** [axios.defaults.headers.common], used when a request comes without
    headers. *)
Definition axios_defaults_common : headers :=
  [("Accept", "application/json, text/plain, */*")].

(** The body the interceptor signs. *)
Definition signed_body (d : value) : string :=
  if truthy d then
    match d with
    | VString s => s
    | _ => match stringifyBigJSON d with Some t => t | None => EmptyString end
    end
  else EmptyString.

Definition in_namespace (kv : string * string) : bool :=
  Text.startsWith (Text.toLowerCase (fst kv)) RENEGADE_HEADER_PREFIX.

Definition not_auth (kv : string * string) : bool :=
  negb (String.eqb (Text.toLowerCase (fst kv)) (Text.toLowerCase RENEGADE_AUTH_HEADER)).

Inductive method : Type := GET | POST.

(** A request as it leaves the client: the configuration after the
    request interceptor and [transformRequest], which axios hands to its
    adapter.  What the adapter does with it (resolving the url against the
    base url, merging headers whose names differ in case only, adding
    headers of its own, refusing a body that is not text) is not the
    client's and is not modelled: it is part of the [server] below. *)
Record outbound_request : Type := {
  o_method : method;
  o_base : string;
  o_path : string;
  o_headers : headers;
  o_body : value
}.

Inductive reply : Type :=
| Response (status : Z) (body : string)
| NetworkError (message : string).

Record response : Type := { status : Z; r_data : value }.

(** A thrown JavaScript error, as far as the client reads it. *)
Record js_error : Type := { e_message : string; e_status : option Z }.

(** [transformRequest]. *)
Definition transformRequest (d : value) : value :=
  if truthy d && is_object d then
    match stringifyBigJSON d with Some t => VString t | None => VUndefined end
  else d.

Definition is_bom (a b c : ascii) : bool :=
  (Text.code a =? 239) && (Text.code b =? 187) && (Text.code c =? 191).

(** [transformResponse]: the body of a reply is a string. *)
Definition transformResponse (body : string) : value := fst (parseBigJSON body).

(** [utils.stripBOM]: the adapter drops one byte order mark (U+FEFF, the
    bytes EF BB BF) from the start of the text of a reply. *)
Definition stripBOM (content : string) : string :=
  match content with
  | String a (String b (String c r)) =>
      if is_bom a b c then r else content
  | _ => content
  end.

(** How axios settles a reply: a status in [200, 300) resolves, any other
    rejects with an error that carries the status; a failure of the
    connection rejects without one.  The text of the reply reaches
    [transformResponse] without its byte order mark. *)
Definition settle (r : reply) : js_error + response :=
  match r with
  | Response st body =>
      if (200 <=? st) && (st <? 300)
      then inr {| status := st; r_data := transformResponse (stripBOM body) |}
      else inl {| e_message := "Request failed with status code " ++ Text.of_Z st;
                  e_status := Some st |}
  | NetworkError m => inl {| e_message := m; e_status := None |}
  end.

(** The headers of a call: the defaults of the instance, then the
    headers given with the call. *)
Definition instance_headers : headers :=
  axios_defaults_common ++ [("Content-Type", "application/json")].

(** [AxiosHeaders.set], with which axios merges the headers of a call
    into the defaults: names are matched without regard to case; a name
    that is present keeps its spelling and its place and takes the new
    value, a new name goes last. *)
Fixpoint merge_header (k v : string) (h : headers) : headers :=
  match h with
  | [] => [(k, v)]
  | (k', v') :: r =>
      if String.eqb (Text.toLowerCase k') (Text.toLowerCase k)
      then (k', v) :: r
      else (k', v') :: merge_header k v r
  end.

(** The configuration axios gives to the request interceptor.  The
    headers of a call are taken to be header names proper: not empty,
    without white space around them, and none of the names under which
    axios files its defaults by method ([common], [get], [post] and the
    like). *)
Definition request_config (path : string) (d : value) (hs : headers) : config :=
  {| url := Some path;
     c_headers :=
       Some (fold_left (fun h kv => merge_header (fst kv) (snd kv) h) hs instance_headers);
     data := d |}.

(** What the adapter receives for a configuration that has passed the
    request interceptor: its url, its headers, and its data through
    [transformRequest]. *)
Definition handover (this : RelayerHttpClient) (m : method) (cfg : config)
  : outbound_request :=
  {| o_method := m;
     o_base := baseUrl this;
     o_path := match url cfg with Some u => u | None => EmptyString end;
     o_headers := match c_headers cfg with Some h => h | None => [] end;
     o_body := transformRequest (data cfg) |}.

Section Runtime.

(** [String.prototype.localeCompare] is the runtime's. *)
Variable localeCompare : string -> string -> Z.

(** [Array.prototype.sort] with the comparator on the names: a stable
    sort. *)
Fixpoint insert (x : string * string) (l : headers) : headers :=
  match l with
  | [] => [x]
  | y :: r => if localeCompare (fst x) (fst y) <=? 0 then x :: l else y :: insert x r
  end.

Fixpoint sort (l : headers) : headers :=
  match l with
  | [] => []
  | x :: r => insert x (sort r)
  end.

(** The headers that enter the MAC, in the order they enter it. *)
Definition signed_headers (h : headers) : headers :=
  sort (filter not_auth (filter in_namespace h)).

(** [addAuthInterceptor]; [now] is [Date.now()]. *)
Definition addAuthInterceptor (this : RelayerHttpClient) (now : Z) (cfg : config) : config :=
  let h0 := match c_headers cfg with Some h => h | None => axios_defaults_common end in
  let timestamp := now in
  let expiry := timestamp + REQUEST_SIGNATURE_DURATION_MS in
  let h1 := set RENEGADE_AUTH_EXPIRATION_HEADER (Text.of_Z expiry) h0 in
  let mac := Hmac.create (authKey this) in
  let fullPath :=
    match url cfg with
    | Some u => if Text.nonempty u then u else EmptyString
    | None => EmptyString
    end in
  let mac := Hmac.update mac (Text.utf8 fullPath) in
  let mac :=
    fold_left (fun m kv => Hmac.update (Hmac.update m (Text.utf8 (fst kv))) (Text.utf8 (snd kv)))
              (signed_headers h1) mac in
  let body := signed_body (data cfg) in
  let mac := Hmac.update mac (Text.utf8 body) in
  {| url := url cfg;
     c_headers := Some (set RENEGADE_AUTH_HEADER (encodeBase64 (Hmac.digest mac)) h1);
     data := data cfg |}.

(** What a call hands to the adapter: the request interceptor runs, then
    [transformRequest]. *)
Definition outbound (this : RelayerHttpClient) (now : Z) (m : method)
           (path : string) (d : value) (hs : headers) : outbound_request :=
  handover this m (addAuthInterceptor this now (request_config path d hs)).

(** The adapter, the network and the relayer: the reply to a request
    handed over. *)
Variable server : outbound_request -> reply.

Definition get (this : RelayerHttpClient) (now : Z) (path : string) (hs : headers)
  : js_error + response :=
  settle (server (outbound this now GET path VUndefined hs)).

Definition post (this : RelayerHttpClient) (now : Z) (path : string) (d : value)
           (hs : headers) : js_error + response :=
  settle (server (outbound this now POST path d hs)).

End Runtime.

End Http.

(** ** [src/client.ts] *)
Module Client.
Import Js.

Definition SEPOLIA_BASE_URL : string := "https://testnet.auth-server.renegade.fi".
Definition MAINNET_BASE_URL : string := "https://mainnet.auth-server.renegade.fi".

Definition RENEGADE_API_KEY_HEADER : string := "x-renegade-api-key".
Definition RENEGADE_SDK_VERSION_HEADER : string := "x-renegade-sdk-version".

Definition REQUEST_EXTERNAL_QUOTE_ROUTE : string := "/v0/matching-engine/quote".
Definition ASSEMBLE_EXTERNAL_MATCH_ROUTE : string :=
  "/v0/matching-engine/assemble-external-match".

Definition DISABLE_GAS_SPONSORSHIP_QUERY_PARAM : string := "disable_gas_sponsorship".
Definition GAS_REFUND_ADDRESS_QUERY_PARAM : string := "refund_address".
Definition REFUND_NATIVE_ETH_QUERY_PARAM : string := "refund_native_eth".

(** [src/version.ts] is written by [scripts/update-version.sh] from the
    version of [package.json]. *)
Definition VERSION : string := "0.1.8".

Definition getSdkVersion : string := "typescript-v" ++ VERSION.

(** An optional string is truthy when it is set and not empty. *)
Definition set_nonempty (o : option string) : bool :=
  match o with Some s => Text.nonempty s | None => false end.

Module RequestQuoteOptions.

Record t : Type := {
  disableGasSponsorship : bool;
  gasRefundAddress : option string;
  refundNativeEth : bool
}.

Definition new : t :=
  {| disableGasSponsorship := false; gasRefundAddress := None; refundNativeEth := false |}.

Definition withGasSponsorshipDisabled (b : bool) (o : t) : t :=
  {| disableGasSponsorship := b;
     gasRefundAddress := gasRefundAddress o;
     refundNativeEth := refundNativeEth o |}.

Definition withGasRefundAddress (a : string) (o : t) : t :=
  {| disableGasSponsorship := disableGasSponsorship o;
     gasRefundAddress := Some a;
     refundNativeEth := refundNativeEth o |}.

Definition withRefundNativeEth (b : bool) (o : t) : t :=
  {| disableGasSponsorship := disableGasSponsorship o;
     gasRefundAddress := gasRefundAddress o;
     refundNativeEth := b |}.

Definition buildRequestPath (o : t) : string :=
  let params := URLSearchParams.empty in
  let params :=
    URLSearchParams.set DISABLE_GAS_SPONSORSHIP_QUERY_PARAM
      (Text.of_bool (disableGasSponsorship o)) params in
  let params :=
    if set_nonempty (gasRefundAddress o)
    then URLSearchParams.set GAS_REFUND_ADDRESS_QUERY_PARAM
           (match gasRefundAddress o with Some a => a | None => EmptyString end) params
    else params in
  let params :=
    if refundNativeEth o
    then URLSearchParams.set REFUND_NATIVE_ETH_QUERY_PARAM
           (Text.of_bool (refundNativeEth o)) params
    else params in
  (REQUEST_EXTERNAL_QUOTE_ROUTE ++ "?" ++ URLSearchParams.toString params)%string.

End RequestQuoteOptions.

Module AssembleExternalMatchOptions.

Record t : Type := {
  doGasEstimation : bool;
  allowShared : bool;
  receiverAddress : option string;
  updatedOrder : option value;
  requestGasSponsorship : bool;
  gasRefundAddress : option string
}.

Definition new : t :=
  {| doGasEstimation := false; allowShared := false; receiverAddress := None;
     updatedOrder := None; requestGasSponsorship := false; gasRefundAddress := None |}.

Definition withGasEstimation (b : bool) (o : t) : t :=
  {| doGasEstimation := b; allowShared := allowShared o;
     receiverAddress := receiverAddress o; updatedOrder := updatedOrder o;
     requestGasSponsorship := requestGasSponsorship o;
     gasRefundAddress := gasRefundAddress o |}.

Definition withAllowShared (b : bool) (o : t) : t :=
  {| doGasEstimation := doGasEstimation o; allowShared := b;
     receiverAddress := receiverAddress o; updatedOrder := updatedOrder o;
     requestGasSponsorship := requestGasSponsorship o;
     gasRefundAddress := gasRefundAddress o |}.

Definition withReceiverAddress (a : string) (o : t) : t :=
  {| doGasEstimation := doGasEstimation o; allowShared := allowShared o;
     receiverAddress := Some a; updatedOrder := updatedOrder o;
     requestGasSponsorship := requestGasSponsorship o;
     gasRefundAddress := gasRefundAddress o |}.

Definition withUpdatedOrder (order : value) (o : t) : t :=
  {| doGasEstimation := doGasEstimation o; allowShared := allowShared o;
     receiverAddress := receiverAddress o; updatedOrder := Some order;
     requestGasSponsorship := requestGasSponsorship o;
     gasRefundAddress := gasRefundAddress o |}.

Definition withGasSponsorship (b : bool) (o : t) : t :=
  {| doGasEstimation := doGasEstimation o; allowShared := allowShared o;
     receiverAddress := receiverAddress o; updatedOrder := updatedOrder o;
     requestGasSponsorship := b;
     gasRefundAddress := gasRefundAddress o |}.

Definition withGasRefundAddress (a : string) (o : t) : t :=
  {| doGasEstimation := doGasEstimation o; allowShared := allowShared o;
     receiverAddress := receiverAddress o; updatedOrder := updatedOrder o;
     requestGasSponsorship := requestGasSponsorship o;
     gasRefundAddress := Some a |}.

Definition buildRequestPath (o : t) : string :=
  if negb (requestGasSponsorship o) && negb (set_nonempty (gasRefundAddress o))
  then ASSEMBLE_EXTERNAL_MATCH_ROUTE
  else
    let params := URLSearchParams.empty in
    let params :=
      if requestGasSponsorship o
      then URLSearchParams.set DISABLE_GAS_SPONSORSHIP_QUERY_PARAM
             (Text.of_bool (negb (requestGasSponsorship o))) params
      else params in
    let params :=
      if set_nonempty (gasRefundAddress o)
      then URLSearchParams.set GAS_REFUND_ADDRESS_QUERY_PARAM
             (match gasRefundAddress o with Some a => a | None => EmptyString end) params
      else params in
    (ASSEMBLE_EXTERNAL_MATCH_ROUTE ++ "?" ++ URLSearchParams.toString params)%string.

End AssembleExternalMatchOptions.

Record ExternalMatchClientError : Type := {
  message : string;
  statusCode : option Z
}.

(** How a method of the client ends: it returns or it throws. *)
Inductive outcome (A : Type) : Type :=
| Returned (a : A)
| Thrown (e : ExternalMatchClientError).
Arguments Returned {A} a.
Arguments Thrown {A} e.

Record ExternalMatchClient : Type := {
  apiKey : string;
  httpClient : Http.RelayerHttpClient
}.

Definition new (apiKey apiSecret baseUrl : string) : ExternalMatchClient :=
  {| apiKey := apiKey; httpClient := Http.new baseUrl apiSecret |}.

Definition newSepoliaClient (apiKey apiSecret : string) : ExternalMatchClient :=
  new apiKey apiSecret SEPOLIA_BASE_URL.

Definition newMainnetClient (apiKey apiSecret : string) : ExternalMatchClient :=
  new apiKey apiSecret MAINNET_BASE_URL.

Definition getHeaders (this : ExternalMatchClient) : Http.headers :=
  [(RENEGADE_API_KEY_HEADER, apiKey this); (RENEGADE_SDK_VERSION_HEADER, getSdkVersion)].

(** [SignedExternalQuote]; an absent [gas_sponsorship_info] is
    [VUndefined]. *)
Record SignedExternalQuote : Type := {
  quote : value;
  signature : value;
  gas_sponsorship_info : value
}.

Definition optional (o : option value) : value :=
  match o with Some v => v | None => VUndefined end.

Definition optional_string (o : option string) : value :=
  match o with Some s => VString s | None => VUndefined end.

(** The [TypeError] of reading property [k] of [undefined] or [null]. *)
Definition type_error (v : value) (k : string) : Http.js_error :=
  {| Http.e_message :=
       ("Cannot read properties of "
        ++ (match v with VNull => "null" | _ => "undefined" end)
        ++ " (reading '" ++ k ++ "')")%string;
     Http.e_status := None |}.

(** The [catch] clause shared by the two requests. *)
Definition on_error {A : Type} (fallback : string) (error : Http.js_error) : outcome (option A) :=
  if match Http.e_status error with Some st => st =? 204 | None => false end
  then Returned None
  else Thrown {| message := if Text.nonempty (Http.e_message error)
                            then Http.e_message error else fallback;
                 statusCode := Http.e_status error |}.

(** The request objects. *)
Definition quote_request (order : value) : value :=
  VObject [("external_order", order)].

Definition assemble_request (q : SignedExternalQuote) (options : AssembleExternalMatchOptions.t)
  : value :=
  let signedQuote := VObject [("quote", quote q); ("signature", signature q)] in
  VObject [("do_gas_estimation", VBool (AssembleExternalMatchOptions.doGasEstimation options));
           ("allow_shared", VBool (AssembleExternalMatchOptions.allowShared options));
           ("receiver_address",
            optional_string (AssembleExternalMatchOptions.receiverAddress options));
           ("signed_quote", signedQuote);
           ("updated_order", optional (AssembleExternalMatchOptions.updatedOrder options))].

(** The part of [requestQuoteWithOptions] after the reply: the [try]
    body on a resolved response and the [catch] clause. *)
Definition quote_result (r : Http.js_error + Http.response)
  : outcome (option SignedExternalQuote) :=
  match r with
  | inl error => on_error "Failed to request quote" error
  | inr resp =>
      if (Http.status resp =? 204) || negb (truthy (Http.r_data resp)) then Returned None
      else
        let quoteResp := Http.r_data resp in
        match prop quoteResp "signed_quote" with
        | None => on_error "Failed to request quote" (type_error quoteResp "signed_quote")
        | Some sq =>
            match prop sq "quote", prop sq "signature", prop quoteResp "gas_sponsorship_info" with
            | Some qu, Some sg, Some info =>
                Returned (Some {| quote := qu; signature := sg; gas_sponsorship_info := info |})
            | None, _, _ => on_error "Failed to request quote" (type_error sq "quote")
            | _, None, _ => on_error "Failed to request quote" (type_error sq "signature")
            | _, _, None =>
                on_error "Failed to request quote" (type_error quoteResp "gas_sponsorship_info")
            end
        end
  end.

Definition assemble_result (r : Http.js_error + Http.response) : outcome (option value) :=
  match r with
  | inl error => on_error "Failed to assemble quote" error
  | inr resp =>
      if (Http.status resp =? 204) || negb (truthy (Http.r_data resp)) then Returned None
      else Returned (Some (Http.r_data resp))
  end.

Section Runtime.

Variable localeCompare : string -> string -> Z.
Variable server : Http.outbound_request -> Http.reply.
Variable now : Z.

Definition requestQuoteWithOptions (this : ExternalMatchClient) (order : value)
           (options : RequestQuoteOptions.t) : outcome (option SignedExternalQuote) :=
  let request := quote_request order in
  let path := RequestQuoteOptions.buildRequestPath options in
  let headers := getHeaders this in
  quote_result (Http.post localeCompare server (httpClient this) now path request headers).

Definition requestQuote (this : ExternalMatchClient) (order : value)
  : outcome (option SignedExternalQuote) :=
  requestQuoteWithOptions this order RequestQuoteOptions.new.

Definition assembleQuoteWithOptions (this : ExternalMatchClient) (q : SignedExternalQuote)
           (options : AssembleExternalMatchOptions.t) : outcome (option value) :=
  let request := assemble_request q options in
  let path := AssembleExternalMatchOptions.buildRequestPath options in
  let headers := getHeaders this in
  assemble_result (Http.post localeCompare server (httpClient this) now path request headers).

Definition assembleQuote (this : ExternalMatchClient) (q : SignedExternalQuote)
  : outcome (option value) :=
  assembleQuoteWithOptions this q AssembleExternalMatchOptions.new.

End Runtime.

End Client.

(** ** Specification-side definitions *)
Module Spec.
Import Js.

(** Names in code-unit (lexicographic) order. *)
Definition lex_le (a b : string) : Prop := (a <=? b)%string = true.

Definition by_name (x y : string * string) : Prop := lex_le (fst x) (fst y).

(** The comparator of the runtime orders the names of [names] as the
    lexicographic order does. *)
Definition lexicographic_on (cmp : string -> string -> Z) (names : list string) : Prop :=
  forall a b, In a names -> In b names -> (cmp a b <= 0 <-> lex_le a b).

(** The comparator of the runtime is a total order on the names of
    [names]: what [Array.prototype.sort] needs for its result to be
    determined. *)
Definition total_order_on (cmp : string -> string -> Z) (names : list string) : Prop :=
  (forall a b, In a names -> In b names -> cmp a b <= 0 \/ cmp b a <= 0)
  /\ (forall a b, In a names -> In b names -> cmp a b <= 0 -> cmp b a <= 0 -> a = b)
  /\ (forall a b c, In a names -> In b names -> In c names ->
                    cmp a b <= 0 -> cmp b c <= 0 -> cmp a c <= 0).

(** Headers in the order of the comparator. *)
Definition by_comparator (cmp : string -> string -> Z) (x y : string * string) : Prop :=
  cmp (fst x) (fst y) <= 0.

(** A header enters the MAC when its name starts, whatever the case, with
    [x-renegade] and is not [x-renegade-auth]. *)
Definition included (kv : string * string) : bool :=
  String.prefix "x-renegade" (Text.toLowerCase (fst kv))
  && negb (String.eqb (Text.toLowerCase (fst kv)) "x-renegade-auth").

(** Name bytes, then value bytes. *)
Definition header_bytes (kv : string * string) : list byte :=
  Text.utf8 (fst kv) ++ Text.utf8 (snd kv).

(** The serialized body: nothing when there is no body, a string as it
    is, another value through the BigInt-safe stringifier. *)
Definition body_text (d : value) : string :=
  match d with
  | VString s => s
  | VObject _ | VArray _ =>
      match Http.stringifyBigJSON d with Some t => t | None => EmptyString end
  | VBool true => "true"
  | VBigInt z => if z =? 0 then EmptyString else Text.of_Z z
  | _ => EmptyString
  end.

Definition names (h : Http.headers) : list string := map fst h.


Definition remove_name (k : string) (h : Http.headers) : Http.headers :=
  filter (fun kv => negb (String.eqb (fst kv) k)) h.




(** The signature header a configuration carries. *)
Definition auth_header (cfg : Http.config) : option string :=
  match Http.c_headers cfg with
  | Some h => lookup Http.RENEGADE_AUTH_HEADER h
  | None => None
  end.

(** The header object the interceptor works on. *)
Definition config_headers (cfg : Http.config) : Http.headers :=
  match Http.c_headers cfg with Some h => h | None => Http.axios_defaults_common end.

Definition config_path (cfg : Http.config) : string :=
  match Http.url cfg with Some u => u | None => EmptyString end.

(** The header object at the time the MAC is computed: the expiration
    header is in, the signature header is not set yet. *)
Definition seen_headers (now : Z) (cfg : Http.config) : Http.headers :=
  set Http.RENEGADE_AUTH_EXPIRATION_HEADER (Text.of_Z (now + 10000)) (config_headers cfg).

(** The bytes given to the MAC for a path, a header object and a body
    text. *)
Definition mac_input (cmp : string -> string -> Z) (path : string) (h : Http.headers)
           (body : string) : list byte :=
  Text.utf8 path ++ flat_map header_bytes (Http.sort cmp (filter included h)) ++ Text.utf8 body.

(** The [=] that pad the base64 text of [n] bytes. *)
Fixpoint padding (n : nat) : string :=
  match n with
  | O => ""
  | 1%nat => "=="
  | 2%nat => "="
  | S (S (S k)) => padding k
  end.





Definition included_name (k : string) : bool := included (k, EmptyString).

(** The reply has status 204, or a status in [200, 300) and no body. *)
Definition empty_reply (r : Http.reply) : Prop :=
  match r with
  | Http.Response st body => st = 204 \/ (200 <= st < 300 /\ body = EmptyString)
  | Http.NetworkError _ => False
  end.

(** The reply has a status outside [200, 300). *)
Definition failed_with (st : Z) (r : Http.reply) : Prop :=
  (st < 200 \/ 300 <= st) /\ exists body, r = Http.Response st body.

Definition not_digit_first (rest : string) : Prop :=
  match rest with
  | String c _ => Text.is_digit c = false
  | EmptyString => True
  end.

(** The decimal text of an integer: a sign and the digits of its
    magnitude. *)
Definition digits_of (z : Z) : string :=
  match z with
  | Z0 => "0"
  | Zpos p | Zneg p => NilEmpty.string_of_uint (Pos.to_uint p)
  end.

(** The character after a number ends it. *)
Definition ends_number (rest : string) : Prop :=
  match rest with
  | String c _ =>
      Text.is_digit c = false /\ JSONBig.is_code c 46 = false
      /\ JSONBig.is_code c 101 = false /\ JSONBig.is_code c 69 = false
  | EmptyString => True
  end.

(** The text of [{amount: z}]. *)
Definition amount_text (z : Z) : string :=
  ("{" ++ JSONBig.quote "amount" ++ ":" ++ Text.of_Z z ++ "}")%string.


End Spec.

(** ** Checks by enumeration, for the facts on base64 *)
Module Base64Checks.
Import Base64.

Definition all_bytes : list byte :=
  flat_map (fun n => match Byte.of_nat n with Some x => [x] | None => [] end) (seq 0 256).

(** A sextet value survives its character. *)
Definition sextet_ok (v : Z) : bool :=
  match sextet_of (sextet_char v) with
  | Some v' => v' =? v
  | None => false
  end.

(** The four sextets of three bytes. *)
Definition s1 (x : byte) : Z := Z.shiftr (b x) 2.
Definition s2 (u : Z) (y : byte) : Z := Z.lor (Z.shiftl u 4) (Z.shiftr (b y) 4).
Definition s3 (y : byte) (t : Z) : Z := Z.lor (Z.shiftl (Z.land (b y) 15) 2) t.
Definition s4 (z : byte) : Z := Z.land (b z) 63.

Definition low2 (x : byte) : Z := Z.land (b x) 3.
Definition high2 (z : byte) : Z := Z.shiftr (b z) 6.

Definition two_bits : list Z := [0; 1; 2; 3].

Fixpoint bytes_eqb (l1 l2 : list byte) : bool :=
  match l1, l2 with
  | [], [] => true
  | x :: r1, y :: r2 => Byte.eqb x y && bytes_eqb r1 r2
  | _, _ => false
  end.

End Base64Checks.

(** The comparison of code units, for the runs of the development: on
    lower-case ASCII names it is what [localeCompare] answers. *)
Definition ordinalCompare (a b : string) : Z :=
  match String.compare a b with
  | Lt => -1
  | Eq => 0
  | Gt => 1
  end.

(** ** The collation of the runtime

    [String.prototype.localeCompare] compares by the collation of the
    locale, which in the runtimes the client runs on is the root collation
    of ICU.  On names made of ASCII letters, digits, [-] and [_] it first
    compares the characters without regard to case, [_] before [-] before
    the digits before the letters, a name before its extensions; between
    names that are equal up to case, the first difference of case decides,
    lower case first.  Other characters are outside this model, which
    places them after the letters, in the order of their codes. *)
Module Collation.

Definition primary (c : ascii) : Z :=
  let n := Text.code c in
  if n =? 95 then 1
  else if n =? 45 then 2
  else if (48 <=? n) && (n <=? 57) then 10 + (n - 48)
  else if (65 <=? n) && (n <=? 90) then 20 + (n - 65)
  else if (97 <=? n) && (n <=? 122) then 20 + (n - 97)
  else 1000 + n.

Definition tertiary (c : ascii) : Z :=
  if (65 <=? Text.code c) && (Text.code c <=? 90) then 1 else 0.

Fixpoint compare_by (weight : ascii -> Z) (a b : string) : comparison :=
  match a, b with
  | EmptyString, EmptyString => Eq
  | EmptyString, String _ _ => Lt
  | String _ _, EmptyString => Gt
  | String x a', String y b' =>
      match weight x ?= weight y with
      | Eq => compare_by weight a' b'
      | c => c
      end
  end.

Definition localeCompare (a b : string) : Z :=
  match compare_by primary a b with
  | Lt => -1
  | Gt => 1
  | Eq =>
      match compare_by tertiary a b with
      | Lt => -1
      | Gt => 1
      | Eq => 0
      end
  end.

End Collation.

(** ** Counting paths and digests *)
Module Counting.

(** The texts of [n] letters, each of them [a] or [b]. *)
Fixpoint words (n : nat) : list string :=
  match n with
  | O => [EmptyString]
  | S k => map (String "a") (words k) ++ map (String "b") (words k)
  end.


End Counting.

(** Lower-case hexadecimal rendering of bytes, to state test vectors. *)
Fixpoint hex (bs : list byte) : string :=
  match bs with
  | [] => EmptyString
  | x :: r =>
      String (JSONBig.hexdigit (Z.shiftr (Sha256.bz x) 4))
             (String (JSONBig.hexdigit (Z.land (Sha256.bz x) 15)) (hex r))
  end.

(** ** Sample requests, for the runs of the development *)
Module Samples.
Import Js.
Import Client.

Definition sample_config : Http.config :=
  {| Http.url := Some "/v0/matching-engine/quote?disable_gas_sponsorship=false";
     Http.c_headers :=
       Some [("Content-Type", "application/json");
             ("x-renegade-sdk-version", "typescript-v0.1.8");
             ("X-Renegade-Auth", "stale");
             ("x-renegade-api-key", "key")];
     Http.data := VObject [("external_order", VObject [("quote_amount", VBigInt 20000000)])] |}.

Definition other_config : Http.config :=
  {| Http.url := Some "/v0/matching-engine/quote?disable_gas_sponsorship=false";
     Http.c_headers :=
       Some [("x-renegade-api-key", "key");
             ("x-renegade-auth", "another");
             ("User-Agent", "curl");
             ("x-renegade-sdk-version", "typescript-v0.1.8")];
     Http.data := VObject [("external_order", VObject [("quote_amount", VBigInt 20000000)])] |}.


(** A request whose caller spells one header with capitals. *)
Definition mixed_case_config : Http.config :=
  {| Http.url := Some "/v0/matching-engine/quote";
     Http.c_headers :=
       Some [("Content-Type", "application/json");
             ("x-renegade-api-key", "key");
             ("X-Renegade-Sdk-Version", "typescript-v0.1.8")];
     Http.data := VObject [("external_order", VObject [("quote_amount", VBigInt 20000000)])] |}.

(** Its signed headers in lexicographic order of the names. *)
Definition mixed_case_lexicographic : Http.headers :=
  [("X-Renegade-Sdk-Version", "typescript-v0.1.8");
   ("x-renegade-api-key", "key");
   ("x-renegade-auth-expiration", "1700000010000")].



Definition sample_order : value :=
  VObject [("quote_mint", VString "0xA"); ("base_mint", VString "0xB");
           ("side", VString "Buy"); ("quote_amount", VBigInt 20000000)].

Definition sample_client : ExternalMatchClient := Client.new "key" "c2VjcmV0" "https://x".

Definition sample_quote : SignedExternalQuote :=
  {| quote := VObject [("order", sample_order);
                       ("timestamp", VBigInt 1700000000000)];
     signature := VString "0xsig";
     gas_sponsorship_info :=
       VObject [("gas_sponsorship_info", VObject [("refund_amount", VBigInt 5)]);
                ("signature", VString "0xgas")] |}.

End Samples.

(** ** Outcome of a call that may throw *)
Module Thrown.

(** A call returns a value or throws an [Error] with its message. *)
Inductive result (A : Type) : Type :=
| Return (a : A)
| Throw (message : string).

Arguments Return {A} a.
Arguments Throw {A} message.

Definition bind {A B : Type} (r : result A) (k : A -> result B) : result B :=
  match r with
  | Return a => k a
  | Throw m => Throw m
  end.

Definition returned {A : Type} (r : result A) : bool :=
  match r with Return _ => true | Throw _ => false end.

End Thrown.

(** ** JavaScript primitives of [src/utils/data]: radix 16, padding, typed arrays *)
Module Prim.

(** [n.toString(16)] of a non-negative integer, most significant digit
    first; [fuel] bounds the number of digits. *)
Fixpoint digits16 (fuel : nat) (n : Z) : string :=
  match fuel with
  | O => ""
  | S fuel' =>
      if n <? 16 then JSONBig.ch (JSONBig.hexdigit n)
      else (digits16 fuel' (n / 16) ++ JSONBig.ch (JSONBig.hexdigit (n mod 16)))%string
  end.

(** [Number.prototype.toString(16)] on an integer and
    [BigInt.prototype.toString(16)]. *)
Definition toString16 (z : Z) : string :=
  if z <? 0 then ("-" ++ digits16 (S (Z.to_nat (Z.log2 (- z)))) (- z))%string
  else digits16 (S (Z.to_nat (Z.log2 z))) z.

(** [s.slice(n)]. *)
Fixpoint slice (n : nat) (s : string) : string :=
  match n, s with
  | O, _ => s
  | S n', String _ s' => slice n' s'
  | S _, EmptyString => EmptyString
  end.

(** The first [n] characters of [fill] repeated. *)
Definition filler (n : nat) (fill : string) : string :=
  String.substring 0 n (Text.repeat_string n fill).

(** [s.padStart(target, fill)] and [s.padEnd(target, fill)]. *)
Definition padStart (target : nat) (fill s : string) : string :=
  if (String.length s <? target)%nat && Text.nonempty fill
  then (filler (target - String.length s) fill ++ s)%string
  else s.

Definition padEnd (target : nat) (fill s : string) : string :=
  if (String.length s <? target)%nat && Text.nonempty fill
  then (s ++ filler (target - String.length s) fill)%string
  else s.

(** [s.replace(pattern, "")] with a string pattern: the first occurrence
    is removed. *)
Fixpoint remove_first (pattern s : string) : string :=
  match s with
  | EmptyString => EmptyString
  | String c s' =>
      if String.prefix pattern s then slice (String.length pattern) s
      else String c (remove_first pattern s')
  end.

(** [arr[i]] on a [Uint8Array]: [undefined] outside the array. *)
Definition load (arr : list byte) (i : Z) : option byte :=
  if (0 <=? i) && (i <? Z.of_nat (List.length arr)) then nth_error arr (Z.to_nat i) else None.

Fixpoint store_nat (arr : list byte) (i : nat) (x : byte) : list byte :=
  match arr, i with
  | [], _ => []
  | _ :: r, O => x :: r
  | y :: r, S i' => y :: store_nat r i' x
  end.

(** [arr[i] = v] on a [Uint8Array]: [undefined] is stored as 0, and a
    store outside the array is ignored. *)
Definition store (arr : list byte) (i : Z) (v : option byte) : list byte :=
  if (0 <=? i) && (i <? Z.of_nat (List.length arr))
  then store_nat arr (Z.to_nat i) (match v with Some x => x | None => x00 end)
  else arr.

(** [new Uint8Array(n)]. *)
Definition zeros (n : nat) : list byte := repeat x00 n.

(** [target.set(source, offset)]: a [RangeError] ([None]) when the source
    does not fit. *)
Definition set (target source : list byte) (offset : nat) : option (list byte) :=
  if (offset + List.length source <=? List.length target)%nat
  then Some (firstn offset target ++ source ++ skipn (offset + List.length source) target)
  else None.

(** The indices [0, 1, ..., n-1] of a counting loop. *)
Definition indices (n : nat) : list Z := map Z.of_nat (seq 0 n).

End Prim.

(** ** [src/utils/data/pad]: [pad], [padHex], [padBytes] *)
Module Pad.
Import Thrown.

Inductive direction : Type := Left | Right.

(** The [size] option: absent, [null], or a number of bytes. *)
Inductive size_option : Type :=
| Unset
| Null
| Size (n : nat).

Record PadOptions : Type := {
  dir : option direction;
  size : size_option
}.

(** [{ dir, size = 32 }]: the default applies when [size] is absent. *)
Definition size_or_default (s : size_option) : option nat :=
  match s with
  | Unset => Some 32%nat
  | Null => None
  | Size n => Some n
  end.

Definition is_right (d : option direction) : bool :=
  match d with Some Right => true | _ => false end.

Definition nat_text (n : nat) : string := Text.of_Z (Z.of_nat n).

Definition padHex (hex_ : string) (o : PadOptions) : result string :=
  match size_or_default (size o) with
  | None => Return hex_
  | Some size =>
      let hex := Prim.remove_first "0x" hex_ in
      if (size * 2 <? String.length hex)%nat
      then Throw ("Hex size (" ++ nat_text size ++ ") exceeds padding size ("
                  ++ nat_text size ++ ").")%string
      else Return ("0x" ++ (if is_right (dir o) then Prim.padEnd else Prim.padStart)
                             (size * 2)%nat "0" hex)%string
  end.

Definition padBytes (bytes : list byte) (o : PadOptions) : result (list byte) :=
  match size_or_default (size o) with
  | None => Return bytes
  | Some size =>
      if (size <? List.length bytes)%nat
      then Throw ("Bytes size (" ++ nat_text (List.length bytes)
                  ++ ") exceeds padding size (" ++ nat_text size ++ ").")%string
      else
        Return
          (fold_left
             (fun paddedBytes i =>
                let padEnd := is_right (dir o) in
                Prim.store paddedBytes
                  (if padEnd then i else Z.of_nat size - i - 1)
                  (Prim.load bytes (if padEnd then i else Z.of_nat (List.length bytes) - i - 1)))
             (Prim.indices size) (Prim.zeros size))
  end.

(** [pad] dispatches on the type of its argument. *)
Definition pad (hexOrBytes : string + list byte) (o : PadOptions)
  : result (string + list byte) :=
  let o' := {| dir := dir o;
               size := match size o with Unset => Size 32 | s => s end |} in
  match hexOrBytes with
  | inl hex => bind (padHex hex o') (fun h => Return (inl h))
  | inr bytes => bind (padBytes bytes o') (fun b => Return (inr b))
  end.

End Pad.

(** ** [src/utils/data/toHex.ts] *)
Module ToHex.
Import Thrown.

Definition bytesToHex (bytes : list byte) : string :=
  ("0x" ++ Text.join ""
             (map (fun byte => Prim.padStart 2 "0" (Prim.toString16 (Base64.b byte))) bytes))%string.

(** A [number | bigint] argument.  A number is taken to be integer-valued
    ([BigInt(x)] throws on any other number before the function does
    anything). *)
Inductive numeric : Type :=
| Number (z : Z)
| BigInt (z : Z).

Definition is_bigint (v : numeric) : bool :=
  match v with BigInt _ => true | Number _ => false end.

Definition integer (v : numeric) : Z :=
  match v with Number z => z | BigInt z => z end.

(** [{ signed?, size? }]: an absent [signed] is falsy. *)
Record NumberToHexOpts : Type := {
  signed : bool;
  size : option nat
}.

Definition no_opts : NumberToHexOpts := {| signed := false; size := None |}.

Definition MAX_SAFE_INTEGER : Z := 2 ^ 53 - 1.

(** [if (size)]: zero is falsy. *)
Definition given_size (o : NumberToHexOpts) : option nat :=
  match size o with
  | Some (S n) => Some (S n)
  | _ => None
  end.

Definition maxValue (value_ : numeric) (o : NumberToHexOpts) : option Z :=
  match given_size o with
  | Some size =>
      if signed o then Some (Z.shiftl 1 (Z.of_nat size * 8 - 1) - 1)
      else Some (2 ^ (Z.of_nat size * 8) - 1)
  | None =>
      if is_bigint value_ then None else Some MAX_SAFE_INTEGER
  end.

Definition minValue (value_ : numeric) (o : NumberToHexOpts) : Z :=
  match maxValue value_ o with
  | Some m => if signed o then - m - 1 else 0
  | None => 0
  end.

Definition range_message (value_ : numeric) (o : NumberToHexOpts) : string :=
  let suffix := if is_bigint value_ then "n" else "" in
  let min := (Text.of_Z (minValue value_ o) ++ suffix)%string in
  ("Number " ++ JSONBig.ch JSONBig.dq ++ Text.of_Z (integer value_) ++ JSONBig.ch JSONBig.dq
  ++ " is not in safe "
  ++ match given_size o with
     | Some size =>
         Text.of_Z (Z.of_nat size * 8) ++ "-bit "
         ++ (if signed o then "signed" else "unsigned") ++ " "
     | None => ""
     end
  ++ "integer range "
  ++ match maxValue value_ o with
     | Some m =>
         if (m =? 0)%Z then "(above " ++ min ++ ")"
         else "(" ++ min ++ " to " ++ Text.of_Z m ++ suffix ++ ")"
     | None => "(above " ++ min ++ ")"
     end)%string.

Definition numberToHex (value_ : numeric) (o : NumberToHexOpts) : result string :=
  let value := integer value_ in
  if (match maxValue value_ o with
      | Some m => negb (m =? 0) && (m <? value)
      | None => false
      end) || (value <? minValue value_ o)
  then Throw (range_message value_ o)
  else
    let shifted :=
      if signed o && (value <? 0)
      then match size o with
           | Some size => Return (Z.shiftl 1 (Z.of_nat (size * 8)) + value)
           | None =>
               Throw "The number NaN cannot be converted to a BigInt because it is not an integer"
           end
      else Return value in
    bind shifted (fun n =>
      let hex := ("0x" ++ Prim.toString16 n)%string in
      match given_size o with
      | Some size =>
          bind (Pad.pad (inl hex) {| Pad.dir := None; Pad.size := Pad.Size size |})
               (fun p => match p with inl h => Return h | inr _ => Return hex end)
      | None => Return hex
      end).

End ToHex.

(** ** [src/utils/data/toBytes.ts] *)
Module ToBytes.
Import Thrown.

Definition zero : Z := 48.
Definition nine : Z := 57.
Definition A : Z := 65.
Definition F : Z := 70.
Definition a : Z := 97.
Definition f : Z := 102.

Definition charCodeToBase16 (char : Z) : option Z :=
  if (zero <=? char) && (char <=? nine) then Some (char - zero)
  else if (A <=? char) && (char <=? F) then Some (char - (A - 10))
  else if (a <=? char) && (char <=? f) then Some (char - (a - 10))
  else None.

Definition invalid_byte_sequence (c1 c2 : ascii) (hexString : string) : string :=
  ("Invalid byte sequence (" ++ JSONBig.ch JSONBig.dq
   ++ String c1 (String c2 (JSONBig.ch JSONBig.dq))
   ++ " in " ++ JSONBig.ch JSONBig.dq ++ hexString ++ JSONBig.ch JSONBig.dq ++ ").")%string.

(** The loop of [hexToBytes] over the pairs of characters that remain. *)
Fixpoint pairs (hexString rest : string) : result (list byte) :=
  match rest with
  | String c1 (String c2 rest') =>
      match charCodeToBase16 (Text.code c1), charCodeToBase16 (Text.code c2) with
      | Some nibbleLeft, Some nibbleRight =>
          bind (pairs hexString rest')
               (fun bytes => Return (Base64.byte_of (nibbleLeft * 16 + nibbleRight) :: bytes))
      | _, _ => Throw (invalid_byte_sequence c1 c2 hexString)
      end
  | _ => Return []
  end.

Definition hexToBytes (hex_ : string) : result (list byte) :=
  let hexString := Prim.slice 2 hex_ in
  let hexString :=
    if Nat.odd (String.length hexString) then String "0" hexString else hexString in
  pairs hexString hexString.

Definition numberToBytes (value : ToHex.numeric) (opts : option ToHex.NumberToHexOpts)
  : result (list byte) :=
  bind (ToHex.numberToHex value (match opts with Some o => o | None => ToHex.no_opts end))
       hexToBytes.

(** [concatBytes]: the second loop, writing each array at its offset. *)
Fixpoint write_all (values : list (list byte)) (offset : nat) (result : list byte)
  : option (list byte) :=
  match values with
  | [] => Some result
  | arr :: rest =>
      match Prim.set result arr offset with
      | Some result' => write_all rest (offset + List.length arr) result'
      | None => None
      end
  end.

Definition concatBytes (values : list (list byte)) : option (list byte) :=
  let length := fold_left (fun length arr => (length + List.length arr)%nat) values 0%nat in
  write_all values 0 (Prim.zeros length).

End ToBytes.

(** ** [src/utils/data/isHex.ts] *)
Module IsHex.

Definition hex_char (c : ascii) : bool :=
  let n := Text.code c in
  ((48 <=? n) && (n <=? 57)) || ((97 <=? n) && (n <=? 102)) || ((65 <=? n) && (n <=? 70)).

Fixpoint all_hex (s : string) : bool :=
  match s with
  | EmptyString => true
  | String c s' => hex_char c && all_hex s'
  end.

(** The test of [/^0x[0-9a-fA-F]*$/]. *)
Definition strict_pattern (s : string) : bool :=
  match s with
  | String "0" (String "x" digits) => all_hex digits
  | _ => false
  end.

(** [isHex(value, { strict = true })]: the option is [None] when absent. *)
Definition isHex (value : Js.value) (strict : option bool) : bool :=
  if negb (Js.truthy value) then false
  else match value with
       | Js.VString s =>
           if match strict with Some b => b | None => true end
           then strict_pattern s
           else Text.startsWith s "0x"
       | _ => false
       end.

End IsHex.

(** ** Notions used to state the facts on [src/utils/data] *)
Module DataSpec.

(** The integer a byte array denotes, most significant byte first. *)
Fixpoint be_value_from (acc : Z) (bytes : list byte) : Z :=
  match bytes with
  | [] => acc
  | x :: rest => be_value_from (acc * 256 + Base64.b x) rest
  end.

Definition be_value (bytes : list byte) : Z := be_value_from 0 bytes.

(** The integer a string of hexadecimal digits denotes. *)
Fixpoint hex_value_from (acc : Z) (digits : string) : Z :=
  match digits with
  | EmptyString => acc
  | String c rest =>
      hex_value_from
        (acc * 16 + match ToBytes.charCodeToBase16 (Text.code c) with
                    | Some v => v
                    | None => 0
                    end) rest
  end.

Definition hex_value (digits : string) : Z := hex_value_from 0 digits.

Definition hex_text (x : byte) : string :=
  String (JSONBig.hexdigit (Base64.b x / 16))
         (String (JSONBig.hexdigit (Base64.b x mod 16)) EmptyString).

(** The digits of a byte array, two for each byte. *)
Fixpoint digits_text (bytes : list byte) : string :=
  match bytes with
  | [] => EmptyString
  | x :: rest => (hex_text x ++ digits_text rest)%string
  end.

Definition zero_digits (n : nat) : string := Text.repeat_string n "0".

(** The values [numberToHex] accepts for a size of [n] bytes. *)
Definition in_range (signed : bool) (n : nat) (z : Z) : bool :=
  if signed
  then (- 2 ^ (8 * Z.of_nat n - 1) <=? z) && (z <? 2 ^ (8 * Z.of_nat n - 1))
  else (0 <=? z) && (z <? 2 ^ (8 * Z.of_nat n)).

Definition left_options (n : nat) : Pad.PadOptions :=
  {| Pad.dir := None; Pad.size := Pad.Size n |}.

Definition right_options (n : nat) : Pad.PadOptions :=
  {| Pad.dir := Some Pad.Right; Pad.size := Pad.Size n |}.

End DataSpec.

(** ** Notions used to state the round trip of the codec *)
Module CodecSpec.
Import Js.

(** An integer that is finite as a double. *)
Definition finite (z : Z) : bool := Z.abs z <? 2 ^ 1024 - 2 ^ 970.

(** A key the decoder does not refuse. *)
Definition allowed_key (k : string) : bool :=
  negb (JSONBig.suspect "__proto__" k) && negb (JSONBig.suspect "constructor" k).

Fixpoint distinct (l : list string) : bool :=
  match l with
  | [] => true
  | k :: r => negb (existsb (String.eqb k) r) && distinct r
  end.

(** The values that travel unchanged: no [undefined] anywhere, integers
    finite as doubles, and in every object distinct keys, in the order
    of the properties of an object, that the decoder allows. *)
Fixpoint portable (v : value) : bool :=
  match v with
  | VUndefined => false
  | VNull | VBool _ | VString _ => true
  | VBigInt z => finite z
  | VArray items => forallb portable items
  | VObject fields =>
      distinct (map fst fields) && property_order (map fst fields)
      && forallb allowed_key (map fst fields)
      && (fix all (l : list (string * value)) : bool :=
            match l with
            | [] => true
            | (_, x) :: r => portable x && all r
            end) fields
  end.

(** A value as it reaches the wire: a field that is [undefined] is left
    out, an item that is [undefined] becomes [null]. *)
Fixpoint wire (v : value) : value :=
  match v with
  | VArray items =>
      VArray (map (fun x => match x with VUndefined => VNull | _ => wire x end) items)
  | VObject fields =>
      VObject ((fix go (l : list (string * value)) : list (string * value) :=
                  match l with
                  | [] => []
                  | (k, x) :: r =>
                      match x with
                      | VUndefined => go r
                      | _ => (k, wire x) :: go r
                      end
                  end) fields)
  | _ => v
  end.

(** Checks by enumeration on the escaped characters beyond ASCII: the
    code unit is below [2^16] and no low surrogate, and its bytes are the
    bytes escaped. *)
Definition escaped2_checked (a b : ascii) : bool :=
  implb (JSONBig.escaped2 a b)
        ((0 <=? JSONBig.unit2 a b) && (JSONBig.unit2 a b <? 65536)
         && negb (JSONBig.low_surrogate (JSONBig.unit2 a b))
         && String.eqb (JSONBig.fromCharCode (JSONBig.unit2 a b))
                       (String a (String b EmptyString))).

Definition escaped3_check (a b c : ascii) : bool :=
  implb (JSONBig.escaped3 a b c)
        ((0 <=? JSONBig.unit3 a b c) && (JSONBig.unit3 a b c <? 65536)
         && negb (JSONBig.low_surrogate (JSONBig.unit3 a b c))
         && String.eqb (JSONBig.fromCharCode (JSONBig.unit3 a b c))
                       (String a (String b (String c EmptyString)))).

Definition escaped3_checked (a b : ascii) : bool :=
  if JSONBig.lead3 a && JSONBig.continuation b
  then forallb (fun z => escaped3_check a b (ascii_of_byte z)) Base64Checks.all_bytes
  else true.

(** U+2028, which the encoder escapes, and U+1F600, which the decoder
    reads from a pair of escapes. *)
Definition line_separator : string :=
  String (Text.chr 226) (String (Text.chr 128) (String (Text.chr 168) EmptyString)).

Definition grinning_face : string :=
  String (Text.chr 240) (String (Text.chr 159) (String (Text.chr 152)
    (String (Text.chr 128) EmptyString))).

(** The text of a value that is not [undefined]. *)
Definition text_of (v : value) : string :=
  match JSONBig.str v with Some t => t | None => "null" end.

Definition member_text (kv : string * value) : string :=
  (JSONBig.quote (fst kv) ++ ":" ++ text_of (snd kv))%string.

(** What may follow a value in a text: nothing, a comma, or a closing
    bracket. *)
Definition closes (rest : string) : Prop :=
  match rest with
  | EmptyString => True
  | String c _ => c = ","%char \/ c = "]"%char \/ c = "}"%char
  end.

(** The first character of the text of a value is not white space and
    closes nothing. *)
Definition opens (t : string) : Prop :=
  match t with
  | EmptyString => False
  | String c _ =>
      (Text.code c <=? 32) = false /\ JSONBig.is_code c 93 = false
      /\ JSONBig.is_code c 125 = false
  end.

(** The decoder reads the text of [v], whatever follows that cannot
    continue a number, with any fuel above the length of the text, and
    gives [v] back. *)
Definition decodes (v : value) : Prop :=
  forall fuel rest,
    (String.length (text_of v) < fuel)%nat -> Spec.ends_number rest ->
    JSONBig.value_ fuel (text_of v ++ rest) = JSONBig.Ok (v, rest).

End CodecSpec.

(** ** Notions used to state the facts on the client *)
Module ClientSpec.
Import Js.

(** [o.k] on the fields of an object: [undefined] when there is no such
    field. *)
Definition field (k : string) (fields : list (string * value)) : value :=
  match lookup k fields with
  | Some x => x
  | None => VUndefined
  end.

(** The characters the form-urlencoded serializer lets through or
    produces: letters, digits, [*], [-], [.], [_], and [+] and [%]. *)
Definition unreserved (c : ascii) : bool :=
  let n := Text.code c in
  ((48 <=? n) && (n <=? 57)) || ((65 <=? n) && (n <=? 90)) || ((97 <=? n) && (n <=? 122))
  || (n =? 42) || (n =? 45) || (n =? 46) || (n =? 95) || (n =? 43) || (n =? 37).

Fixpoint all_chars (p : ascii -> bool) (s : string) : bool :=
  match s with
  | EmptyString => true
  | String c r => p c && all_chars p r
  end.

(** The names of the headers the client signs. *)
Definition signed_names : list string :=
  [Client.RENEGADE_API_KEY_HEADER; Client.RENEGADE_SDK_VERSION_HEADER;
   Http.RENEGADE_AUTH_EXPIRATION_HEADER].

(** The text the client signs for a path and a body. *)
Definition canonical_text (this : Client.ExternalMatchClient) (now : Z) (path body : string)
  : string :=
  (path
   ++ Client.RENEGADE_API_KEY_HEADER ++ Client.apiKey this
   ++ Http.RENEGADE_AUTH_EXPIRATION_HEADER ++ Text.of_Z (now + 10000)
   ++ Client.RENEGADE_SDK_VERSION_HEADER ++ Client.getSdkVersion
   ++ body)%string.

(** The base64 digits of the standard alphabet: the letters, the digits,
    [+] and [/]. *)
Definition base64_digit (c : ascii) : bool :=
  let n := Text.code c in
  ((65 <=? n) && (n <=? 90)) || ((97 <=? n) && (n <=? 122)) || ((48 <=? n) && (n <=? 57))
  || (n =? 43) || (n =? 47).

(** The sextet a character stands for is below 64. *)
Definition sextet_in_range (c : ascii) : bool :=
  match Base64.sextet_of c with
  | Some v => (0 <=? v) && (v <? 64)
  | None => true
  end.

Definition all_sextets : list Z := map Z.of_nat (seq 0 64).

(** A reply that starts with a byte order mark. *)
Definition marked_reply_body : string :=
  String (Text.chr 239) (String (Text.chr 187) (String (Text.chr 191)
    ("{" ++ JSONBig.quote "ok" ++ ":true}"))).

(** A reply to a quote request, as a server may print it, with a price
    beyond the safe range. *)
Definition quote_reply_body : string :=
  String.concat (JSONBig.ch JSONBig.dq)
    ["{ "; "signed_quote"; ": { "; "quote"; ": { "; "price";
     ": 1180591620717411303424 }, "; "signature"; ": "; "0xsig"; " } }"].

Definition quote_reply_fields : list (string * value) :=
  [("signed_quote",
    VObject [("quote", VObject [("price", VBigInt (2 ^ 70))]);
             ("signature", VString "0xsig")])].

Definition quote_reply_server (w : Http.outbound_request) : Http.reply :=
  Http.Response 200 quote_reply_body.

End ClientSpec.

(** ** The grammar of JSON (RFC 8259), to say which texts are valid

    A recognizer for the grammar of the RFC, on the bytes of a text; each
    function returns what follows the phrase it has recognized. *)
Module Rfc8259.

(** ws = *( space / horizontal tab / line feed / carriage return ) *)
Definition ws_char (c : ascii) : bool :=
  let n := Text.code c in
  (n =? 32) || (n =? 9) || (n =? 10) || (n =? 13).

Fixpoint ws (s : string) : string :=
  match s with
  | String c r => if ws_char c then ws r else s
  | EmptyString => EmptyString
  end.

(** *DIGIT *)
Fixpoint digits (s : string) : string :=
  match s with
  | String c r => if Text.is_digit c then digits r else s
  | EmptyString => EmptyString
  end.

(** 1*DIGIT *)
Definition digits1 (s : string) : option string :=
  match s with
  | String c r => if Text.is_digit c then Some (digits r) else None
  | EmptyString => None
  end.

(** int = zero / ( digit1-9 *DIGIT ) *)
Definition int (s : string) : option string :=
  match s with
  | String c r =>
      if Text.code c =? 48 then Some r
      else if Text.is_digit c then Some (digits r)
      else None
  | EmptyString => None
  end.

(** [ frac ], with frac = decimal-point 1*DIGIT *)
Definition frac (s : string) : option string :=
  match s with
  | String c r => if Text.code c =? 46 then digits1 r else Some s
  | EmptyString => Some s
  end.

(** [ exp ], with exp = e [ minus / plus ] 1*DIGIT *)
Definition exp (s : string) : option string :=
  match s with
  | String c r =>
      if (Text.code c =? 101) || (Text.code c =? 69) then
        match r with
        | String c' r' =>
            if (Text.code c' =? 45) || (Text.code c' =? 43) then digits1 r' else digits1 r
        | EmptyString => None
        end
      else Some s
  | EmptyString => Some s
  end.

Definition and_then (o : option string) (f : string -> option string) : option string :=
  match o with
  | Some r => f r
  | None => None
  end.

(** number = [ minus ] int [ frac ] [ exp ] *)
Definition number (s : string) : option string :=
  let s1 :=
    match s with
    | String c r => if Text.code c =? 45 then r else s
    | EmptyString => s
    end in
  and_then (int s1) (fun s2 => and_then (frac s2) exp).

Definition hex_digit (c : ascii) : bool :=
  match JSONBig.hexval c with
  | Some _ => true
  | None => false
  end.

(** The characters that may follow the backslash of a two-character
    escape: the quotation mark, the backslash, the solidus, b, f, n, r
    and t. *)
Definition simple_escape (c : ascii) : bool :=
  let n := Text.code c in
  (n =? 34) || (n =? 92) || (n =? 47) || (n =? 98) || (n =? 102) || (n =? 110)
  || (n =? 114) || (n =? 116).

(** *char quotation-mark: a string after its opening quotation mark.  A
    char is an escape or any character other than the quotation mark, the
    backslash and the control characters. *)
Fixpoint chars (s : string) : option string :=
  match s with
  | EmptyString => None
  | String c r =>
      if Text.code c =? 34 then Some r
      else if Text.code c =? 92 then
        match r with
        | String e r1 =>
            if simple_escape e then chars r1
            else if Text.code e =? 117 then
              match r1 with
              | String h1 (String h2 (String h3 (String h4 r2))) =>
                  if hex_digit h1 && hex_digit h2 && hex_digit h3 && hex_digit h4
                  then chars r2
                  else None
              | _ => None
              end
            else None
        | EmptyString => None
        end
      else if Text.code c <? 32 then None
      else chars r
  end.

(** false, null, true *)
Fixpoint literal (w s : string) : option string :=
  match w, s with
  | EmptyString, _ => Some s
  | String a w', String c s' => if Ascii.eqb a c then literal w' s' else None
  | _, EmptyString => None
  end.

(** value = false / null / true / object / array / number / string, with
    object = begin-object [ member *( value-separator member ) ] end-object,
    member = string name-separator value, and
    array = begin-array [ value *( value-separator value ) ] end-array;
    [fuel] bounds the depth of the calls. *)
Fixpoint value (fuel : nat) (s : string) : option string :=
  match fuel with
  | O => None
  | S f =>
      match s with
      | EmptyString => None
      | String c r =>
          if Text.code c =? 123 then
            match ws r with
            | String c' r' as r1 => if Text.code c' =? 125 then Some r' else members f r1
            | EmptyString => None
            end
          else if Text.code c =? 91 then
            match ws r with
            | String c' r' as r1 => if Text.code c' =? 93 then Some r' else elements f r1
            | EmptyString => None
            end
          else if Text.code c =? 34 then chars r
          else if Text.code c =? 116 then literal "true" s
          else if Text.code c =? 102 then literal "false" s
          else if Text.code c =? 110 then literal "null" s
          else number s
      end
  end

with elements (fuel : nat) (s : string) : option string :=
  match fuel with
  | O => None
  | S f =>
      match value f s with
      | None => None
      | Some r =>
          match ws r with
          | String c r' =>
              if Text.code c =? 93 then Some r'
              else if Text.code c =? 44 then elements f (ws r')
              else None
          | EmptyString => None
          end
      end
  end

with members (fuel : nat) (s : string) : option string :=
  match fuel with
  | O => None
  | S f =>
      match s with
      | EmptyString => None
      | String c r =>
          if Text.code c =? 34 then
            match chars r with
            | None => None
            | Some r1 =>
                match ws r1 with
                | EmptyString => None
                | String c1 r2 =>
                    if Text.code c1 =? 58 then
                      match value f (ws r2) with
                      | None => None
                      | Some r3 =>
                          match ws r3 with
                          | String c3 r4 =>
                              if Text.code c3 =? 125 then Some r4
                              else if Text.code c3 =? 44 then members f (ws r4)
                              else None
                          | EmptyString => None
                          end
                      end
                    else None
                end
            end
          else None
      end
  end.

(** JSON-text = ws value ws *)
Definition valid (s : string) : bool :=
  match value (S (2 * String.length s)) (ws s) with
  | Some r => match ws r with EmptyString => true | _ => false end
  | None => false
  end.

End Rfc8259.

Module PassSpec.
Import Js.






(** Some texts, with the quotation mark written [q]. *)
Definition q : string := JSONBig.ch JSONBig.dq.

Definition valid_samples : list string :=
  ["0"; "-0.5e+10"; " [ ] "; "{}"; "true"; "null";
   q ++ "a\né" ++ q;
   "{" ++ q ++ "a" ++ q ++ ": [1, 2.5E3, false, {" ++ q ++ q ++ ":null}]}"]%string.

Definition invalid_samples : list string :=
  [""; "00012"; "1."; "[01]"; "-"; ".5"; "+1"; "1e"; "[1,]"; "{,}"; "tru"; "nul";
   "{a:1}"; q ++ "a"; q ++ "\x" ++ q; "[1] 2"; "NaN"; "0x10"]%string.


End PassSpec.

(* ================================================================== *)
(** * Part II: lemmas and theorems *)
(* ================================================================== *)

(** ** Test vectors of the primitives *)

Example sha256_abc :
  hex (Sha256.sha256 (Text.utf8 "abc"))
  = "ba7816bf8f01cfea414140de5dae2223b00361a396177a9cb410ff61f20015ad".
Proof. vm_compute. reflexivity. Qed.

Example sha256_two_blocks :
  hex (Sha256.sha256 (Text.utf8 "abcdbcdecdefdefgefghfghighijhijkijkljklmklmnlmnomnopnopq"))
  = "248d6a61d20638b8e5c026930c3e6039a33ce45964ff2167f6ecedd419db06c1".
Proof. vm_compute. reflexivity. Qed.

Example hmac_rfc4231_case2 :
  hex (Hmac.hmac_sha256 (Text.utf8 "Jefe") (Text.utf8 "what do ya want for nothing?"))
  = "5bdcc146bf60754e6a042426089575c75a003f089d2739839dec58b964ec3843".
Proof. vm_compute. reflexivity. Qed.

Example hmac_rfc4231_case6 :
  hex (Hmac.hmac_sha256 (repeat xaa 131)
         (Text.utf8 "Test Using Larger Than Block-Size Key - Hash Key First"))
  = "60e431591ee0b67f0d8a26aacbf5b77f8e0bc6213728c5140546040f0ee37f54".
Proof. vm_compute. reflexivity. Qed.

Example base64_vectors :
  Base64.encode (Text.utf8 "any carnal pleas") = "YW55IGNhcm5hbCBwbGVhcw=="
  /\ Base64.encode (Text.utf8 "any carnal pleasu") = "YW55IGNhcm5hbCBwbGVhc3U="
  /\ Base64.encode (Text.utf8 "any carnal pleasur") = "YW55IGNhcm5hbCBwbGVhc3Vy"
  /\ Http.encodeBase64 (Text.utf8 "any carnal pleas") = "YW55IGNhcm5hbCBwbGVhcw"
  /\ Http.decodeBase64 "YW55IGNhcm5hbCBwbGVhc3U" = Text.utf8 "any carnal pleasu".
Proof. vm_compute. repeat split. Qed.

Example bigint_literals :
  JSONBig.parse "9007199254740993" = JSONBig.Ok (Js.VBigInt 9007199254740993)
  /\ JSONBig.parse "[1, true,null , {}, -0, 1e3, 00012]"
     = JSONBig.Ok (Js.VArray [Js.VBigInt 1; Js.VBool true; Js.VNull; Js.VObject [];
                              Js.VBigInt 0; Js.VBigInt 1000; Js.VBigInt 12])
  /\ JSONBig.parse "1e400" = JSONBig.Err "Bad number"
  /\ JSONBig.parse "[1,]" = JSONBig.Err "Unexpected ']'".
Proof. vm_compute. repeat split. Qed.

(** ** The lexicographic order on names *)
Module OrderFacts.
Import Spec.

Lemma ascii_compare_refl (a : ascii) : Ascii.compare a a = Eq.
Proof. unfold Ascii.compare. apply N.compare_refl. Qed.

Lemma ascii_compare_trans (a b c : ascii) :
  Ascii.compare a b = Lt -> Ascii.compare b c = Lt -> Ascii.compare a c = Lt.
Proof.
  unfold Ascii.compare. rewrite !N.compare_lt_iff. apply N.lt_trans.
Qed.

Lemma compare_lt_trans (a : string) :
  forall b c, String.compare a b = Lt -> String.compare b c = Lt -> String.compare a c = Lt.
Proof.
  induction a as [|x a IH]; intros [|y b] [|z c]; simpl; try congruence.
  destruct (Ascii.compare x y) eqn:Exy; try congruence;
    destruct (Ascii.compare y z) eqn:Eyz; try congruence.
  - apply Ascii.compare_eq_iff in Exy, Eyz. subst.
    rewrite ascii_compare_refl. apply IH.
  - apply Ascii.compare_eq_iff in Exy. subst. rewrite Eyz. reflexivity.
  - apply Ascii.compare_eq_iff in Eyz. subst. rewrite Exy. reflexivity.
  - rewrite (ascii_compare_trans _ _ _ Exy Eyz). reflexivity.
Qed.

Lemma compare_refl (a : string) : String.compare a a = Eq.
Proof.
  induction a as [|x a IH]; simpl; [reflexivity|].
  rewrite ascii_compare_refl. exact IH.
Qed.

Lemma lex_le_cases (a b : string) :
  lex_le a b <-> String.compare a b = Lt \/ a = b.
Proof.
  unfold lex_le, String.leb. split.
  - destruct (String.compare a b) eqn:E; intro H.
    + right. apply String.compare_eq_iff. exact E.
    + left. reflexivity.
    + discriminate.
  - intros [H | H].
    + rewrite H. reflexivity.
    + subst. rewrite compare_refl. reflexivity.
Qed.

Lemma lex_le_refl (a : string) : lex_le a a.
Proof. apply lex_le_cases. right. reflexivity. Qed.

Lemma lex_le_trans (a b c : string) : lex_le a b -> lex_le b c -> lex_le a c.
Proof.
  rewrite !lex_le_cases. intros [H1 | ->] [H2 | ->]; auto.
  left. eapply compare_lt_trans; eauto.
Qed.

Lemma lex_le_total (a b : string) : lex_le a b \/ lex_le b a.
Proof. apply String.leb_total. Qed.

Lemma lex_le_antisym (a b : string) : lex_le a b -> lex_le b a -> a = b.
Proof. apply String.leb_antisym. Qed.

Lemma ordinalCompare_lex (a b : string) : ordinalCompare a b <= 0 <-> lex_le a b.
Proof.
  unfold ordinalCompare, lex_le, String.leb.
  destruct (String.compare a b); split; intro H; try lia; try reflexivity; discriminate.
Qed.

Lemma ordinalCompare_on (l : list string) : lexicographic_on ordinalCompare l.
Proof. intros a b _ _. apply ordinalCompare_lex. Qed.

Lemma lexicographic_total_order (cmp : string -> string -> Z) (l : list string) :
  lexicographic_on cmp l -> total_order_on cmp l.
Proof.
  intro H. repeat split.
  - intros a b Ha Hb. destruct (lex_le_total a b) as [Hab | Hba].
    + left. apply (H a b Ha Hb), Hab.
    + right. apply (H b a Hb Ha), Hba.
  - intros a b Ha Hb Hab Hba. apply lex_le_antisym.
    + apply (H a b Ha Hb), Hab.
    + apply (H b a Hb Ha), Hba.
  - intros a b c Ha Hb Hc Hab Hbc. apply (H a c Ha Hc).
    eapply lex_le_trans; [apply (H a b Ha Hb), Hab | apply (H b c Hb Hc), Hbc].
Qed.

Lemma ordinalCompare_total_order (l : list string) : total_order_on ordinalCompare l.
Proof. apply lexicographic_total_order, ordinalCompare_on. Qed.

End OrderFacts.

(** ** The stable sort of the signer *)
Module SortFacts.
Import Spec OrderFacts.

Lemma same_name_same_header (l : Http.headers) (x y : string * string) :
  NoDup (names l) -> In x l -> In y l -> fst x = fst y -> x = y.
Proof.
  induction l as [|z r IH]; simpl; intros Hnd Hx Hy E; [contradiction|].
  inversion Hnd as [|? ? Hnot Hnd']; subst.
  destruct Hx as [-> | Hx], Hy as [-> | Hy].
  - reflexivity.
  - exfalso. apply Hnot. rewrite E. apply in_map, Hy.
  - exfalso. apply Hnot. rewrite <- E. apply in_map, Hx.
  - apply IH; assumption.
Qed.

Section Sorting.

Variable cmp : string -> string -> Z.

Lemma insert_perm (x : string * string) (l : Http.headers) :
  Permutation (Http.insert cmp x l) (x :: l).
Proof.
  induction l as [|y r IH]; simpl.
  - apply Permutation_refl.
  - destruct (cmp (fst x) (fst y) <=? 0).
    + apply Permutation_refl.
    + eapply perm_trans; [apply perm_skip, IH | apply perm_swap].
Qed.

Lemma sort_perm (l : Http.headers) : Permutation (Http.sort cmp l) l.
Proof.
  induction l as [|x r IH]; simpl.
  - apply perm_nil.
  - eapply perm_trans; [apply insert_perm | apply perm_skip, IH].
Qed.

Lemma sort_names_incl (l : Http.headers) (a : string) :
  In a (names (Http.sort cmp l)) -> In a (names l).
Proof.
  unfold names. intro H.
  eapply Permutation_in; [apply Permutation_map, sort_perm | exact H].
Qed.

Lemma total_order_incl (l l' : list string) :
  (forall a, In a l' -> In a l) -> total_order_on cmp l -> total_order_on cmp l'.
Proof.
  intros Hin [Ht [Ha Htr]]. repeat split.
  - intros a b Ha' Hb'. apply Ht; auto.
  - intros a b Ha' Hb'. apply Ha; auto.
  - intros a b c Ha' Hb' Hc'. apply Htr; auto.
Qed.

Lemma insert_sorted (x : string * string) (l : Http.headers) :
  total_order_on cmp (names (x :: l)) ->
  StronglySorted (by_comparator cmp) l ->
  StronglySorted (by_comparator cmp) (Http.insert cmp x l).
Proof.
  intros Hcmp Hs. induction Hs as [|y r Hr IH Hy]; simpl.
  - constructor; [constructor | constructor].
  - destruct Hcmp as [Htot [Hanti Htrans]].
    assert (Hx : In (fst x) (names (x :: y :: r))) by (left; reflexivity).
    assert (Hyn : In (fst y) (names (x :: y :: r))) by (right; left; reflexivity).
    rewrite Forall_forall in Hy.
    destruct (cmp (fst x) (fst y) <=? 0) eqn:E.
    + apply Z.leb_le in E.
      constructor; [constructor; [assumption | apply Forall_forall, Hy]|].
      constructor; [exact E|].
      apply Forall_forall. intros z Hz. unfold by_comparator.
      apply (Htrans (fst x) (fst y) (fst z)); auto.
      * right. right. apply in_map, Hz.
      * apply Hy, Hz.
    + apply Z.leb_gt in E.
      assert (Hyx : cmp (fst y) (fst x) <= 0).
      { destruct (Htot _ _ Hx Hyn) as [H | H]; [lia | exact H]. }
      constructor.
      * apply IH. apply (total_order_incl (names (x :: y :: r))).
        -- simpl. intros a Ha. tauto.
        -- repeat split; assumption.
      * apply Forall_forall. intros z Hz.
        apply (Permutation_in _ (insert_perm x r)) in Hz.
        destruct Hz as [<- | Hz]; [exact Hyx|]. apply Hy, Hz.
Qed.

Lemma sort_sorted (l : Http.headers) :
  total_order_on cmp (names l) -> StronglySorted (by_comparator cmp) (Http.sort cmp l).
Proof.
  induction l as [|x r IH]; intro Hcmp; simpl.
  - constructor.
  - apply insert_sorted.
    + apply (total_order_incl (names (x :: r))); [|exact Hcmp].
      intros a [Ha | Ha]; [left; exact Ha | right; apply sort_names_incl, Ha].
    + apply IH. apply (total_order_incl (names (x :: r))); [|exact Hcmp].
      intros a Ha. right. exact Ha.
Qed.

(** A header object has one arrangement in the order of the comparator. *)
Lemma sorted_unique (l1 : Http.headers) :
  forall l2, Permutation l1 l2 -> NoDup (names l1) ->
             total_order_on cmp (names l1) ->
             StronglySorted (by_comparator cmp) l1 ->
             StronglySorted (by_comparator cmp) l2 -> l1 = l2.
Proof.
  induction l1 as [|x r1 IH]; intros l2 Hp Hnd Hcmp H1 H2.
  - apply Permutation_nil in Hp. subst. reflexivity.
  - destruct l2 as [|y r2].
    + apply Permutation_sym, Permutation_nil in Hp. discriminate.
    + inversion H1 as [|? ? Hr1 Hx]; subst. inversion H2 as [|? ? Hr2 Hy]; subst.
      rewrite Forall_forall in Hx, Hy.
      assert (Hyin : In y (x :: r1)).
      { eapply Permutation_in; [apply Permutation_sym, Hp | left; reflexivity]. }
      assert (Hxin : In x (y :: r2)).
      { eapply Permutation_in; [apply Hp | left; reflexivity]. }
      assert (Hrefl : forall z, In z (x :: r1) -> cmp (fst z) (fst z) <= 0).
      { intros z Hz. destruct Hcmp as [Htot _].
        destruct (Htot (fst z) (fst z)) as [H | H]; try exact H; apply in_map, Hz. }
      assert (Exy : x = y).
      { apply (same_name_same_header (x :: r1)); auto; [left; reflexivity|].
        destruct Hcmp as [_ [Hanti _]]. apply Hanti.
        - left. reflexivity.
        - apply in_map, Hyin.
        - destruct Hyin as [<- | Hyin]; [apply Hrefl; left; reflexivity | apply Hx, Hyin].
        - destruct Hxin as [<- | Hxin]; [apply Hrefl; exact Hyin | apply Hy, Hxin]. }
      subst y. f_equal. apply IH; auto.
      * eapply Permutation_cons_inv. exact Hp.
      * simpl in Hnd. inversion Hnd. assumption.
      * apply (total_order_incl (names (x :: r1))); [|exact Hcmp].
        intros a Ha. right. exact Ha.
Qed.

(** The sorted headers do not depend on the order of the header object. *)
Lemma sort_order_independent (l1 l2 : Http.headers) :
  Permutation l1 l2 -> NoDup (names l1) -> total_order_on cmp (names l1) ->
  Http.sort cmp l1 = Http.sort cmp l2.
Proof.
  intros Hp Hnd Hcmp.
  assert (Hcmp2 : total_order_on cmp (names l2)).
  { apply (total_order_incl (names l1)); [|exact Hcmp].
    intros a Ha.
    eapply Permutation_in; [apply Permutation_map, Permutation_sym, Hp | exact Ha]. }
  apply sorted_unique.
  - eapply perm_trans; [apply sort_perm|].
    eapply perm_trans; [exact Hp | apply Permutation_sym, sort_perm].
  - eapply Permutation_NoDup; [|exact Hnd].
    apply Permutation_map, Permutation_sym, sort_perm.
  - apply (total_order_incl (names l1)); [|exact Hcmp].
    intros a Ha. apply sort_names_incl, Ha.
  - apply sort_sorted, Hcmp.
  - apply sort_sorted, Hcmp2.
Qed.

(** Under a comparator that orders the names lexicographically, the
    sorted headers are in lexicographic order of their names. *)
Lemma sort_lexicographic (l : Http.headers) :
  lexicographic_on cmp (names l) -> StronglySorted by_name (Http.sort cmp l).
Proof.
  intro Hlex.
  assert (Hs : StronglySorted (by_comparator cmp) (Http.sort cmp l)).
  { apply sort_sorted, lexicographic_total_order, Hlex. }
  assert (Hin : forall z, In z (Http.sort cmp l) -> In (fst z) (names l)).
  { intros z Hz. apply sort_names_incl. apply in_map, Hz. }
  induction Hs as [|y r Hr IH Hy]; constructor.
  - apply IH. intros z Hz. apply Hin. right. exact Hz.
  - rewrite Forall_forall in *. intros z Hz. unfold by_name.
    apply (Hlex (fst y) (fst z)).
    + apply Hin. left. reflexivity.
    + apply Hin. right. exact Hz.
    + apply Hy, Hz.
Qed.

End Sorting.

End SortFacts.

(** ** Header objects *)
Module HeaderFacts.
Import Js Spec.

Lemma lookup_set_same {A : Type} (k : string) (v : A) (h : list (string * A)) :
  lookup k (set k v h) = Some v.
Proof.
  induction h as [|[k' v'] r IH]; simpl.
  - rewrite String.eqb_refl. reflexivity.
  - destruct (String.eqb k' k) eqn:E; simpl; rewrite E; [reflexivity | exact IH].
Qed.

Lemma lookup_set_other {A : Type} (k k0 : string) (v : A) (h : list (string * A)) :
  k0 <> k -> lookup k0 (set k v h) = lookup k0 h.
Proof.
  intro Hne. induction h as [|[k' v'] r IH]; simpl.
  - destruct (String.eqb k k0) eqn:E; [|reflexivity].
    apply String.eqb_eq in E. congruence.
  - destruct (String.eqb k' k) eqn:E; simpl.
    + apply String.eqb_eq in E. subst k'.
      destruct (String.eqb k k0) eqn:E'; [|reflexivity].
      apply String.eqb_eq in E'. congruence.
    + rewrite IH. reflexivity.
Qed.

Lemma names_set_in (k v : string) (h : Http.headers) :
  In k (names h) -> names (set k v h) = names h.
Proof.
  induction h as [|[k' v'] r IH]; simpl; [contradiction|].
  intros [-> | Hin].
  - rewrite String.eqb_refl. reflexivity.
  - destruct (String.eqb k' k) eqn:E; simpl; [reflexivity|].
    f_equal. apply IH, Hin.
Qed.

Lemma names_set_new (k v : string) (h : Http.headers) :
  ~ In k (names h) -> names (set k v h) = names h ++ [k].
Proof.
  induction h as [|[k' v'] r IH]; simpl; intro Hn; [reflexivity|].
  destruct (String.eqb k' k) eqn:E.
  - apply String.eqb_eq in E. exfalso. apply Hn. left. exact E.
  - simpl. f_equal. apply IH. tauto.
Qed.


Lemma in_names_set_inv (k v a : string) (h : Http.headers) :
  In a (names (set k v h)) -> a = k \/ In a (names h).
Proof.
  destruct (in_dec string_dec k (names h)) as [Hin | Hn].
  - rewrite names_set_in by assumption. tauto.
  - rewrite names_set_new by assumption. intro H. apply in_app_or in H.
    destruct H as [H | [H | []]]; auto.
Qed.

Lemma NoDup_set (k v : string) (h : Http.headers) :
  NoDup (names h) -> NoDup (names (set k v h)).
Proof.
  intro Hnd. destruct (in_dec string_dec k (names h)) as [Hin | Hn].
  - rewrite names_set_in; assumption.
  - rewrite names_set_new by assumption.
    apply NoDup_app; [exact Hnd | repeat constructor; simpl; tauto |].
    intros a Ha [<- | []]. exact (Hn Ha).
Qed.


Lemma filter_filter {A : Type} (f g : A -> bool) (l : list A) :
  filter f (filter g l) = filter (fun x => g x && f x) l.
Proof.
  induction l as [|x r IH]; simpl; [reflexivity|].
  destruct (g x); simpl; [destruct (f x)|]; rewrite ?IH; reflexivity.
Qed.

(** Setting a header that a name-based filter drops leaves the filtered
    headers as they were. *)
Lemma filter_set_dropped (p : string -> bool) (k v : string) (h : Http.headers) :
  p k = false ->
  filter (fun kv => p (fst kv)) (set k v h) = filter (fun kv => p (fst kv)) h.
Proof.
  intro Hp. induction h as [|[k' v'] r IH]; simpl.
  - rewrite Hp. reflexivity.
  - destruct (String.eqb k' k) eqn:E; simpl.
    + apply String.eqb_eq in E. subst k'. rewrite Hp. reflexivity.
    + rewrite IH. reflexivity.
Qed.

Lemma included_by_name (h : Http.headers) :
  filter included h = filter (fun kv => included_name (fst kv)) h.
Proof. apply filter_ext. intros [k v]. reflexivity. Qed.

Lemma filters_of_signer (h : Http.headers) :
  filter Http.not_auth (filter Http.in_namespace h) = filter included h.
Proof.
  rewrite filter_filter. apply filter_ext. intros [k v]. reflexivity.
Qed.

Lemma signed_headers_spec (cmp : string -> string -> Z) (h : Http.headers) :
  Http.signed_headers cmp h = Http.sort cmp (filter included h).
Proof. unfold Http.signed_headers. rewrite filters_of_signer. reflexivity. Qed.

Lemma included_set_auth (v : string) (h : Http.headers) :
  filter included (set Http.RENEGADE_AUTH_HEADER v h) = filter included h.
Proof.
  rewrite !included_by_name. apply filter_set_dropped. reflexivity.
Qed.

Lemma included_remove_auth (h : Http.headers) :
  filter included (remove_name Http.RENEGADE_AUTH_HEADER h) = filter included h.
Proof.
  unfold remove_name. rewrite filter_filter. apply filter_ext. intros [k v]. simpl.
  destruct (String.eqb k Http.RENEGADE_AUTH_HEADER) eqn:E; simpl; [|reflexivity].
  apply String.eqb_eq in E. subst k. reflexivity.
Qed.

Lemma lookup_In (l : Http.headers) (k v : string) :
  NoDup (names l) -> (In (k, v) l <-> lookup k l = Some v).
Proof.
  induction l as [|[k' v'] r IH]; simpl; intro Hnd.
  - split; [contradiction | discriminate].
  - inversion Hnd as [|? ? Hnot Hnd']; subst.
    destruct (String.eqb k' k) eqn:E.
    + apply String.eqb_eq in E. subst k'. split.
      * intros [H | H]; [congruence|].
        exfalso. apply Hnot. change k with (fst (k, v)). apply in_map, H.
      * intros [= ->]. left. reflexivity.
    + apply String.eqb_neq in E. rewrite <- (IH Hnd'). split.
      * intros [[= -> ->] | H]; [congruence | exact H].
      * intro H. right. exact H.
Qed.

Lemma NoDup_names_filter (p : string * string -> bool) (l : Http.headers) :
  NoDup (names l) -> NoDup (names (filter p l)).
Proof.
  induction l as [|x r IH]; simpl; intro Hnd; [constructor|].
  inversion Hnd as [|? ? Hnot Hnd']; subst.
  destruct (p x); simpl; [|apply IH, Hnd'].
  constructor; [|apply IH, Hnd'].
  intro H. apply Hnot. unfold names in *. apply in_map_iff in H.
  destruct H as [y [Ey Hy]]. apply filter_In in Hy. rewrite <- Ey. apply in_map, Hy.
Qed.

Lemma NoDup_of_names (l : Http.headers) : NoDup (names l) -> NoDup l.
Proof. apply NoDup_map_inv. Qed.

(** Header objects that agree on the signed names have the same signed
    headers, up to order. *)
Lemma agree_included (l1 l2 : Http.headers) :
  NoDup (names l1) -> NoDup (names l2) ->
  (forall k, included_name k = true -> lookup k l1 = lookup k l2) ->
  Permutation (filter included l1) (filter included l2).
Proof.
  intros H1 H2 Hag. apply NoDup_Permutation.
  - apply NoDup_of_names, NoDup_names_filter, H1.
  - apply NoDup_of_names, NoDup_names_filter, H2.
  - intros [k v]. rewrite !filter_In, (lookup_In l1 k v H1), (lookup_In l2 k v H2).
    split; intros [Hl Hi]; (split; [|exact Hi]).
    + rewrite <- Hag; assumption.
    + rewrite Hag; assumption.
Qed.

Lemma seen_agree (now : Z) (cfg1 cfg2 : Http.config) :
  (forall k, included_name k = true ->
             lookup k (config_headers cfg1) = lookup k (config_headers cfg2)) ->
  forall k, included_name k = true ->
            lookup k (seen_headers now cfg1) = lookup k (seen_headers now cfg2).
Proof.
  intros Hag k Hk. unfold seen_headers.
  destruct (string_dec k Http.RENEGADE_AUTH_EXPIRATION_HEADER) as [-> | Hne].
  - rewrite !lookup_set_same. reflexivity.
  - rewrite !lookup_set_other by assumption. apply Hag, Hk.
Qed.

End HeaderFacts.

(** ** Facts on the sample requests *)
Module SampleFacts.
Import Js Spec Samples.

Lemma sample_configs_agree :
  forall k, included_name k = true ->
            lookup k (config_headers sample_config) = lookup k (config_headers other_config).
Proof.
  intros k Hk. unfold config_headers, sample_config, other_config.
  cbn [Http.c_headers lookup].
  destruct (String.eqb "Content-Type" k) eqn:E1.
  { apply String.eqb_eq in E1. subst k. discriminate Hk. }
  destruct (String.eqb "x-renegade-sdk-version" k) eqn:E2.
  { apply String.eqb_eq in E2. subst k. reflexivity. }
  destruct (String.eqb "X-Renegade-Auth" k) eqn:E3.
  { apply String.eqb_eq in E3. subst k. discriminate Hk. }
  destruct (String.eqb "x-renegade-api-key" k) eqn:E4.
  { apply String.eqb_eq in E4. subst k. reflexivity. }
  destruct (String.eqb "x-renegade-auth" k) eqn:E5.
  { apply String.eqb_eq in E5. subst k. discriminate Hk. }
  destruct (String.eqb "User-Agent" k) eqn:E6.
  { apply String.eqb_eq in E6. subst k. discriminate Hk. }
  reflexivity.
Qed.

Lemma NoDup_names_sample : NoDup (names (config_headers sample_config)).
Proof. repeat constructor; simpl; intuition discriminate. Qed.

Lemma NoDup_names_other : NoDup (names (config_headers other_config)).
Proof. repeat constructor; simpl; intuition discriminate. Qed.


End SampleFacts.

(** ** The MAC of the interceptor *)
Module MacFacts.
Import Js Spec HeaderFacts.

Lemma fold_update_iHash (hs : Http.headers) :
  forall m,
    Sha256.absorbed
      (Hmac.iHash
         (fold_left (fun m kv => Hmac.update (Hmac.update m (Text.utf8 (fst kv)))
                                             (Text.utf8 (snd kv))) hs m))
    = Sha256.absorbed (Hmac.iHash m) ++ flat_map header_bytes hs.
Proof.
  induction hs as [|kv r IH]; intro m; simpl.
  - rewrite app_nil_r. reflexivity.
  - rewrite IH. simpl. unfold header_bytes. rewrite <- !app_assoc. reflexivity.
Qed.

Lemma fold_update_oHash (hs : Http.headers) :
  forall m,
    Hmac.oHash
      (fold_left (fun m kv => Hmac.update (Hmac.update m (Text.utf8 (fst kv)))
                                          (Text.utf8 (snd kv))) hs m)
    = Hmac.oHash m.
Proof.
  induction hs as [|kv r IH]; intro m; simpl; [reflexivity|].
  rewrite IH. reflexivity.
Qed.

(** Feeding the MAC piece by piece is the one-shot HMAC of the
    concatenation. *)
Lemma streaming_hmac (key : list byte) (path body : list byte) (hs : Http.headers) :
  Hmac.digest
    (Hmac.update
       (fold_left (fun m kv => Hmac.update (Hmac.update m (Text.utf8 (fst kv)))
                                           (Text.utf8 (snd kv)))
                  hs (Hmac.update (Hmac.create key) path))
       body)
  = Hmac.hmac_sha256 key (path ++ flat_map header_bytes hs ++ body).
Proof.
  unfold Hmac.digest, Hmac.hmac_sha256, Sha256.digest. simpl.
  rewrite fold_update_iHash, fold_update_oHash. simpl.
  rewrite <- !app_assoc. reflexivity.
Qed.

Lemma signed_body_text (d : value) : Http.signed_body d = body_text d.
Proof.
  destruct d as [| |[]|z|s| |]; simpl; try reflexivity.
  - unfold Http.signed_body. simpl. destruct (z =? 0); reflexivity.
  - unfold Http.signed_body. simpl. destruct s; reflexivity.
Qed.

Lemma full_path (cfg : Http.config) :
  match Http.url cfg with
  | Some u => if Text.nonempty u then u else EmptyString
  | None => EmptyString
  end = config_path cfg.
Proof. unfold config_path. destruct (Http.url cfg) as [[|c u]|]; reflexivity. Qed.

(** The headers the interceptor returns. *)
Lemma interceptor_headers (cmp : string -> string -> Z) (this : Http.RelayerHttpClient)
      (now : Z) (cfg : Http.config) :
  Http.c_headers (Http.addAuthInterceptor cmp this now cfg)
  = Some (set Http.RENEGADE_AUTH_HEADER
            (Http.encodeBase64
               (Hmac.hmac_sha256 (Http.authKey this)
                  (mac_input cmp (config_path cfg) (seen_headers now cfg)
                             (body_text (Http.data cfg)))))
            (seen_headers now cfg)).
Proof.
  unfold Http.addAuthInterceptor. cbn [Http.c_headers]. f_equal.
  rewrite streaming_hmac, full_path, signed_body_text, signed_headers_spec.
  reflexivity.
Qed.

(** The signature header the interceptor sets. *)
Lemma interceptor_signature (cmp : string -> string -> Z) (this : Http.RelayerHttpClient)
      (now : Z) (cfg : Http.config) :
  auth_header (Http.addAuthInterceptor cmp this now cfg)
  = Some (Http.encodeBase64
            (Hmac.hmac_sha256 (Http.authKey this)
               (mac_input cmp (config_path cfg) (seen_headers now cfg)
                          (body_text (Http.data cfg))))).
Proof.
  unfold auth_header. rewrite interceptor_headers. apply lookup_set_same.
Qed.

End MacFacts.

(** ** The request signer *)
Module SignerTheorems.
Import Js Spec OrderFacts SortFacts HeaderFacts MacFacts.
Import Samples.
Import SampleFacts.

Example sample_signature :
  auth_header (Http.addAuthInterceptor ordinalCompare (Http.new "https://x" "c2VjcmV0")
                 1700000000000 sample_config)
  = Some "nzhjBbNsK7zdo/6E3sPTQMTEb3Pu/ZMsgVDlSp79w5Y".
Proof. vm_compute. reflexivity. Qed.

(** C5.  Two requests with the same path and body whose header objects
    agree on every name that starts (whatever the case) with [x-renegade],
    [x-renegade-auth] left out, get the same signature: the other headers,
    and a signature header already present, do not enter the MAC.  The
    comparator of the runtime is assumed to be a total order on the names
    of the signed headers. *)
Theorem unsigned_headers_do_not_matter
        (localeCompare : string -> string -> Z) (this : Http.RelayerHttpClient)
        (now : Z) (cfg1 cfg2 : Http.config) :
  config_path cfg1 = config_path cfg2 ->
  Http.data cfg1 = Http.data cfg2 ->
  NoDup (names (config_headers cfg1)) ->
  NoDup (names (config_headers cfg2)) ->
  (forall k, included_name k = true ->
             lookup k (config_headers cfg1) = lookup k (config_headers cfg2)) ->
  total_order_on localeCompare (names (filter included (seen_headers now cfg1))) ->
  auth_header (Http.addAuthInterceptor localeCompare this now cfg1)
  = auth_header (Http.addAuthInterceptor localeCompare this now cfg2).
Proof.
  intros Hp Hd H1 H2 Hag Hcmp.
  rewrite !interceptor_signature, Hp, Hd. do 3 f_equal.
  unfold mac_input. f_equal. f_equal. f_equal.
  apply sort_order_independent.
  - apply agree_included.
    + apply NoDup_set, H1.
    + apply NoDup_set, H2.
    + apply seen_agree, Hag.
  - apply NoDup_names_filter, NoDup_set, H1.
  - exact Hcmp.
Qed.

Lemma unsigned_headers_do_not_matter_witness :
  auth_header (Http.addAuthInterceptor ordinalCompare (Http.new "https://x" "c2VjcmV0")
                 1700000000000 sample_config)
  = auth_header (Http.addAuthInterceptor ordinalCompare (Http.new "https://x" "c2VjcmV0")
                   1700000000000 other_config).
Proof.
  apply (unsigned_headers_do_not_matter ordinalCompare (Http.new "https://x" "c2VjcmV0")
           1700000000000 sample_config other_config).
  - reflexivity.
  - reflexivity.
  - exact NoDup_names_sample.
  - exact NoDup_names_other.
  - exact sample_configs_agree.
  - apply ordinalCompare_total_order.
Defined.

End SignerTheorems.

(** ** The authenticated transport *)
Module TransportTheorems.
Import Js Spec OrderFacts SortFacts HeaderFacts MacFacts.
Import Samples.
















End TransportTheorems.

(** ** The match client *)
Module ClientTheorems.
Import Js Spec.
Import Client.
Import Samples.

Lemma on_error_outcome {A : Type} (fallback : string) (error : Http.js_error) :
  fallback <> EmptyString ->
  match @on_error A fallback error with
  | Returned r => r = None /\ Http.e_status error = Some 204
  | Thrown e => message e <> EmptyString /\ statusCode e = Http.e_status error
  end.
Proof.
  intro Hf. unfold on_error.
  destruct (Http.e_status error) as [st|] eqn:Est.
  - destruct (st =? 204) eqn:E.
    + apply Z.eqb_eq in E. subst st. split; reflexivity.
    + cbn [message statusCode]. split; [|reflexivity].
      destruct (Http.e_message error); simpl; [exact Hf | discriminate].
  - cbn [message statusCode]. split; [|reflexivity].
    destruct (Http.e_message error); simpl; [exact Hf | discriminate].
Qed.

Lemma quote_result_total (r : Http.js_error + Http.response) :
  match quote_result r with
  | Returned _ => True
  | Thrown e => message e <> EmptyString
  end.
Proof.
  assert (Herr : forall error,
             match @on_error SignedExternalQuote "Failed to request quote" error with
             | Returned _ => True
             | Thrown e => message e <> EmptyString
             end).
  { intro error.
    pose proof (@on_error_outcome SignedExternalQuote "Failed to request quote" error) as H.
    destruct on_error; [exact I | apply H; discriminate]. }
  unfold quote_result. destruct r as [error | resp]; [apply Herr|].
  destruct ((Http.status resp =? 204) || negb (truthy (Http.r_data resp))); [exact I|].
  destruct (prop (Http.r_data resp) "signed_quote") as [sq|]; [|apply Herr].
  destruct (prop sq "quote"); [|apply Herr].
  destruct (prop sq "signature"); [|apply Herr].
  destruct (prop (Http.r_data resp) "gas_sponsorship_info"); [exact I | apply Herr].
Qed.

Lemma assemble_result_total (r : Http.js_error + Http.response) :
  match assemble_result r with
  | Returned _ => True
  | Thrown e => message e <> EmptyString
  end.
Proof.
  unfold assemble_result. destruct r as [error | resp].
  - pose proof (@on_error_outcome value "Failed to assemble quote" error) as H.
    destruct on_error; [exact I | apply H; discriminate].
  - destruct ((Http.status resp =? 204) || negb (truthy (Http.r_data resp))); exact I.
Qed.

Lemma settle_empty (r : Http.reply) :
  empty_reply r ->
  exists resp, Http.settle r = inr resp
               /\ (Http.status resp =? 204) || negb (truthy (Http.r_data resp)) = true.
Proof.
  destruct r as [st body | m]; simpl; [|contradiction].
  intros [-> | [Hst ->]].
  - eexists. split; [reflexivity | reflexivity].
  - assert (E : (200 <=? st) && (st <? 300) = true).
    { apply andb_true_iff. split; [apply Z.leb_le | apply Z.ltb_lt]; lia. }
    rewrite E. eexists. split; [reflexivity|].
    cbn [Http.status Http.r_data]. apply orb_true_iff. right. reflexivity.
Qed.

Lemma settle_failed (st : Z) (r : Http.reply) :
  failed_with st r ->
  exists m, m <> EmptyString
            /\ Http.settle r = inl {| Http.e_message := m; Http.e_status := Some st |}
            /\ st <> 204.
Proof.
  intros [Hst [body ->]]. simpl.
  assert (E : (200 <=? st) && (st <? 300) = false).
  { apply andb_false_iff. destruct Hst; [left; apply Z.leb_gt | right; apply Z.ltb_ge]; lia. }
  rewrite E. eexists. split; [|split; [reflexivity | lia]].
  discriminate.
Qed.

Lemma on_error_failed {A : Type} (fallback m : string) (st : Z) :
  m <> EmptyString -> st <> 204 ->
  @on_error A fallback {| Http.e_message := m; Http.e_status := Some st |}
  = Thrown {| message := m; statusCode := Some st |}.
Proof.
  intros Hm Hst. unfold on_error. cbn [Http.e_status Http.e_message].
  destruct (st =? 204) eqn:E; [apply Z.eqb_eq in E; contradiction|].
  destruct m; [contradiction | reflexivity].
Qed.

(** C6.  For [requestQuote], [requestQuoteWithOptions], [assembleQuote]
    and [assembleQuoteWithOptions]: a reply with status 204, or a
    successful one without a body, makes the method return [null]; a reply
    with a status outside the 2xx range makes it throw an
    [ExternalMatchClientError] whose [statusCode] is that status and whose
    message is not empty; and whatever the server does the method either
    returns or throws an [ExternalMatchClientError] with a message. *)
Theorem quote_and_assemble_outcomes
        (localeCompare : string -> string -> Z) (server : Http.outbound_request -> Http.reply)
        (now : Z) (this : ExternalMatchClient) (order : value) (q : SignedExternalQuote)
        (ro : RequestQuoteOptions.t) (ao : AssembleExternalMatchOptions.t) :
  let wq := Http.outbound localeCompare (httpClient this) now Http.POST
              (RequestQuoteOptions.buildRequestPath ro) (quote_request order)
              (getHeaders this) in
  let wa := Http.outbound localeCompare (httpClient this) now Http.POST
              (AssembleExternalMatchOptions.buildRequestPath ao) (assemble_request q ao)
              (getHeaders this) in
  (empty_reply (server wq) ->
   requestQuoteWithOptions localeCompare server now this order ro = Returned None)
  /\ (empty_reply (server wa) ->
      assembleQuoteWithOptions localeCompare server now this q ao = Returned None)
  /\ (forall st, failed_with st (server wq) ->
        exists m, m <> EmptyString
                  /\ requestQuoteWithOptions localeCompare server now this order ro
                     = Thrown {| message := m; statusCode := Some st |})
  /\ (forall st, failed_with st (server wa) ->
        exists m, m <> EmptyString
                  /\ assembleQuoteWithOptions localeCompare server now this q ao
                     = Thrown {| message := m; statusCode := Some st |})
  /\ match requestQuoteWithOptions localeCompare server now this order ro with
     | Returned _ => True
     | Thrown e => message e <> EmptyString
     end
  /\ match assembleQuoteWithOptions localeCompare server now this q ao with
     | Returned _ => True
     | Thrown e => message e <> EmptyString
     end
  /\ requestQuote localeCompare server now this order
     = requestQuoteWithOptions localeCompare server now this order RequestQuoteOptions.new
  /\ assembleQuote localeCompare server now this q
     = assembleQuoteWithOptions localeCompare server now this q
         AssembleExternalMatchOptions.new.
Proof.
  intros wq wa.
  split.
  { intro He. unfold requestQuoteWithOptions, Http.post. fold wq.
    destruct (settle_empty _ He) as [resp [-> Hr]].
    unfold quote_result. rewrite Hr. reflexivity. }
  split.
  { intro He. unfold assembleQuoteWithOptions, Http.post. fold wa.
    destruct (settle_empty _ He) as [resp [-> Hr]].
    unfold assemble_result. rewrite Hr. reflexivity. }
  split.
  { intros st Hf. unfold requestQuoteWithOptions, Http.post. fold wq.
    destruct (settle_failed _ _ Hf) as [m [Hm [-> Hst]]].
    exists m. split; [exact Hm|]. unfold quote_result. apply on_error_failed; assumption. }
  split.
  { intros st Hf. unfold assembleQuoteWithOptions, Http.post. fold wa.
    destruct (settle_failed _ _ Hf) as [m [Hm [-> Hst]]].
    exists m. split; [exact Hm|]. unfold assemble_result. apply on_error_failed; assumption. }
  split; [apply quote_result_total|].
  split; [apply assemble_result_total|].
  split; reflexivity.
Qed.

Lemma quote_and_assemble_outcomes_witness :
  failed_with 500 (Http.Response 500 "oops")
  /\ exists m, m <> EmptyString
               /\ requestQuoteWithOptions ordinalCompare (fun _ => Http.Response 500 "oops")
                    1700000000000 sample_client sample_order
                    RequestQuoteOptions.new
                  = Thrown {| message := m; statusCode := Some 500 |}.
Proof.
  assert (H : failed_with 500 (Http.Response 500 "oops")).
  { split; [right; lia | exists "oops"; reflexivity]. }
  split; [exact H|].
  apply (quote_and_assemble_outcomes ordinalCompare (fun _ => Http.Response 500 "oops")
           1700000000000 sample_client sample_order sample_quote
           RequestQuoteOptions.new AssembleExternalMatchOptions.new).
  exact H.
Defined.

Example no_quote_available :
  requestQuote ordinalCompare (fun _ => Http.Response 204 "") 1700000000000 sample_client
    sample_order
  = Returned None.
Proof. vm_compute. reflexivity. Qed.

Example server_error :
  requestQuote ordinalCompare (fun _ => Http.Response 500 "oops") 1700000000000 sample_client
    sample_order
  = Thrown {| message := "Request failed with status code 500"; statusCode := Some 500 |}.
Proof. vm_compute. reflexivity. Qed.

(** C8.  [AssembleExternalMatchOptions.buildRequestPath] gives the base
    assemble path, without a query string, for the default options, and
    the base path followed by [?disable_gas_sponsorship=false] when
    [requestGasSponsorship] is true and no refund address is set. *)
Theorem assemble_path_default_and_sponsored :
  AssembleExternalMatchOptions.buildRequestPath AssembleExternalMatchOptions.new
  = "/v0/matching-engine/assemble-external-match"
  /\ forall o : AssembleExternalMatchOptions.t,
      AssembleExternalMatchOptions.requestGasSponsorship o = true ->
      AssembleExternalMatchOptions.gasRefundAddress o = None ->
      AssembleExternalMatchOptions.buildRequestPath o
      = "/v0/matching-engine/assemble-external-match?disable_gas_sponsorship=false".
Proof.
  split; [reflexivity|].
  intros o Hs Hr. unfold AssembleExternalMatchOptions.buildRequestPath.
  rewrite Hs, Hr. reflexivity.
Qed.

Lemma assemble_path_default_and_sponsored_witness :
  AssembleExternalMatchOptions.buildRequestPath
    (AssembleExternalMatchOptions.withGasSponsorship true AssembleExternalMatchOptions.new)
  = "/v0/matching-engine/assemble-external-match?disable_gas_sponsorship=false".
Proof.
  apply (proj2 assemble_path_default_and_sponsored
           (AssembleExternalMatchOptions.withGasSponsorship true
              AssembleExternalMatchOptions.new)).
  - reflexivity.
  - reflexivity.
Defined.

(** C10.  [requestQuote] is [requestQuoteWithOptions] with
    [RequestQuoteOptions.new()], and [assembleQuote] is
    [assembleQuoteWithOptions] with [AssembleExternalMatchOptions.new()]:
    same returned value, same thrown error, whatever the server answers. *)
Theorem entry_points_delegate
        (localeCompare : string -> string -> Z) (server : Http.outbound_request -> Http.reply)
        (now : Z) (this : ExternalMatchClient) (order : value) (q : SignedExternalQuote) :
  requestQuote localeCompare server now this order
  = requestQuoteWithOptions localeCompare server now this order RequestQuoteOptions.new
  /\ assembleQuote localeCompare server now this q
     = assembleQuoteWithOptions localeCompare server now this q
         AssembleExternalMatchOptions.new
  /\ RequestQuoteOptions.new
     = {| RequestQuoteOptions.disableGasSponsorship := false;
          RequestQuoteOptions.gasRefundAddress := None;
          RequestQuoteOptions.refundNativeEth := false |}.
Proof. repeat split. Qed.

(** C9, as the code has it.  The body [assembleQuoteWithOptions] sends
    is the serialization of an object with the fields
    [do_gas_estimation], [allow_shared], [receiver_address],
    [signed_quote] and [updated_order]; [signed_quote] holds the [quote]
    and the [signature] of the quote and nothing else, so a
    [gas_sponsorship_info] attached to the quote is not transmitted. *)
Theorem assemble_body_fields
        (localeCompare : string -> string -> Z) (server : Http.outbound_request -> Http.reply)
        (now : Z) (this : ExternalMatchClient) (q : SignedExternalQuote)
        (o : AssembleExternalMatchOptions.t) :
  let request := assemble_request q o in
  let w := Http.outbound localeCompare (httpClient this) now Http.POST
             (AssembleExternalMatchOptions.buildRequestPath o) request (getHeaders this) in
  assembleQuoteWithOptions localeCompare server now this q o
  = assemble_result (Http.settle (server w))
  /\ Http.o_body w = VString (body_text request)
  /\ Http.stringifyBigJSON request = Some (body_text request)
  /\ keys request
     = ["do_gas_estimation"; "allow_shared"; "receiver_address"; "signed_quote";
        "updated_order"]
  /\ prop request "signed_quote"
     = Some (VObject [("quote", quote q); ("signature", signature q)])
  /\ forall info : value,
      assemble_request
        {| quote := quote q; signature := signature q; gas_sponsorship_info := info |} o
      = request.
Proof.
  intros request w. repeat split.
Qed.

(** The body sent for [sample_quote] under the default options. *)
Example assemble_body_sample :
  Http.o_body
    (Http.outbound ordinalCompare (httpClient sample_client) 1700000000000 Http.POST
       (AssembleExternalMatchOptions.buildRequestPath AssembleExternalMatchOptions.new)
       (assemble_request sample_quote AssembleExternalMatchOptions.new)
       (getHeaders sample_client))
  = VString
      (String.concat (JSONBig.ch JSONBig.dq)
         ["{"; "do_gas_estimation"; ":false,"; "allow_shared"; ":false,"; "signed_quote";
          ":{"; "quote"; ":{"; "order"; ":{"; "quote_mint"; ":"; "0xA"; ","; "base_mint"; ":";
          "0xB"; ","; "side"; ":"; "Buy"; ","; "quote_amount";
          ":20000000},"; "timestamp"; ":1700000000000},"; "signature"; ":"; "0xsig"; "}}"]).
Proof. vm_compute. reflexivity. Qed.

(** C9, as stated, fails: the body sent for [sample_quote] under the
    default options has a field [allow_shared], which is not one of
    [do_gas_estimation], [receiver_address], [signed_quote],
    [updated_order]. *)
Lemma assemble_body_has_allow_shared :
  exists (t : string) (sent : value),
    Http.o_body
      (Http.outbound ordinalCompare (httpClient sample_client) 1700000000000 Http.POST
         (AssembleExternalMatchOptions.buildRequestPath AssembleExternalMatchOptions.new)
         (assemble_request sample_quote AssembleExternalMatchOptions.new)
         (getHeaders sample_client))
    = VString t
    /\ JSONBig.parse t = JSONBig.Ok sent
    /\ In "allow_shared" (keys sent)
    /\ ~ In "allow_shared"
         ["do_gas_estimation"; "receiver_address"; "signed_quote"; "updated_order"].
Proof.
  eexists. eexists. split; [vm_compute; reflexivity|].
  split; [vm_compute; reflexivity|].
  split.
  - simpl. right. left. reflexivity.
  - simpl. intuition discriminate.
Qed.

End ClientTheorems.

(** ** Decimal digits *)
Module DigitFacts.
Import Spec.

Lemma append_empty (s : string) : (s ++ "")%string = s.
Proof. induction s as [|c s IH]; simpl; [reflexivity | rewrite IH; reflexivity]. Qed.

Lemma append_assoc (a b c : string) : ((a ++ b) ++ c)%string = (a ++ (b ++ c))%string.
Proof. induction a as [|x a IH]; simpl; [reflexivity | rewrite IH; reflexivity]. Qed.

Lemma length_digits (d : Decimal.uint) :
  String.length (NilEmpty.string_of_uint d) = Decimal.nb_digits d.
Proof. induction d; simpl; try rewrite IHd; reflexivity. Qed.

Lemma pow10_succ (n : nat) : 10 ^ Z.of_nat (S n) = 10 * 10 ^ Z.of_nat n.
Proof. rewrite Nat2Z.inj_succ, Z.pow_succ_r by lia. reflexivity. Qed.

Lemma pow10_pos (n : nat) : 0 < 10 ^ Z.of_nat n.
Proof. apply Z.pow_pos_nonneg; lia. Qed.

Lemma of_uint_acc_bound (d : Decimal.uint) :
  forall acc : positive,
    Z.pos (Pos.of_uint_acc d acc) < (Z.pos acc + 1) * 10 ^ Z.of_nat (Decimal.nb_digits d).
Proof.
  induction d; intro acc; cbn [Pos.of_uint_acc Decimal.nb_digits];
    try (rewrite pow10_succ;
         match goal with
         | |- Z.pos (Pos.of_uint_acc _ ?a) < _ =>
             specialize (IHd a); pose proof (pow10_pos (Decimal.nb_digits d));
             nia
         end).
  simpl. lia.
Qed.

Lemma of_uint_bound (d : Decimal.uint) :
  Z.of_uint d < 10 ^ Z.of_nat (Decimal.nb_digits d).
Proof.
  unfold Z.of_uint.
  induction d; cbn [Pos.of_uint Decimal.nb_digits];
    try (rewrite pow10_succ;
         pose proof (pow10_pos (Decimal.nb_digits d));
         first [ lia
               | match goal with
                 | |- Z.of_N (N.pos (Pos.of_uint_acc _ ?a)) < _ =>
                     pose proof (of_uint_acc_bound d a); simpl Z.of_N; nia
                 end ]).
  simpl. lia.
Qed.

Lemma span_digits_rest (rest : string) :
  not_digit_first rest -> JSONBig.span_digits rest = (EmptyString, rest).
Proof. destruct rest as [|c r]; simpl; [reflexivity|]. intros ->. reflexivity. Qed.

Lemma span_digits_uint (d : Decimal.uint) (rest : string) :
  not_digit_first rest ->
  JSONBig.span_digits (NilEmpty.string_of_uint d ++ rest)
  = (NilEmpty.string_of_uint d, rest).
Proof.
  intro Hr. induction d; cbn [NilEmpty.string_of_uint append];
    try (cbn [JSONBig.span_digits]; 
         match goal with
         | |- context [Text.is_digit ?c] => change (Text.is_digit c) with true
         end; cbv iota; rewrite IHd; reflexivity).
  apply span_digits_rest, Hr.
Qed.

Lemma digits_value_uint (d : Decimal.uint) :
  JSONBig.digits_value (NilEmpty.string_of_uint d) = Z.of_uint d.
Proof. unfold JSONBig.digits_value. rewrite NilEmpty.usu. reflexivity. Qed.

Lemma nilzero_digits (d : Decimal.uint) :
  d <> Decimal.Nil -> NilZero.string_of_uint d = NilEmpty.string_of_uint d.
Proof. destruct d; try reflexivity. intro H. contradiction. Qed.

Lemma of_uint_to_uint (p : positive) : Z.of_uint (Pos.to_uint p) = Z.pos p.
Proof. unfold Z.of_uint. rewrite DecimalPos.Unsigned.of_to. reflexivity. Qed.

Lemma of_Z_digits (z : Z) :
  Text.of_Z z = ((if (z <? 0)%Z then "-" else "") ++ digits_of z)%string.
Proof.
  unfold Text.of_Z. destruct z as [|p|p]; simpl; try reflexivity.
  - apply nilzero_digits, DecimalPos.Unsigned.to_uint_nonnil.
  - f_equal. apply nilzero_digits, DecimalPos.Unsigned.to_uint_nonnil.
Qed.

Lemma bigint_of_Z (z : Z) : JSONBig.bigint_of_string (Text.of_Z z) = Some z.
Proof.
  unfold JSONBig.bigint_of_string, Text.of_Z.
  destruct z as [|p|p].
  - reflexivity.
  - rewrite NilZero.isi.
    + simpl. rewrite of_uint_to_uint. reflexivity.
    + simpl. intros [= H]. exact (DecimalPos.Unsigned.to_uint_nonnil p H).
    + simpl. discriminate.
  - rewrite NilZero.isi.
    + simpl. rewrite of_uint_to_uint. reflexivity.
    + simpl. discriminate.
    + simpl. intros [= H]. exact (DecimalPos.Unsigned.to_uint_nonnil p H).
Qed.

(** A magnitude of at least [10^15] takes more than 15 digits. *)
Lemma long_literal (z : Z) :
  10 ^ 15 <= Z.abs z -> (15 < String.length (digits_of z))%nat.
Proof.
  intro Hz. destruct z as [|p|p]; simpl in Hz; [lia| |];
    simpl digits_of; rewrite length_digits;
    pose proof (of_uint_bound (Pos.to_uint p)) as Hb; rewrite of_uint_to_uint in Hb;
    destruct (Nat.le_gt_cases (Decimal.nb_digits (Pos.to_uint p)) 15) as [Hle | Hgt];
    try exact Hgt;
    exfalso;
    assert (10 ^ Z.of_nat (Decimal.nb_digits (Pos.to_uint p)) <= 10 ^ 15)
      by (apply Z.pow_le_mono_r; lia);
    lia.
Qed.

End DigitFacts.

(** ** Rounding to double, on integers *)
Module DoubleFacts.

Lemma div_rne_lt (n D K : Z) :
  0 < D -> 0 <= n -> 2 * n < (2 * K - 1) * D -> Double.div_rne n D < K.
Proof.
  intros HD Hn Hlt. unfold Double.div_rne.
  pose proof (Z.div_mod n D ltac:(lia)) as Hdm.
  pose proof (Z.mod_pos_bound n D HD) as Hr.
  assert (Hq : n / D <= K - 1).
  { assert (n / D < K); [|lia]. apply Z.div_lt_upper_bound; nia. }
  destruct (Z.ltb_spec (2 * (n mod D)) D) as [H1 | H1]; [lia|].
  assert (n / D <= K - 2) by nia.
  destruct (D <? 2 * (n mod D)); [lia|]. destruct (Z.even (n / D)); lia.
Qed.

(** An integer below [2^1024 - 2^970] is finite as a double. *)
Lemma round_pos_finite (n : Z) :
  2 ^ 53 <= n < 2 ^ 1024 - 2 ^ 970 -> exists x, Double.round_pos n 1 = Some x.
Proof.
  intros [Hlo Hhi]. unfold Double.round_pos, Double.exponent.
  assert (Hn : 0 < n) by (assert (0 < 2 ^ 53) by reflexivity; lia).
  assert (H1 : (1 <=? n) = true) by (apply Z.leb_le; lia).
  rewrite H1, Z.div_1_r.
  assert (He1 : 53 <= Z.log2 n) by (apply Z.log2_le_pow2; lia).
  assert (He2 : Z.log2 n < 1024).
  { apply Z.log2_lt_pow2; [lia|]. assert (0 < 2 ^ 970) by reflexivity. lia. }
  rewrite Z.max_l by lia.
  assert (E1 : (1024 <=? Z.log2 n) = false) by (apply Z.leb_gt; lia).
  rewrite E1. cbn [orb].
  destruct (Z.eqb_spec (Z.log2 n) 1023) as [E | E]; cbn [andb]; [|eexists; reflexivity].
  rewrite E.
  assert (Hm : Double.div_rne (n * 2 ^ Z.max 0 (52 - 1023)) (1 * 2 ^ Z.max 0 (1023 - 52))
               < 2 ^ 53).
  { apply div_rne_lt.
    - reflexivity.
    - change (2 ^ Z.max 0 (52 - 1023)) with 1. lia.
    - change (2 ^ Z.max 0 (52 - 1023)) with 1.
      assert (Hc : (2 * 2 ^ 53 - 1) * (1 * 2 ^ Z.max 0 (1023 - 52))
                   = 2 * (2 ^ 1024 - 2 ^ 970)) by reflexivity.
      rewrite Hc. lia. }
  destruct (Z.eqb_spec
              (Double.div_rne (n * 2 ^ Z.max 0 (52 - 1023)) (1 * 2 ^ Z.max 0 (1023 - 52)))
              (2 ^ 53)) as [E2 | E2]; [lia | eexists; reflexivity].
Qed.

End DoubleFacts.

(** ** The BigInt-safe codec *)
Module CodecFacts.
Import Js JSONBig DigitFacts DoubleFacts.
Import Spec.

Lemma digits_of_first (z : Z) :
  exists c r, digits_of z = String c r /\ Text.is_digit c = true.
Proof.
  destruct z as [|p|p]; simpl; [eexists; eexists; split; reflexivity| |];
    pose proof (DecimalPos.Unsigned.to_uint_nonnil p) as Hn;
    destruct (Pos.to_uint p); try contradiction;
    simpl; eexists; eexists; split; reflexivity.
Qed.

Lemma digit_codes (c : ascii) :
  Text.is_digit c = true ->
  is_code c 45 = false /\ is_code c 123 = false /\ is_code c 91 = false
  /\ is_code c 34 = false /\ (Text.code c <=? 32) = false.
Proof.
  unfold Text.is_digit, is_code. intro H. apply andb_true_iff in H.
  destruct H as [H1 H2]. apply Z.leb_le in H1, H2.
  repeat split; try (apply Z.eqb_neq; lia). apply Z.leb_gt. lia.
Qed.

Lemma digits_of_uint (z : Z) :
  z <> 0 -> exists d, digits_of z = NilEmpty.string_of_uint d /\ Z.of_uint d = Z.abs z.
Proof.
  destruct z as [|p|p]; [contradiction| |]; intros _;
    exists (Pos.to_uint p); split; try reflexivity; apply of_uint_to_uint.
Qed.

Lemma lex_number_integer (z : Z) (rest : string) :
  z <> 0 -> ends_number rest ->
  lex_number (Text.of_Z z ++ rest)
  = ({| l_minus := z <? 0; l_int := digits_of z; l_frac := None; l_exp := None |}, rest).
Proof.
  intros Hz Hr. rewrite of_Z_digits.
  destruct (digits_of_uint z Hz) as [d [Hd _]].
  destruct (digits_of_first z) as [c [r [Hc Hdig]]].
  destruct (digit_codes c Hdig) as [H45 _].
  assert (Hnd : not_digit_first rest).
  { destruct rest; simpl in *; tauto. }
  assert (Htail : forall s : string,
             (let (ip, s2) := span_digits (digits_of z ++ rest) in
              let (fp, s3) :=
                match s2 with
                | String c r =>
                    if is_code c 46 then let (f, t) := span_digits r in (Some f, t) else (None, s2)
                | EmptyString => (None, s2)
                end in
              let (ep, s4) :=
                match s3 with
                | String c r =>
                    if is_code c 101 || is_code c 69 then
                      let (sg, r1) :=
                        match r with
                        | String c' r' =>
                            if is_code c' 45 || is_code c' 43 then (ch c', r') else (EmptyString, r)
                        | EmptyString => (EmptyString, r)
                        end in
                      let (d, t) := span_digits r1 in (Some (c, sg, d), t)
                    else (None, s3)
                | EmptyString => (None, s3)
                end in
              ({| l_minus := z <? 0; l_int := ip; l_frac := fp; l_exp := ep |}, s4))
             = ({| l_minus := z <? 0; l_int := digits_of z; l_frac := None; l_exp := None |},
                rest)).
  { intros _. rewrite Hd, span_digits_uint by exact Hnd.
    destruct rest as [|c0 r0]; [reflexivity|].
    simpl in Hr. destruct Hr as [_ [H46 [H101 H69]]].
    rewrite H46, H101, H69. reflexivity. }
  unfold lex_number.
  destruct (z <? 0) eqn:Eneg.
  - cbn [append]. change (is_code "-" 45) with true. cbv iota. exact (Htail EmptyString).
  - cbn [append]. rewrite Hc. cbn [append]. rewrite H45. rewrite <- Hc.
    change (String c r ++ rest)%string with (String c (r ++ rest)).
    replace (String c (r ++ rest)) with (digits_of z ++ rest)%string
      by (rewrite Hc; reflexivity).
    exact (Htail EmptyString).
Qed.

Lemma to_number_integer (neg : bool) (z : Z) :
  2 ^ 53 <= Z.abs z < 2 ^ 1024 - 2 ^ 970 ->
  exists x,
    to_number {| l_minus := neg; l_int := digits_of z; l_frac := None; l_exp := None |}
    = Some x.
Proof.
  intro Hz.
  assert (Hz0 : z <> 0) by (assert (0 < 2 ^ 53) by reflexivity; lia).
  destruct (digits_of_uint z Hz0) as [d [Hd Hv]].
  destruct (digits_of_first z) as [c [r [Hc _]]].
  assert (Hne : Text.nonempty (digits_of z) = true) by (rewrite Hc; reflexivity).
  unfold to_number. cbn [l_int l_frac l_exp].
  rewrite Hne. cbn [Text.nonempty negb andb orb].
  rewrite append_empty, Hd, digits_value_uint, Hv.
  assert (E : (Z.abs z =? 0) = false) by (apply Z.eqb_neq; lia).
  rewrite E. cbn [String.length Z.of_nat Z.sub Z.opp Z.leb Z.compare].
  change (10 ^ 0) with 1. rewrite Z.mul_1_r.
  apply round_pos_finite, Hz.
Qed.

Lemma text_integer (z : Z) :
  text {| l_minus := z <? 0; l_int := digits_of z; l_frac := None; l_exp := None |}
  = Text.of_Z z.
Proof.
  unfold text. cbn [l_minus l_int l_frac l_exp].
  rewrite of_Z_digits, !append_empty. reflexivity.
Qed.

Lemma length_of_Z (z : Z) : (String.length (digits_of z) <= String.length (Text.of_Z z))%nat.
Proof. rewrite of_Z_digits. destruct (z <? 0); simpl; lia. Qed.

(** [number()] on the decimal text of an integer beyond the safe range
    and finite as a double. *)
Lemma number_big (z : Z) (rest : string) :
  2 ^ 53 <= Z.abs z < 2 ^ 1024 - 2 ^ 970 -> ends_number rest ->
  number (Text.of_Z z ++ rest) = Ok (VBigInt z, rest).
Proof.
  intros Hz Hr.
  assert (Hz0 : z <> 0) by (assert (0 < 2 ^ 53) by reflexivity; lia).
  unfold number. rewrite (lex_number_integer z rest Hz0 Hr).
  destruct (to_number_integer (z <? 0) z Hz) as [x ->].
  rewrite text_integer.
  assert (Hlen : (15 <? String.length (Text.of_Z z))%nat = true).
  { apply Nat.ltb_lt. pose proof (length_of_Z z).
    assert (15 < String.length (digits_of z))%nat; [|lia].
    apply long_literal. assert (10 ^ 15 <= 2 ^ 53) by (vm_compute; discriminate). lia. }
  rewrite Hlen, bigint_of_Z. reflexivity.
Qed.

Lemma of_Z_first (z : Z) :
  exists c r, Text.of_Z z = String c r /\ (is_code c 45 || Text.is_digit c = true)
              /\ is_code c 123 = false /\ is_code c 91 = false /\ is_code c 34 = false
              /\ (Text.code c <=? 32) = false.
Proof.
  rewrite of_Z_digits. destruct (z <? 0).
  - eexists. eexists. split; [reflexivity|]. repeat split.
  - destruct (digits_of_first z) as [c [r [Hc Hd]]]. exists c, r.
    split; [rewrite Hc; reflexivity|].
    destruct (digit_codes c Hd) as [H45 [H123 [H91 [H34 Hw]]]].
    rewrite Hd, orb_true_r. repeat split; assumption.
Qed.

(** [value()] on text that starts with a number. *)
Lemma value_number (fuel : nat) (z : Z) (rest : string) :
  value_ (S fuel) (Text.of_Z z ++ rest) = number (Text.of_Z z ++ rest).
Proof.
  destruct (of_Z_first z) as [c [r [Hc [Hn [H123 [H91 [H34 Hw]]]]]]].
  rewrite Hc. cbn [value_ append white]. rewrite Hw, H123, H91, H34, Hn. reflexivity.
Qed.

Lemma stringify_amount (z : Z) :
  stringify (VObject [("amount", VBigInt z)]) = Some (amount_text z).
Proof. reflexivity. Qed.

Lemma value_object_eq (fuel : nat) (r : string) :
  value_ (S fuel) (String "{" (String dq r)) = members fuel [] (String dq r).
Proof. reflexivity. Qed.

Lemma members_amount_eq (fuel : nat) (acc : list (string * value)) (r : string) :
  members (S fuel) acc
    (String dq (String "a" (String "m" (String "o" (String "u" (String "n" (String "t"
       (String dq (String ":" r)))))))))
  = match value_ fuel r with
    | Err m => Err m
    | Ok (v, r2) =>
        match white r2 with
        | String c2 r3 as r2' =>
            if is_code c2 125 then Ok (VObject (assign "amount" v acc), r3)
            else if is_code c2 44 then members fuel (assign "amount" v acc) (white r3)
            else Err (expected "," r2')
        | EmptyString => Err (expected "," EmptyString)
        end
    end.
Proof. reflexivity. Qed.

Lemma amount_text_eq (z : Z) :
  amount_text z
  = String "{" (String dq ("amount" ++ String dq (String ":" (Text.of_Z z ++ "}")))).
Proof. reflexivity. Qed.

Lemma parse_amount (z : Z) :
  2 ^ 53 <= Z.abs z < 2 ^ 1024 - 2 ^ 970 ->
  parse (amount_text z) = Ok (VObject [("amount", VBigInt z)]).
Proof.
  intro Hz. unfold parse. rewrite amount_text_eq.
  cbn [String.length append Nat.mul Nat.add].
  rewrite value_object_eq, members_amount_eq, value_number.
  rewrite number_big; [reflexivity | exact Hz | simpl; repeat split].
Qed.

End CodecFacts.

(** ** Base64 without padding can be decoded *)
Module Base64Facts.
Import Base64.
Import Base64Checks.

Lemma all_bytes_complete (x : byte) : In x all_bytes.
Proof.
  unfold all_bytes. apply in_flat_map. exists (Byte.to_nat x). split.
  - apply in_seq. pose proof (Byte.to_nat_bounded x). lia.
  - rewrite Byte.of_to_nat. left. reflexivity.
Qed.

Lemma for_all_bytes (P : byte -> bool) :
  forallb P all_bytes = true -> forall x, P x = true.
Proof. intros H x. rewrite forallb_forall in H. apply H, all_bytes_complete. Qed.

Lemma for_all_bytes2 (P : byte -> byte -> bool) :
  forallb (fun x => forallb (P x) all_bytes) all_bytes = true -> forall x y, P x y = true.
Proof.
  intros H x y. apply (for_all_bytes (P x)). apply (for_all_bytes _ H).
Qed.

Lemma sextet_ok_spec (v : Z) : sextet_ok v = true -> sextet_of (sextet_char v) = Some v.
Proof.
  unfold sextet_ok. destruct (sextet_of (sextet_char v)); [|discriminate].
  intro H. apply Z.eqb_eq in H. subst. reflexivity.
Qed.

Lemma sextet_char_not_pad (v : Z) :
  sextet_ok v = true -> Ascii.eqb (sextet_char v) "=" = false.
Proof.
  intro H. apply sextet_ok_spec in H.
  destruct (Ascii.eqb_spec (sextet_char v) "="%char) as [E | E]; [|reflexivity].
  rewrite E in H. discriminate H.
Qed.

Lemma strip_cons (c : ascii) (s : string) :
  Ascii.eqb c "=" = false -> strip_padding (String c s) = String c (strip_padding s).
Proof. intro H. simpl. rewrite H. destruct (strip_padding s); reflexivity. Qed.

Lemma sextets_cons (v : Z) (s : string) :
  sextet_ok v = true -> sextets (String (sextet_char v) s) = v :: sextets s.
Proof.
  intro H. simpl. rewrite (sextet_char_not_pad v H), (sextet_ok_spec v H). reflexivity.
Qed.

Lemma low2_range (x : byte) : In (low2 x) two_bits.
Proof.
  assert (H : forall x, existsb (Z.eqb (low2 x)) two_bits = true).
  { apply for_all_bytes. vm_compute. reflexivity. }
  specialize (H x). apply existsb_exists in H. destruct H as [v [Hin Hv]].
  apply Z.eqb_eq in Hv. rewrite Hv. exact Hin.
Qed.

Lemma high2_range (z : byte) : In (high2 z) two_bits.
Proof.
  assert (H : forall z, existsb (Z.eqb (high2 z)) two_bits = true).
  { apply for_all_bytes. vm_compute. reflexivity. }
  specialize (H z). apply existsb_exists in H. destruct H as [v [Hin Hv]].
  apply Z.eqb_eq in Hv. rewrite Hv. exact Hin.
Qed.

Lemma first_ok (x : byte) : sextet_ok (s1 x) = true.
Proof. revert x. apply for_all_bytes. vm_compute. reflexivity. Qed.

Lemma fourth_ok (z : byte) : sextet_ok (s4 z) = true.
Proof. revert z. apply for_all_bytes. vm_compute. reflexivity. Qed.

Lemma second_ok (u : Z) (y : byte) : In u two_bits -> sextet_ok (s2 u y) = true.
Proof.
  assert (H : forallb (fun u => forallb (fun y => sextet_ok (s2 u y)) all_bytes) two_bits
              = true) by (vm_compute; reflexivity).
  intro Hu. rewrite forallb_forall in H. apply (for_all_bytes _ (H u Hu)).
Qed.

Lemma third_ok (y : byte) (t : Z) : In t two_bits -> sextet_ok (s3 y t) = true.
Proof.
  assert (H : forallb (fun t => forallb (fun y => sextet_ok (s3 y t)) all_bytes) two_bits
              = true) by (vm_compute; reflexivity).
  intro Ht. rewrite forallb_forall in H. apply (for_all_bytes _ (H t Ht)).
Qed.

Lemma first_byte (x y : byte) :
  byte_of (Z.lor (Z.shiftl (s1 x) 2) (Z.shiftr (s2 (low2 x) y) 4)) = x.
Proof.
  apply Byte.byte_dec_bl. revert x y. 
  apply (for_all_bytes2 (fun x y =>
           Byte.eqb (byte_of (Z.lor (Z.shiftl (s1 x) 2) (Z.shiftr (s2 (low2 x) y) 4))) x)).
  vm_compute. reflexivity.
Qed.

Lemma second_byte (u t : Z) (y : byte) :
  In u two_bits -> In t two_bits ->
  byte_of (Z.lor (Z.shiftl (s2 u y) 4) (Z.shiftr (s3 y t) 2)) = y.
Proof.
  assert (H : forallb (fun u => forallb (fun t => forallb (fun y =>
                Byte.eqb (byte_of (Z.lor (Z.shiftl (s2 u y) 4) (Z.shiftr (s3 y t) 2))) y)
                all_bytes) two_bits) two_bits = true) by (vm_compute; reflexivity).
  intros Hu Ht. rewrite forallb_forall in H. specialize (H u Hu).
  rewrite forallb_forall in H. specialize (H t Ht).
  apply Byte.byte_dec_bl. apply (for_all_bytes _ H).
Qed.

Lemma third_byte (y z : byte) :
  byte_of (Z.lor (Z.shiftl (s3 y (high2 z)) 6) (s4 z)) = z.
Proof.
  apply Byte.byte_dec_bl. revert y z.
  apply (for_all_bytes2 (fun y z =>
           Byte.eqb (byte_of (Z.lor (Z.shiftl (s3 y (high2 z)) 6) (s4 z))) z)).
  vm_compute. reflexivity.
Qed.

Lemma bytes_eqb_eq (l1 : list byte) : forall l2, bytes_eqb l1 l2 = true -> l1 = l2.
Proof.
  induction l1 as [|x r1 IH]; intros [|y r2]; simpl; try discriminate; [reflexivity|].
  intro H. apply andb_true_iff in H. destruct H as [H1 H2].
  apply Byte.byte_dec_bl in H1. subst. f_equal. apply IH, H2.
Qed.

Lemma decode_one (x : byte) : decode (strip_padding (encode [x])) = [x].
Proof.
  apply bytes_eqb_eq. revert x. apply for_all_bytes. vm_compute. reflexivity.
Qed.

Lemma decode_two (x y : byte) : decode (strip_padding (encode [x; y])) = [x; y].
Proof.
  apply bytes_eqb_eq. revert x y.
  apply (for_all_bytes2 (fun x y => bytes_eqb (decode (strip_padding (encode [x; y]))) [x; y])).
  vm_compute. reflexivity.
Qed.

Lemma decode_three (x y z : byte) (r : list byte) :
  decode (strip_padding (encode (x :: y :: z :: r)))
  = x :: y :: z :: decode (strip_padding (encode r)).
Proof.
  pose proof (low2_range x) as Hu. pose proof (high2_range z) as Ht.
  pose proof (first_ok x) as H1. pose proof (second_ok _ y Hu) as H2.
  pose proof (third_ok y _ Ht) as H3. pose proof (fourth_ok z) as H4.
  unfold decode.
  change (encode (x :: y :: z :: r))
    with (String (sextet_char (s1 x)) (String (sextet_char (s2 (low2 x) y))
           (String (sextet_char (s3 y (high2 z))) (String (sextet_char (s4 z)) (encode r))))).
  rewrite !strip_cons by (apply sextet_char_not_pad; assumption).
  rewrite !sextets_cons by assumption.
  cbn [group].
  rewrite first_byte, second_byte, third_byte by assumption.
  reflexivity.
Qed.

Lemma three_step_ind (P : list byte -> Prop) :
  P [] -> (forall x, P [x]) -> (forall x y, P [x; y]) ->
  (forall x y z r, P r -> P (x :: y :: z :: r)) ->
  forall l, P l.
Proof.
  intros H0 H1 H2 H3 l.
  assert (H : P l /\ (forall x, P (x :: l)) /\ (forall x y, P (x :: y :: l))).
  { induction l as [|a l [IH0 [IH1 IH2]]].
    - repeat split; auto.
    - split; [apply IH1|]. split; [intro x; apply IH2|].
      intros x y. apply H3, IH0. }
  apply H.
Qed.

(** Decoding the unpadded encoding gives the bytes back. *)
Lemma decode_encode (bs : list byte) : Http.decodeBase64 (Http.encodeBase64 bs) = bs.
Proof.
  unfold Http.decodeBase64, Http.encodeBase64.
  induction bs as [| x | x y | x y z r IH] using three_step_ind.
  - reflexivity.
  - apply decode_one.
  - apply decode_two.
  - rewrite decode_three, IH. reflexivity.
Qed.


End Base64Facts.

(** ** What a changed byte does to the MAC input *)
Module SensitivityFacts.
Import Js Spec SortFacts HeaderFacts.


Lemma utf8_cons (c : ascii) (s : string) :
  Text.utf8 (String c s) = byte_of_ascii c :: Text.utf8 s.
Proof. reflexivity. Qed.

Lemma utf8_app (s1 s2 : string) : Text.utf8 (s1 ++ s2) = Text.utf8 s1 ++ Text.utf8 s2.
Proof.
  induction s1 as [|c s1 IH]; [reflexivity|].
  cbn [append]. rewrite !utf8_cons, IH. reflexivity.
Qed.














Lemma permuted_lookup (l1 l2 : Http.headers) :
  Permutation l1 l2 -> NoDup (names l1) -> forall k, lookup k l1 = lookup k l2.
Proof.
  intros Hp Hnd k.
  assert (Hnd2 : NoDup (names l2)).
  { eapply Permutation_NoDup; [apply Permutation_map, Hp | exact Hnd]. }
  destruct (lookup k l1) as [v|] eqn:E1.
  - apply (lookup_In l1 k v Hnd) in E1.
    symmetry. apply (lookup_In l2 k v Hnd2).
    eapply Permutation_in; [exact Hp | exact E1].
  - destruct (lookup k l2) as [v|] eqn:E2; [|reflexivity].
    apply (lookup_In l2 k v Hnd2) in E2.
    apply (Permutation_in _ (Permutation_sym Hp)) in E2.
    apply (lookup_In l1 k v Hnd) in E2. congruence.
Qed.




(** The order of the header object does not reach the MAC. *)
Lemma header_order_does_not_matter (cmp : string -> string -> Z) (p t : string)
      (h h' : Http.headers) :
  Permutation h h' -> NoDup (names h) ->
  total_order_on cmp (names (filter included h)) ->
  mac_input cmp p h t = mac_input cmp p h' t.
Proof.
  intros Hp Hnd Hcmp. unfold mac_input. f_equal. f_equal. f_equal.
  apply sort_order_independent.
  - apply agree_included.
    + exact Hnd.
    + eapply Permutation_NoDup; [apply Permutation_map, Hp | exact Hnd].
    + intros k _. apply permuted_lookup; assumption.
  - apply NoDup_names_filter, Hnd.
  - exact Hcmp.
Qed.

End SensitivityFacts.

(** ** The BigInt-safe codec: decoding failures and round trips *)
Module CodecTheorems.
Import Js Spec CodecFacts.
Import Samples.

(** C2, as the code has it.  For an integer [I] beyond the safe range of
    a double and below [2^1024 - 2^970] in magnitude (the integers whose
    decimal text is finite as a double), [{amount: I}] is encoded with [I]
    as a bare decimal literal, and decoding the text gives [{amount: I}]
    back with [I] a bigint. *)
Theorem big_amount_round_trip (I : Z) :
  2 ^ 53 - 1 < Z.abs I < 2 ^ 1024 - 2 ^ 970 ->
  Http.stringifyBigJSON (VObject [("amount", VBigInt I)]) = Some (amount_text I)
  /\ Http.parseBigJSON (amount_text I) = (VObject [("amount", VBigInt I)], [])
  /\ prop (fst (Http.parseBigJSON (amount_text I))) "amount" = Some (VBigInt I).
Proof.
  intro HI.
  assert (Hp : JSONBig.parse (amount_text I) = JSONBig.Ok (VObject [("amount", VBigInt I)])).
  { apply parse_amount. lia. }
  split; [reflexivity|].
  unfold Http.parseBigJSON. rewrite Hp. split; reflexivity.
Qed.

Lemma big_amount_round_trip_witness :
  2 ^ 53 - 1 < Z.abs (2 ^ 256 - 1) < 2 ^ 1024 - 2 ^ 970
  /\ Http.parseBigJSON (amount_text (2 ^ 256 - 1))
     = (VObject [("amount", VBigInt (2 ^ 256 - 1))], []).
Proof.
  assert (H : 2 ^ 53 - 1 < Z.abs (2 ^ 256 - 1) < 2 ^ 1024 - 2 ^ 970)
    by (vm_compute; split; reflexivity).
  split; [exact H|].
  apply (big_amount_round_trip (2 ^ 256 - 1) H).
Defined.

(** C2, as stated, fails at [I = 2^1024]: the text of [I] is not finite
    as a double, the decoder rejects it as a bad number, and
    [parseBigJSON] returns the text, which has no [amount]. *)
Lemma huge_amount_is_not_decoded :
  2 ^ 53 - 1 < Z.abs (2 ^ 1024)
  /\ Http.stringifyBigJSON (VObject [("amount", VBigInt (2 ^ 1024))])
     = Some (amount_text (2 ^ 1024))
  /\ Http.parseBigJSON (amount_text (2 ^ 1024))
     = (VString (amount_text (2 ^ 1024)),
        [{| Http.d_label := "Failed to parse JSON with BigInt";
            Http.d_error := "Bad number" |}])
  /\ prop (fst (Http.parseBigJSON (amount_text (2 ^ 1024)))) "amount"
     <> Some (VBigInt (2 ^ 1024)).
Proof.
  split; [vm_compute; reflexivity|].
  split; [reflexivity|].
  assert (H : Http.parseBigJSON (amount_text (2 ^ 1024))
              = (VString (amount_text (2 ^ 1024)),
                 [{| Http.d_label := "Failed to parse JSON with BigInt";
                     Http.d_error := "Bad number" |}]))
    by (vm_compute; reflexivity).
  split; [exact H|].
  rewrite H. cbn [fst prop]. discriminate.
Qed.

End CodecTheorems.


(** ** Facts on hexadecimal digits and typed arrays *)
Module DataFacts.
Import Thrown.
Import DataSpec.

Lemma length_append (s t : string) :
  String.length (s ++ t) = (String.length s + String.length t)%nat.
Proof. induction s as [|c s IH]; simpl; [reflexivity | rewrite IH; reflexivity]. Qed.

Lemma substring_all (s : string) : String.substring 0 (String.length s) s = s.
Proof. induction s as [|c s IH]; simpl; [reflexivity | rewrite IH; reflexivity]. Qed.

Lemma length_zero_digits (n : nat) : String.length (zero_digits n) = n.
Proof.
  unfold zero_digits. induction n as [|n IH]; simpl; [reflexivity | rewrite IH; reflexivity].
Qed.

Lemma filler_zero (n : nat) : Prim.filler n "0" = zero_digits n.
Proof.
  unfold Prim.filler. fold (zero_digits n).
  pose proof (substring_all (zero_digits n)) as H.
  rewrite length_zero_digits in H. exact H.
Qed.

Lemma padStart_zero (n : nat) (s : string) :
  Prim.padStart n "0" s = (zero_digits (n - String.length s) ++ s)%string.
Proof.
  unfold Prim.padStart. simpl. rewrite andb_true_r.
  destruct (Nat.ltb_spec (String.length s) n) as [H | H].
  - rewrite filler_zero. reflexivity.
  - replace (n - String.length s)%nat with 0%nat by lia. reflexivity.
Qed.

Lemma padEnd_zero (n : nat) (s : string) :
  Prim.padEnd n "0" s = (s ++ zero_digits (n - String.length s))%string.
Proof.
  unfold Prim.padEnd. simpl. rewrite andb_true_r.
  destruct (Nat.ltb_spec (String.length s) n) as [H | H].
  - rewrite filler_zero. reflexivity.
  - replace (n - String.length s)%nat with 0%nat by lia.
    simpl. rewrite DigitFacts.append_empty. reflexivity.
Qed.

(** Every byte is printed as its two hexadecimal digits. *)
Lemma byte_text (x : byte) :
  Prim.padStart 2 "0" (Prim.toString16 (Base64.b x)) = hex_text x.
Proof.
  apply String.eqb_eq. revert x. apply Base64Facts.for_all_bytes.
  vm_compute. reflexivity.
Qed.

Lemma byte_nibbles (x : byte) :
  ToBytes.charCodeToBase16 (Text.code (JSONBig.hexdigit (Base64.b x / 16)))
  = Some (Base64.b x / 16)
  /\ ToBytes.charCodeToBase16 (Text.code (JSONBig.hexdigit (Base64.b x mod 16)))
     = Some (Base64.b x mod 16)
  /\ Base64.byte_of (Base64.b x / 16 * 16 + Base64.b x mod 16) = x.
Proof.
  assert (H : forall x,
    (match ToBytes.charCodeToBase16 (Text.code (JSONBig.hexdigit (Base64.b x / 16))) with
     | Some v => v =? Base64.b x / 16 | None => false end)
    && (match ToBytes.charCodeToBase16 (Text.code (JSONBig.hexdigit (Base64.b x mod 16))) with
        | Some v => v =? Base64.b x mod 16 | None => false end)
    && Byte.eqb (Base64.byte_of (Base64.b x / 16 * 16 + Base64.b x mod 16)) x = true).
  { apply Base64Facts.for_all_bytes. vm_compute. reflexivity. }
  specialize (H x). apply andb_true_iff in H. destruct H as [H H3].
  apply andb_true_iff in H. destruct H as [H1 H2].
  destruct (ToBytes.charCodeToBase16 (Text.code (JSONBig.hexdigit (Base64.b x / 16))));
    [|discriminate].
  destruct (ToBytes.charCodeToBase16 (Text.code (JSONBig.hexdigit (Base64.b x mod 16))));
    [|discriminate].
  apply Z.eqb_eq in H1, H2. apply Byte.byte_dec_bl in H3. subst. auto.
Qed.

Lemma bytesToHex_digits (bs : list byte) :
  ToHex.bytesToHex bs = String "0" (String "x" (digits_text bs)).
Proof.
  unfold ToHex.bytesToHex. cbn [append]. do 2 f_equal.
  induction bs as [|x bs IH]; [reflexivity|].
  cbn [map digits_text]. rewrite byte_text, <- IH.
  destruct bs as [|y bs]; cbn [map Text.join].
  - rewrite DigitFacts.append_empty. reflexivity.
  - reflexivity.
Qed.

Lemma length_digits_text (bs : list byte) :
  String.length (digits_text bs) = (2 * List.length bs)%nat.
Proof.
  induction bs as [|x bs IH]; [reflexivity|].
  cbn [digits_text hex_text append String.length List.length]. rewrite IH. lia.
Qed.

Lemma pairs_hex_text (whole : string) (x : byte) (rest : string) :
  ToBytes.pairs whole (hex_text x ++ rest)
  = bind (ToBytes.pairs whole rest) (fun bytes => Return (x :: bytes)).
Proof.
  destruct (byte_nibbles x) as [H1 [H2 H3]].
  unfold hex_text. cbn [append ToBytes.pairs]. rewrite H1, H2, H3. reflexivity.
Qed.

Lemma pairs_digits_text (whole : string) (bs : list byte) :
  ToBytes.pairs whole (digits_text bs) = Return bs.
Proof.
  induction bs as [|x bs IH]; [reflexivity|].
  cbn [digits_text]. rewrite pairs_hex_text, IH. reflexivity.
Qed.

Lemma pair_ind (P : string -> Prop) :
  P EmptyString -> (forall c, P (String c EmptyString)) ->
  (forall c1 c2 s, P s -> P (String c1 (String c2 s))) ->
  forall s, P s.
Proof.
  intros H0 H1 H2 s.
  assert (H : P s /\ forall c, P (String c s)).
  { induction s as [|c s [IH1 IH2]]; split; auto. }
  apply H.
Qed.

Lemma for_all_ascii (P : ascii -> bool) :
  forallb (fun x => P (ascii_of_byte x)) Base64Checks.all_bytes = true ->
  forall c, P c = true.
Proof.
  intros H c. rewrite <- (ascii_of_byte_of_ascii c).
  apply (Base64Facts.for_all_bytes (fun x => P (ascii_of_byte x)) H).
Qed.

(** A character is accepted by [charCodeToBase16] exactly when it is a
    hexadecimal digit; its value is below 16 and is printed back as the
    lower-case digit. *)
Lemma nibble_of_hex_char (c : ascii) :
  IsHex.hex_char c = true ->
  exists v, ToBytes.charCodeToBase16 (Text.code c) = Some v
            /\ 0 <= v < 16 /\ JSONBig.hexdigit v = Text.lower_char c.
Proof.
  assert (H : forall c,
    implb (IsHex.hex_char c)
      match ToBytes.charCodeToBase16 (Text.code c) with
      | Some v => (0 <=? v) && (v <? 16)
                  && Ascii.eqb (JSONBig.hexdigit v) (Text.lower_char c)
      | None => false
      end = true).
  { apply for_all_ascii. vm_compute. reflexivity. }
  intro Hc. specialize (H c). rewrite Hc in H. simpl in H.
  destruct (ToBytes.charCodeToBase16 (Text.code c)) as [v|]; [|discriminate].
  exists v. apply andb_true_iff in H. destruct H as [H H3].
  apply andb_true_iff in H. destruct H as [H1 H2].
  apply Ascii.eqb_eq in H3. split; [reflexivity|]. split; [lia | exact H3].
Qed.

Lemma nibble_of_other_char (c : ascii) :
  IsHex.hex_char c = false -> ToBytes.charCodeToBase16 (Text.code c) = None.
Proof.
  assert (H : forall c,
    IsHex.hex_char c
    || match ToBytes.charCodeToBase16 (Text.code c) with
       | Some _ => false
       | None => true
       end = true).
  { apply for_all_ascii. vm_compute. reflexivity. }
  intro Hc. specialize (H c). rewrite Hc in H. simpl in H.
  destruct (ToBytes.charCodeToBase16 (Text.code c)); [discriminate | reflexivity].
Qed.

Lemma byte_of_nibbles (v1 v2 : Z) :
  0 <= v1 < 16 -> 0 <= v2 < 16 ->
  Base64.b (Base64.byte_of (v1 * 16 + v2)) = v1 * 16 + v2.
Proof.
  intros H1 H2. unfold Base64.byte_of, Base64.b.
  assert (E : Z.land (v1 * 16 + v2) 255 = v1 * 16 + v2).
  { change 255 with (Z.ones 8). rewrite Z.land_ones by lia.
    apply Z.mod_small. lia. }
  rewrite E.
  destruct (Byte.of_N (Z.to_N (v1 * 16 + v2))) as [x|] eqn:Ex.
  - apply Byte.to_of_N in Ex. rewrite Ex. lia.
  - apply Byte.of_N_None_iff in Ex. lia.
Qed.

Lemma hex_text_of_nibbles (c1 c2 : ascii) (v1 v2 : Z) :
  0 <= v1 < 16 -> 0 <= v2 < 16 ->
  hex_text (Base64.byte_of (v1 * 16 + v2))
  = String (JSONBig.hexdigit v1) (String (JSONBig.hexdigit v2) EmptyString).
Proof.
  intros H1 H2. unfold hex_text. rewrite byte_of_nibbles by assumption.
  replace ((v1 * 16 + v2) / 16) with v1 by (apply Z.div_unique with v2; lia).
  replace ((v1 * 16 + v2) mod 16) with v2 by (apply Z.mod_unique with v1; lia).
  reflexivity.
Qed.

(** The loop returns exactly on digits, and then prints back in lower
    case. *)
Lemma pairs_all_hex (s : string) :
  Nat.even (String.length s) = true -> IsHex.all_hex s = true ->
  exists bs, (forall whole, ToBytes.pairs whole s = Return bs)
             /\ digits_text bs = Text.toLowerCase s
             /\ (2 * List.length bs = String.length s)%nat.
Proof.
  induction s as [| c | c1 c2 s IH] using pair_ind; intros He Hh.
  - exists []. auto.
  - discriminate He.
  - cbn [IsHex.all_hex] in Hh.
    apply andb_true_iff in Hh. destruct Hh as [Hc1 Hh].
    apply andb_true_iff in Hh. destruct Hh as [Hc2 Hh].
    destruct (nibble_of_hex_char c1 Hc1) as [v1 [E1 [R1 L1]]].
    destruct (nibble_of_hex_char c2 Hc2) as [v2 [E2 [R2 L2]]].
    destruct (IH He Hh) as [bs [Eb [Et El]]].
    exists (Base64.byte_of (v1 * 16 + v2) :: bs).
    split; [intro whole; cbn [ToBytes.pairs]; rewrite E1, E2, Eb; reflexivity|].
    cbn [digits_text Text.toLowerCase List.length String.length].
    rewrite (hex_text_of_nibbles c1 c2) by assumption.
    rewrite L1, L2, Et. split; [reflexivity | lia].
Qed.

Lemma pairs_not_all_hex (whole s : string) :
  Nat.even (String.length s) = true -> IsHex.all_hex s = false ->
  returned (ToBytes.pairs whole s) = false.
Proof.
  induction s as [| c | c1 c2 s IH] using pair_ind; intros He Hh.
  - discriminate Hh.
  - discriminate He.
  - cbn [IsHex.all_hex] in Hh. cbn [ToBytes.pairs].
    destruct (IsHex.hex_char c1) eqn:Hc1.
    + destruct (nibble_of_hex_char c1 Hc1) as [v1 [E1 _]]. rewrite E1.
      destruct (IsHex.hex_char c2) eqn:Hc2.
      * destruct (nibble_of_hex_char c2 Hc2) as [v2 [E2 _]]. rewrite E2.
        simpl in Hh. specialize (IH He Hh).
        destruct (ToBytes.pairs whole s); [discriminate IH | reflexivity].
      * rewrite (nibble_of_other_char c2 Hc2). reflexivity.
    + rewrite (nibble_of_other_char c1 Hc1). reflexivity.
Qed.

Lemma even_padded (s : string) :
  Nat.even (String.length
              (if Nat.odd (String.length s) then String "0" s else s)) = true.
Proof.
  destruct (Nat.odd (String.length s)) eqn:E.
  - cbn [String.length]. rewrite Nat.even_succ. exact E.
  - rewrite <- Nat.negb_odd, E. reflexivity.
Qed.

Lemma all_hex_padded (s : string) :
  IsHex.all_hex (if Nat.odd (String.length s) then String "0" s else s)
  = IsHex.all_hex s.
Proof. destruct (Nat.odd (String.length s)); reflexivity. Qed.

Lemma for_nibbles (P : Z -> bool) :
  forallb P (Prim.indices 16) = true -> forall v, 0 <= v < 16 -> P v = true.
Proof.
  intros H v Hv. rewrite forallb_forall in H. apply H.
  unfold Prim.indices. apply in_map_iff. exists (Z.to_nat v). split; [lia|].
  apply in_seq. lia.
Qed.

Lemma nibble_of_hexdigit (v : Z) :
  0 <= v < 16 ->
  ToBytes.charCodeToBase16 (Text.code (JSONBig.hexdigit v)) = Some v
  /\ IsHex.hex_char (JSONBig.hexdigit v) = true.
Proof.
  intro Hv.
  assert (H : (match ToBytes.charCodeToBase16 (Text.code (JSONBig.hexdigit v)) with
               | Some v' => v' =? v
               | None => false
               end) && IsHex.hex_char (JSONBig.hexdigit v) = true).
  { revert v Hv. apply for_nibbles. vm_compute. reflexivity. }
  apply andb_true_iff in H. destruct H as [H1 H2].
  destruct (ToBytes.charCodeToBase16 (Text.code (JSONBig.hexdigit v))); [|discriminate].
  apply Z.eqb_eq in H1. subst. auto.
Qed.

Lemma nibble_range (n v : Z) : ToBytes.charCodeToBase16 n = Some v -> 0 <= v < 16.
Proof.
  unfold ToBytes.charCodeToBase16, ToBytes.zero, ToBytes.nine, ToBytes.A, ToBytes.F,
    ToBytes.a, ToBytes.f.
  destruct (Z.leb_spec 48 n), (Z.leb_spec n 57), (Z.leb_spec 65 n), (Z.leb_spec n 70),
    (Z.leb_spec 97 n), (Z.leb_spec n 102); simpl; intro E; inversion E; lia.
Qed.

Lemma all_hex_app (s t : string) :
  IsHex.all_hex (s ++ t) = IsHex.all_hex s && IsHex.all_hex t.
Proof.
  induction s as [|c s IH]; simpl; [reflexivity|].
  rewrite IH, andb_assoc. reflexivity.
Qed.

Lemma hex_value_from_app (s t : string) : forall acc,
  hex_value_from acc (s ++ t) = hex_value_from (hex_value_from acc s) t.
Proof. induction s as [|c s IH]; intro acc; simpl; [reflexivity | apply IH]. Qed.

Lemma all_hex_zero_digits (k : nat) : IsHex.all_hex (zero_digits k) = true.
Proof. induction k as [|k IH]; [reflexivity | exact IH]. Qed.

Lemma hex_value_zero_digits (k : nat) (s : string) :
  hex_value (zero_digits k ++ s) = hex_value s.
Proof. induction k as [|k IH]; [reflexivity | exact IH]. Qed.

Lemma zero_digits_succ (k : nat) (s : string) :
  (zero_digits (S k) ++ s)%string = (zero_digits k ++ String "0" s)%string.
Proof.
  induction k as [|k IH]; [reflexivity|].
  change (zero_digits (S (S k)) ++ s)%string with (String "0" (zero_digits (S k) ++ s)%string).
  rewrite IH. reflexivity.
Qed.

Lemma zero_digits_double (k : nat) : zero_digits (2 * k) = digits_text (Prim.zeros k).
Proof.
  induction k as [|k IH]; [reflexivity|].
  replace (2 * S k)%nat with (S (S (2 * k))) by lia.
  change (zero_digits (S (S (2 * k)))) with (String "0" (String "0" (zero_digits (2 * k)))).
  rewrite IH. reflexivity.
Qed.

(** The digits of [toString(16)]: hexadecimal, denoting the number, and no
    more of them than the magnitude needs. *)
Lemma digits16_spec (fuel : nat) : forall n,
  0 <= n < 2 ^ Z.of_nat fuel ->
  IsHex.all_hex (Prim.digits16 fuel n) = true /\ hex_value (Prim.digits16 fuel n) = n.
Proof.
  induction fuel as [|fuel IH]; intros n Hn.
  - simpl in *. split; [reflexivity | unfold hex_value; simpl; lia].
  - cbn [Prim.digits16]. destruct (Z.ltb_spec n 16) as [H | H].
    + destruct (nibble_of_hexdigit n) as [E1 E2]; [lia|].
      unfold hex_value, JSONBig.ch. cbn [IsHex.all_hex hex_value_from].
      rewrite E1, E2. split; [reflexivity | lia].
    + assert (Hq : 0 <= n / 16 < 2 ^ Z.of_nat fuel).
      { rewrite Nat2Z.inj_succ, Z.pow_succ_r in Hn by lia. split.
        - apply Z.div_pos; lia.
        - apply Z.div_lt_upper_bound; lia. }
      destruct (IH _ Hq) as [A V].
      destruct (nibble_of_hexdigit (n mod 16)) as [E1 E2].
      { apply Z.mod_pos_bound. lia. }
      unfold hex_value in *. rewrite all_hex_app, hex_value_from_app, A, V.
      unfold JSONBig.ch. cbn [IsHex.all_hex hex_value_from]. rewrite E1, E2.
      split; [reflexivity|]. pose proof (Z.div_mod n 16). lia.
Qed.

Lemma length_digits16 (fuel : nat) : forall n k,
  0 <= n < 16 ^ Z.of_nat (S k) -> (String.length (Prim.digits16 fuel n) <= S k)%nat.
Proof.
  induction fuel as [|fuel IH]; intros n k Hn; [simpl; lia|].
  cbn [Prim.digits16]. destruct (Z.ltb_spec n 16) as [H | H]; [simpl; lia|].
  rewrite length_append. cbn [JSONBig.ch String.length].
  destruct k as [|k]; [simpl in Hn; lia|].
  assert (Hq : 0 <= n / 16 < 16 ^ Z.of_nat (S k)).
  { rewrite (Nat2Z.inj_succ (S k)), Z.pow_succ_r in Hn by lia. split.
    - apply Z.div_pos; lia.
    - apply Z.div_lt_upper_bound; lia. }
  specialize (IH _ _ Hq). lia.
Qed.

Lemma toString16_spec (z : Z) :
  0 <= z ->
  IsHex.all_hex (Prim.toString16 z) = true /\ hex_value (Prim.toString16 z) = z.
Proof.
  intro Hz. unfold Prim.toString16. destruct (Z.ltb_spec z 0) as [H | H]; [lia|].
  apply digits16_spec. rewrite Nat2Z.inj_succ, Z2Nat.id by apply Z.log2_nonneg.
  split; [exact Hz|]. destruct (Z.eq_dec z 0) as [-> | Hn]; [reflexivity|].
  apply Z.log2_spec. lia.
Qed.

Lemma length_toString16 (z : Z) (k : nat) :
  0 <= z < 16 ^ Z.of_nat (S k) -> (String.length (Prim.toString16 z) <= S k)%nat.
Proof.
  intro Hz. unfold Prim.toString16. destruct (Z.ltb_spec z 0) as [H | H]; [lia|].
  apply length_digits16. exact Hz.
Qed.

(** The bytes the loop returns denote the number the digits denote. *)
Lemma pairs_value (whole s : string) : forall acc bs,
  Nat.even (String.length s) = true ->
  ToBytes.pairs whole s = Return bs ->
  be_value_from acc bs = hex_value_from acc s.
Proof.
  induction s as [| c | c1 c2 s IH] using pair_ind; intros acc bs He Hp.
  - injection Hp as <-. reflexivity.
  - discriminate He.
  - cbn [ToBytes.pairs] in Hp.
    destruct (ToBytes.charCodeToBase16 (Text.code c1)) as [v1|] eqn:E1; [|discriminate].
    destruct (ToBytes.charCodeToBase16 (Text.code c2)) as [v2|] eqn:E2; [|discriminate].
    destruct (ToBytes.pairs whole s) as [r|] eqn:Er; [|discriminate].
    injection Hp as <-. cbn [be_value_from hex_value_from]. rewrite E1, E2.
    rewrite byte_of_nibbles by (eapply nibble_range; eassumption).
    rewrite <- (IH _ r He eq_refl). f_equal. lia.
Qed.

Lemma pairs_digits_app (whole : string) (l : list byte) (rest : string) :
  ToBytes.pairs whole (digits_text l ++ rest)
  = bind (ToBytes.pairs whole rest) (fun r => Return (l ++ r)).
Proof.
  induction l as [|x l IH].
  - simpl. destruct (ToBytes.pairs whole rest); reflexivity.
  - cbn [digits_text]. rewrite DigitFacts.append_assoc, pairs_hex_text, IH.
    destruct (ToBytes.pairs whole rest); reflexivity.
Qed.

Lemma pairs_app (whole s t : string) :
  Nat.even (String.length s) = true ->
  ToBytes.pairs whole (s ++ t)
  = bind (ToBytes.pairs whole s)
         (fun l => bind (ToBytes.pairs whole t) (fun r => Return (l ++ r))).
Proof.
  induction s as [| c | c1 c2 s IH] using pair_ind; intro He.
  - simpl. destruct (ToBytes.pairs whole t); reflexivity.
  - discriminate He.
  - cbn [append ToBytes.pairs].
    destruct (ToBytes.charCodeToBase16 (Text.code c1)); [|reflexivity].
    destruct (ToBytes.charCodeToBase16 (Text.code c2)); [|reflexivity].
    rewrite (IH He). destruct (ToBytes.pairs whole s); [|reflexivity].
    simpl. destruct (ToBytes.pairs whole t); reflexivity.
Qed.

Lemma remove_prefix (digits : string) :
  Prim.remove_first "0x" (String "0" (String "x" digits)) = digits.
Proof. destruct digits; reflexivity. Qed.

Lemma startsWith_0x (hex : string) :
  Text.startsWith hex "0x" = true -> exists digits, hex = String "0" (String "x" digits).
Proof.
  unfold Text.startsWith. intro H. apply String.prefix_correct in H.
  destruct hex as [|a [|b digits]]; try discriminate H.
  cbn [String.length String.substring] in H. injection H as -> -> _.
  exists digits. reflexivity.
Qed.

Lemma strict_pattern_inv (s : string) :
  IsHex.strict_pattern s = true ->
  exists digits, s = String "0" (String "x" digits) /\ IsHex.all_hex digits = true.
Proof.
  destruct s as [|a s]; [discriminate|].
  destruct a as [[] [] [] [] [] [] [] []]; simpl; try discriminate.
  destruct s as [|b digits]; [discriminate|].
  destruct b as [[] [] [] [] [] [] [] []]; simpl; try discriminate.
  intro H. exists digits. split; [reflexivity | exact H].
Qed.

Lemma isHex_strict_inv (hex : string) :
  IsHex.isHex (Js.VString hex) None = true ->
  exists digits, hex = String "0" (String "x" digits) /\ IsHex.all_hex digits = true.
Proof.
  unfold IsHex.isHex. destruct (negb (Js.truthy (Js.VString hex))); [discriminate|].
  apply strict_pattern_inv.
Qed.

End DataFacts.

Module DataTheorems.
Import Thrown.
Import DataSpec.
Import DataFacts.

(** X1.  [hexToBytes] undoes [bytesToHex]: every byte array is recovered
    from its hexadecimal text. *)
Theorem hex_round_trip (bytes : list byte) :
  ToBytes.hexToBytes (ToHex.bytesToHex bytes) = Return bytes.
Proof.
  unfold ToBytes.hexToBytes. rewrite bytesToHex_digits. cbn [Prim.slice].
  rewrite length_digits_text, Nat.odd_mul. cbn [Nat.odd andb].
  apply pairs_digits_text.
Qed.

(** X2.  On a string that starts with [0x], as the type [Hex] asks,
    [hexToBytes] returns exactly when [isHex] accepts the string in strict
    mode; on any other it throws. *)
Theorem hexToBytes_returns_on_hex (hex : string)
  (Hprefix : Text.startsWith hex "0x" = true) :
  returned (ToBytes.hexToBytes hex) = IsHex.isHex (Js.VString hex) None.
Proof.
  destruct (startsWith_0x hex Hprefix) as [digits ->].
  unfold ToBytes.hexToBytes, IsHex.isHex.
  cbn [Prim.slice Js.truthy Text.nonempty negb IsHex.strict_pattern].
  pose proof (even_padded digits) as He.
  pose proof (all_hex_padded digits) as Hp.
  destruct (IsHex.all_hex digits) eqn:Hh.
  - destruct (pairs_all_hex _ He Hp) as [bs [E _]].
    rewrite E. reflexivity.
  - apply pairs_not_all_hex; assumption.
Qed.

Lemma hexToBytes_returns_on_hex_witness :
  returned (ToBytes.hexToBytes "0x12g4") = false.
Proof. exact (hexToBytes_returns_on_hex "0x12g4" eq_refl). Defined.

(** X3.  On a strict hex string, [hexToBytes] followed by [bytesToHex]
    gives the canonical spelling: the digits in lower case, with a leading
    [0] when their number was odd; the array has one byte for each pair. *)
Theorem hex_is_normalised (hex : string)
  (H : IsHex.isHex (Js.VString hex) None = true) :
  exists bytes,
    ToBytes.hexToBytes hex = Return bytes
    /\ ToHex.bytesToHex bytes
       = ("0x" ++ (if Nat.odd (String.length hex) then "0" else "")
               ++ Text.toLowerCase (Prim.slice 2 hex))%string
    /\ List.length bytes = Nat.div2 (String.length hex - 1).
Proof.
  destruct (isHex_strict_inv hex H) as [digits [-> Hd]]. clear H. rename Hd into H.
  unfold ToBytes.hexToBytes. cbn [Prim.slice String.length].
  pose proof (even_padded digits) as He.
  pose proof (all_hex_padded digits) as Hp. rewrite H in Hp.
  destruct (pairs_all_hex _ He Hp) as [bs [E [Et El]]].
  exists bs. split; [apply E|].
  rewrite bytesToHex_digits, Et.
  rewrite !Nat.odd_succ, <- Nat.negb_odd, Nat.odd_succ, <- Nat.negb_odd, negb_involutive.
  destruct (Nat.odd (String.length digits)) eqn:Eo.
  - split; [reflexivity|]. cbn [String.length] in El.
    replace (S (S (String.length digits)) - 1)%nat with (2 * List.length bs)%nat by lia.
    rewrite Nat.div2_double. reflexivity.
  - split; [reflexivity|].
    replace (S (S (String.length digits)) - 1)%nat with (S (2 * List.length bs)) by lia.
    rewrite Nat.div2_succ_double. reflexivity.
Qed.

Lemma hex_is_normalised_witness :
  exists bytes,
    ToBytes.hexToBytes "0xABC" = Return bytes
    /\ ToHex.bytesToHex bytes = "0x0abc"
    /\ List.length bytes = 2%nat.
Proof. exact (hex_is_normalised "0xABC" eq_refl). Defined.

End DataTheorems.

(** ** Facts on the loops over typed arrays *)
Module ArrayFacts.
Import Thrown.
Import DataSpec.

Lemma length_store_nat (arr : list byte) : forall i x,
  List.length (Prim.store_nat arr i x) = List.length arr.
Proof.
  induction arr as [|y r IH]; intros [|i] x; simpl; try reflexivity.
  rewrite IH. reflexivity.
Qed.

Lemma nth_store_nat (arr : list byte) : forall i x j d,
  (i < List.length arr)%nat ->
  nth j (Prim.store_nat arr i x) d = if (j =? i)%nat then x else nth j arr d.
Proof.
  induction arr as [|y r IH]; intros [|i] x [|j] d H; simpl in *; try lia; try reflexivity.
  apply IH. lia.
Qed.

Lemma length_store (arr : list byte) (i : Z) (v : option byte) :
  List.length (Prim.store arr i v) = List.length arr.
Proof.
  unfold Prim.store. destruct ((0 <=? i) && (i <? Z.of_nat (List.length arr)));
    [apply length_store_nat | reflexivity].
Qed.

Lemma nth_store (arr : list byte) (i : Z) (v : option byte) (j : nat) :
  (j < List.length arr)%nat ->
  nth j (Prim.store arr i v) x00
  = if i =? Z.of_nat j then match v with Some x => x | None => x00 end else nth j arr x00.
Proof.
  intro Hj. unfold Prim.store.
  destruct (Z.leb_spec 0 i) as [H0 | H0]; simpl.
  - destruct (Z.ltb_spec i (Z.of_nat (List.length arr))) as [H1 | H1].
    + rewrite nth_store_nat by lia.
      destruct (Nat.eqb_spec j (Z.to_nat i)) as [E | E];
        destruct (Z.eqb_spec i (Z.of_nat j)) as [E' | E']; try reflexivity; lia.
    + destruct (Z.eqb_spec i (Z.of_nat j)); [lia | reflexivity].
  - destruct (Z.eqb_spec i (Z.of_nat j)); [lia | reflexivity].
Qed.

Lemma load_nth (arr : list byte) (i : Z) :
  match Prim.load arr i with Some x => x | None => x00 end
  = if 0 <=? i then nth (Z.to_nat i) arr x00 else x00.
Proof.
  unfold Prim.load. destruct (Z.leb_spec 0 i) as [H0 | H0]; simpl; [|reflexivity].
  destruct (Z.ltb_spec i (Z.of_nat (List.length arr))) as [H1 | H1].
  - destruct (nth_error arr (Z.to_nat i)) as [x|] eqn:E.
    + symmetry. apply nth_error_nth. exact E.
    + apply nth_error_None in E. lia.
  - symmetry. apply nth_overflow. lia.
Qed.

Section Stores.
Variable target : Z -> Z.
Variable source : Z -> option byte.

Lemma length_fold_store (l : list Z) : forall arr,
  List.length (fold_left (fun a i => Prim.store a (target i) (source i)) l arr)
  = List.length arr.
Proof.
  induction l as [|i l IH]; intro arr; simpl; [reflexivity|].
  rewrite IH. apply length_store.
Qed.

(** A loop of stores at distinct places: each place holds what was stored
    there, the others are untouched. *)
Lemma nth_fold_store (l : list Z) :
  NoDup (map target l) -> forall arr j, (j < List.length arr)%nat ->
  nth j (fold_left (fun a i => Prim.store a (target i) (source i)) l arr) x00
  = match find (fun i => target i =? Z.of_nat j) l with
    | Some i => match source i with Some x => x | None => x00 end
    | None => nth j arr x00
    end.
Proof.
  induction l as [|i l IH]; intros Hn arr j Hj; simpl; [reflexivity|].
  inversion Hn as [|? ? Hi Hl]; subst.
  rewrite IH by (try rewrite length_store; assumption).
  rewrite nth_store by assumption.
  destruct (Z.eqb_spec (target i) (Z.of_nat j)) as [E | E]; [|reflexivity].
  destruct (find (fun i0 => target i0 =? Z.of_nat j) l) as [i'|] eqn:F; [|reflexivity].
  apply find_some in F. destruct F as [Hin Ht]. apply Z.eqb_eq in Ht.
  exfalso. apply Hi. rewrite E, <- Ht. apply in_map. exact Hin.
Qed.

End Stores.

Lemma in_indices (n : nat) (k : Z) : In k (Prim.indices n) <-> 0 <= k < Z.of_nat n.
Proof.
  unfold Prim.indices. rewrite in_map_iff. split.
  - intros [i [<- Hi]]. apply in_seq in Hi. lia.
  - intro H. exists (Z.to_nat k). split; [lia|]. apply in_seq. lia.
Qed.

Lemma NoDup_map_injective {A B : Type} (f : A -> B) (l : list A) :
  (forall x y, f x = f y -> x = y) -> NoDup l -> NoDup (map f l).
Proof.
  intros Hf Hl. induction Hl as [|x l Hx Hl IH]; simpl; constructor; [|exact IH].
  rewrite in_map_iff. intros [y [E Hy]]. apply Hf in E. subst. contradiction.
Qed.

Lemma NoDup_indices (n : nat) : NoDup (Prim.indices n).
Proof.
  unfold Prim.indices. apply NoDup_map_injective.
  - intros x y. apply Nat2Z.inj.
  - apply seq_NoDup.
Qed.

Lemma find_indices (p : Z -> bool) (n : nat) (k : Z) :
  0 <= k < Z.of_nat n -> p k = true -> (forall i, p i = true -> i = k) ->
  find p (Prim.indices n) = Some k.
Proof.
  intros Hk Hp Hu. destruct (find p (Prim.indices n)) as [i|] eqn:F.
  - apply find_some in F. destruct F as [_ F]. rewrite (Hu i F). reflexivity.
  - pose proof (find_none _ _ F k (proj2 (in_indices n k) Hk)) as C.
    rewrite Hp in C. discriminate C.
Qed.

(** The loop of [padBytes] towards the right: the bytes, then zeros. *)
Lemma pad_right_loop (bytes : list byte) (size : nat) :
  (List.length bytes <= size)%nat ->
  fold_left (fun a i => Prim.store a i (Prim.load bytes i)) (Prim.indices size) (Prim.zeros size)
  = bytes ++ Prim.zeros (size - List.length bytes).
Proof.
  intro Hl. apply nth_ext with (d := x00) (d' := x00).
  - rewrite (length_fold_store (fun i => i)). unfold Prim.zeros.
    rewrite length_app, !repeat_length. lia.
  - intros j Hj. rewrite (length_fold_store (fun i => i)) in Hj.
    unfold Prim.zeros in Hj. rewrite repeat_length in Hj.
    rewrite (nth_fold_store (fun i => i) (Prim.load bytes)).
    + rewrite (find_indices _ size (Z.of_nat j)) by lia.
      rewrite load_nth. destruct (Z.leb_spec 0 (Z.of_nat j)); [|lia].
      rewrite Nat2Z.id.
      destruct (Nat.lt_ge_cases j (List.length bytes)) as [Hb | Hb].
      * rewrite app_nth1 by assumption. reflexivity.
      * rewrite app_nth2 by assumption. unfold Prim.zeros.
        rewrite nth_repeat. apply nth_overflow. assumption.
    + rewrite map_id. apply NoDup_indices.
    + unfold Prim.zeros. rewrite repeat_length. exact Hj.
Qed.

(** The loop of [padBytes] towards the left: zeros, then the bytes. *)
Lemma pad_left_loop (bytes : list byte) (size : nat) :
  (List.length bytes <= size)%nat ->
  fold_left (fun a i => Prim.store a (Z.of_nat size - i - 1)
                          (Prim.load bytes (Z.of_nat (List.length bytes) - i - 1)))
            (Prim.indices size) (Prim.zeros size)
  = Prim.zeros (size - List.length bytes) ++ bytes.
Proof.
  intro Hl. apply nth_ext with (d := x00) (d' := x00).
  - rewrite (length_fold_store (fun i => Z.of_nat size - i - 1)). unfold Prim.zeros.
    rewrite length_app, !repeat_length. lia.
  - intros j Hj. rewrite (length_fold_store (fun i => Z.of_nat size - i - 1)) in Hj.
    unfold Prim.zeros in Hj. rewrite repeat_length in Hj.
    rewrite (nth_fold_store (fun i => Z.of_nat size - i - 1)
               (fun i => Prim.load bytes (Z.of_nat (List.length bytes) - i - 1))).
    + rewrite (find_indices _ size (Z.of_nat size - Z.of_nat j - 1)) by lia.
      rewrite load_nth.
      destruct (Nat.lt_ge_cases j (size - List.length bytes)) as [Hb | Hb].
      * unfold Prim.zeros. rewrite app_nth1 by (rewrite repeat_length; assumption).
        rewrite nth_repeat.
        destruct (Z.leb_spec 0 (Z.of_nat (List.length bytes)
                                - (Z.of_nat size - Z.of_nat j - 1) - 1)); [lia|].
        reflexivity.
      * unfold Prim.zeros. rewrite app_nth2 by (rewrite repeat_length; assumption).
        rewrite repeat_length.
        destruct (Z.leb_spec 0 (Z.of_nat (List.length bytes)
                                - (Z.of_nat size - Z.of_nat j - 1) - 1)); [|lia].
        f_equal. lia.
    + apply NoDup_map_injective; [|apply NoDup_indices].
      intros x y H. lia.
    + unfold Prim.zeros. rewrite repeat_length. exact Hj.
Qed.

End ArrayFacts.

Module PadTheorems.
Import Thrown.
Import DataSpec.

(** X4.  [padBytes] returns an array of exactly [size] bytes (32 when no
    size is given): the input preceded by zeros, or followed by zeros when
    the direction is [right]; it throws when the input is longer. *)
Theorem padBytes_fills_with_zeros (bytes : list byte) (o : Pad.PadOptions) (n : nat)
  (Hsize : Pad.size_or_default (Pad.size o) = Some n) :
  Pad.padBytes bytes o
  = if (n <? List.length bytes)%nat
    then Throw ("Bytes size (" ++ Pad.nat_text (List.length bytes)
                ++ ") exceeds padding size (" ++ Pad.nat_text n ++ ").")%string
    else Return (if Pad.is_right (Pad.dir o)
                 then bytes ++ Prim.zeros (n - List.length bytes)
                 else Prim.zeros (n - List.length bytes) ++ bytes).
Proof.
  unfold Pad.padBytes. rewrite Hsize.
  destruct (Nat.ltb_spec n (List.length bytes)) as [H | H]; [reflexivity|].
  f_equal. destruct (Pad.is_right (Pad.dir o)).
  - apply ArrayFacts.pad_right_loop. exact H.
  - apply ArrayFacts.pad_left_loop. exact H.
Qed.

Lemma padBytes_fills_with_zeros_witness :
  Pad.padBytes [x01; x02] {| Pad.dir := None; Pad.size := Pad.Unset |}
  = Return (Prim.zeros 30 ++ [x01; x02]).
Proof.
  exact (padBytes_fills_with_zeros [x01; x02]
           {| Pad.dir := None; Pad.size := Pad.Unset |} 32 eq_refl).
Defined.

End PadTheorems.

(** ** Facts on [numberToHex] *)
Module NumberFacts.
Import Thrown.
Import DataSpec.
Import DataFacts.

Lemma pow16 (k : nat) : 16 ^ Z.of_nat (2 * k) = 2 ^ (8 * Z.of_nat k).
Proof.
  change 16 with (2 ^ 4). rewrite <- Z.pow_mul_r by lia. f_equal. lia.
Qed.

Lemma padHex_prefixed (digits : string) (o : Pad.PadOptions) (n : nat) :
  Pad.size_or_default (Pad.size o) = Some n ->
  (String.length digits <= 2 * n)%nat ->
  Pad.padHex (String "0" (String "x" digits)) o
  = Return (String "0" (String "x"
              (if Pad.is_right (Pad.dir o)
               then digits ++ zero_digits (2 * n - String.length digits)
               else zero_digits (2 * n - String.length digits) ++ digits)%string)).
Proof.
  intros Hs H. unfold Pad.padHex. rewrite Hs.
  rewrite remove_prefix.
  destruct (Nat.ltb_spec (n * 2) (String.length digits)) as [C | C]; [lia|].
  replace (n * 2)%nat with (2 * n)%nat by lia.
  destruct (Pad.is_right (Pad.dir o)); [rewrite padEnd_zero | rewrite padStart_zero];
    reflexivity.
Qed.

(** The integer whose digits [numberToHex] prints for a size of [n]
    bytes: the value itself, or its two's complement. *)
Lemma shifted_value (s : bool) (n : nat) (z : Z) :
  in_range s n z = true ->
  (if s && (z <? 0) then Z.shiftl 1 (Z.of_nat (n * 8)) + z else z) = z mod 2 ^ (8 * Z.of_nat n)
  /\ 0 <= z mod 2 ^ (8 * Z.of_nat n) < 2 ^ (8 * Z.of_nat n).
Proof.
  intro H. assert (P : 0 < 2 ^ (8 * Z.of_nat n)) by (apply Z.pow_pos_nonneg; lia).
  split; [|apply Z.mod_pos_bound; exact P].
  rewrite Z.shiftl_1_l. replace (Z.of_nat (n * 8)) with (8 * Z.of_nat n) by lia.
  unfold in_range in H. destruct s; cbn [andb].
  - apply andb_true_iff in H. destruct H as [H1 H2].
    apply Z.leb_le in H1. apply Z.ltb_lt in H2.
    assert (Hh : 2 ^ (8 * Z.of_nat n - 1) <= 2 ^ (8 * Z.of_nat n)).
    { destruct n as [|n].
      - simpl. lia.
      - apply Z.pow_le_mono_r; lia. }
    assert (Hl : 0 <= 2 ^ (8 * Z.of_nat n - 1)) by (apply Z.pow_nonneg; lia).
    destruct (Z.ltb_spec z 0) as [N | N].
    + apply Z.mod_unique with (-1); lia.
    + symmetry. apply Z.mod_small. lia.
  - apply andb_true_iff in H. destruct H as [H1 H2].
    apply Z.leb_le in H1. apply Z.ltb_lt in H2.
    symmetry. apply Z.mod_small. lia.
Qed.

Lemma range_check (v : ToHex.numeric) (s : bool) (k : nat) :
  let o := {| ToHex.signed := s; ToHex.size := Some (S k) |} in
  (match ToHex.maxValue v o with
   | Some m => negb (m =? 0) && (m <? ToHex.integer v)
   | None => false
   end) || (ToHex.integer v <? ToHex.minValue v o)
  = negb (in_range s (S k) (ToHex.integer v)).
Proof.
  intro o. unfold ToHex.minValue, ToHex.maxValue, ToHex.given_size, in_range. subst o.
  cbn [ToHex.size ToHex.signed].
  set (z := ToHex.integer v).
  replace (Z.of_nat (S k) * 8) with (8 * Z.of_nat (S k)) by lia.
  rewrite Z.shiftl_1_l.
  assert (P1 : 2 <= 2 ^ (8 * Z.of_nat (S k) - 1)).
  { change 2 with (2 ^ 1) at 1. apply Z.pow_le_mono_r; lia. }
  assert (P2 : 2 <= 2 ^ (8 * Z.of_nat (S k))).
  { change 2 with (2 ^ 1) at 1. apply Z.pow_le_mono_r; lia. }
  destruct s.
  - destruct (Z.eqb_spec (2 ^ (8 * Z.of_nat (S k) - 1) - 1) 0) as [E | E]; [lia|].
    cbn [negb andb].
    destruct (Z.ltb_spec (2 ^ (8 * Z.of_nat (S k) - 1) - 1) z),
             (Z.ltb_spec z (- (2 ^ (8 * Z.of_nat (S k) - 1) - 1) - 1)),
             (Z.leb_spec (- 2 ^ (8 * Z.of_nat (S k) - 1)) z),
             (Z.ltb_spec z (2 ^ (8 * Z.of_nat (S k) - 1))); simpl; try reflexivity; lia.
  - destruct (Z.eqb_spec (2 ^ (8 * Z.of_nat (S k)) - 1) 0) as [E | E]; [lia|].
    cbn [negb andb].
    destruct (Z.ltb_spec (2 ^ (8 * Z.of_nat (S k)) - 1) z),
             (Z.ltb_spec z 0),
             (Z.leb_spec 0 z),
             (Z.ltb_spec z (2 ^ (8 * Z.of_nat (S k)))); simpl; try reflexivity; lia.
Qed.

(** With a size of [n > 0] bytes, a value in range is printed as exactly
    [2 n] digits, those of the value modulo [2^(8 n)]. *)
Lemma numberToHex_sized (v : ToHex.numeric) (s : bool) (k : nat) :
  in_range s (S k) (ToHex.integer v) = true ->
  let digits := Prim.toString16 (ToHex.integer v mod 2 ^ (8 * Z.of_nat (S k))) in
  (String.length digits <= 2 * S k)%nat
  /\ ToHex.numberToHex v {| ToHex.signed := s; ToHex.size := Some (S k) |}
     = Return (String "0" (String "x"
                 (zero_digits (2 * S k - String.length digits) ++ digits)%string)).
Proof.
  intros Hr digits.
  destruct (shifted_value s (S k) (ToHex.integer v) Hr) as [Es Rs].
  assert (L : (String.length digits <= 2 * S k)%nat).
  { replace (2 * S k)%nat with (S (2 * k + 1)) by lia.
    apply length_toString16.
    replace (S (2 * k + 1)) with (2 * S k)%nat by lia. rewrite pow16. exact Rs. }
  split; [exact L|].
  unfold ToHex.numberToHex. rewrite range_check, Hr. cbn [negb].
  cbn [ToHex.signed ToHex.size ToHex.given_size].
  assert (Eb : (if s && (ToHex.integer v <? 0)
                then Return (Z.shiftl 1 (Z.of_nat (S k * 8)) + ToHex.integer v)
                else Return (ToHex.integer v))
               = Return (ToHex.integer v mod 2 ^ (8 * Z.of_nat (S k)))).
  { rewrite <- Es. destruct (s && (ToHex.integer v <? 0)); reflexivity. }
  rewrite Eb. cbn [bind]. fold digits. unfold Pad.pad. cbn [Pad.dir Pad.size append].
  rewrite (padHex_prefixed digits {| Pad.dir := None; Pad.size := Pad.Size (S k) |}
             (S k) eq_refl L).
  reflexivity.
Qed.

Lemma numberToHex_out_of_range (v : ToHex.numeric) (s : bool) (k : nat) :
  in_range s (S k) (ToHex.integer v) = false ->
  ToHex.numberToHex v {| ToHex.signed := s; ToHex.size := Some (S k) |}
  = Throw (ToHex.range_message v {| ToHex.signed := s; ToHex.size := Some (S k) |}).
Proof.
  intro Hr. unfold ToHex.numberToHex. rewrite range_check, Hr. reflexivity.
Qed.

(** Without a size: a value in range is printed without leading zeros. *)
Lemma numberToHex_unsized (v : ToHex.numeric) :
  ToHex.numberToHex v ToHex.no_opts
  = if (0 <=? ToHex.integer v)
       && (ToHex.is_bigint v || (ToHex.integer v <=? ToHex.MAX_SAFE_INTEGER))
    then Return ("0x" ++ Prim.toString16 (ToHex.integer v))%string
    else Throw (ToHex.range_message v ToHex.no_opts).
Proof.
  unfold ToHex.numberToHex, ToHex.minValue, ToHex.maxValue, ToHex.given_size, ToHex.no_opts.
  cbn [ToHex.size ToHex.signed andb].
  destruct v as [z | z]; cbn [ToHex.is_bigint ToHex.integer orb].
  - change (ToHex.MAX_SAFE_INTEGER =? 0) with false. cbn [negb andb].
    destruct (Z.ltb_spec ToHex.MAX_SAFE_INTEGER z), (Z.ltb_spec z 0),
      (Z.leb_spec 0 z), (Z.leb_spec z ToHex.MAX_SAFE_INTEGER);
      simpl; try reflexivity; lia.
  - destruct (Z.ltb_spec z 0), (Z.leb_spec 0 z); simpl; try reflexivity; lia.
Qed.

Lemma hexToBytes_digits (digits : string) :
  IsHex.all_hex digits = true ->
  exists bs, ToBytes.hexToBytes (String "0" (String "x" digits)) = Return bs
             /\ be_value bs = hex_value digits
             /\ List.length bs = Nat.div2 (S (String.length digits)).
Proof.
  intro Hh. unfold ToBytes.hexToBytes. cbn [Prim.slice].
  pose proof (even_padded digits) as He.
  pose proof (all_hex_padded digits) as Hp. rewrite Hh in Hp.
  destruct (pairs_all_hex _ He Hp) as [bs [E [_ El]]].
  exists bs. split; [apply E|]. split.
  - unfold be_value, hex_value. rewrite (pairs_value EmptyString _ 0 bs He (E _)).
    destruct (Nat.odd (String.length digits)); [|reflexivity].
    cbn [hex_value_from]. reflexivity.
  - destruct (Nat.odd (String.length digits)) eqn:Eo.
    + cbn [String.length] in El. rewrite <- El. rewrite Nat.div2_double. reflexivity.
    + rewrite <- El. rewrite Nat.div2_succ_double. reflexivity.
Qed.

Lemma isHex_prefixed (digits : string) (strict : option bool) :
  IsHex.all_hex digits = true ->
  IsHex.isHex (Js.VString (String "0" (String "x" digits))) strict = true.
Proof.
  intro H. unfold IsHex.isHex. cbn [Js.truthy Text.nonempty negb IsHex.strict_pattern].
  destruct strict as [[|]|]; try exact H.
  unfold Text.startsWith. destruct digits; reflexivity.
Qed.

End NumberFacts.

Module NumberTheorems.
Import Thrown.
Import DataSpec.
Import DataFacts.
Import NumberFacts.

(** X7.  With a size of [n > 0] bytes, [numberToHex] returns exactly for
    the values of the range: [0 .. 2^(8n) - 1] when unsigned,
    [-2^(8n-1) .. 2^(8n-1) - 1] when signed; any other value throws. *)
Theorem numberToHex_returns_in_range (v : ToHex.numeric) (s : bool) (n : nat)
  (Hn : (0 < n)%nat) :
  returned (ToHex.numberToHex v {| ToHex.signed := s; ToHex.size := Some n |})
  = in_range s n (ToHex.integer v).
Proof.
  destruct n as [|k]; [lia|].
  destruct (in_range s (S k) (ToHex.integer v)) eqn:Hr.
  - destruct (numberToHex_sized v s k Hr) as [_ E]. rewrite E. reflexivity.
  - rewrite (numberToHex_out_of_range v s k Hr). reflexivity.
Qed.

Lemma numberToHex_returns_in_range_witness :
  returned (ToHex.numberToHex (ToHex.BigInt (-129))
              {| ToHex.signed := true; ToHex.size := Some 1%nat |}) = false.
Proof.
  exact (numberToHex_returns_in_range (ToHex.BigInt (-129)) true 1 (Nat.lt_0_succ 0)).
Defined.

(** X8.  For a value in range, [numberToBytes] with a size of [n > 0]
    bytes returns exactly [n] bytes, which read most significant byte
    first give the value modulo [2^(8n)]: the value itself when it is not
    negative, its two's complement otherwise. *)
Theorem numberToBytes_is_big_endian (v : ToHex.numeric) (s : bool) (n : nat)
  (Hn : (0 < n)%nat) (Hr : in_range s n (ToHex.integer v) = true) :
  exists bytes,
    ToBytes.numberToBytes v (Some {| ToHex.signed := s; ToHex.size := Some n |})
    = Return bytes
    /\ List.length bytes = n
    /\ be_value bytes = ToHex.integer v mod 2 ^ (8 * Z.of_nat n).
Proof.
  destruct n as [|k]; [lia|].
  destruct (numberToHex_sized v s k Hr) as [L E].
  destruct (shifted_value s (S k) (ToHex.integer v) Hr) as [_ Rs].
  destruct (toString16_spec _ (proj1 Rs)) as [A V].
  unfold ToBytes.numberToBytes. rewrite E. cbn [bind].
  set (digits := Prim.toString16 (ToHex.integer v mod 2 ^ (8 * Z.of_nat (S k)))) in *.
  destruct (hexToBytes_digits (zero_digits (2 * S k - String.length digits) ++ digits))
    as [bs [Eb [Ev El]]].
  { rewrite all_hex_app, all_hex_zero_digits, A. reflexivity. }
  exists bs. split; [exact Eb|]. split.
  - rewrite El, length_append, length_zero_digits.
    replace (2 * S k - String.length digits + String.length digits)%nat
      with (2 * S k)%nat by lia.
    rewrite Nat.div2_succ_double. reflexivity.
  - rewrite Ev, hex_value_zero_digits. exact V.
Qed.

Lemma numberToBytes_is_big_endian_witness :
  exists bytes,
    ToBytes.numberToBytes (ToHex.Number (-2))
      (Some {| ToHex.signed := true; ToHex.size := Some 2%nat |}) = Return bytes
    /\ List.length bytes = 2%nat
    /\ be_value bytes = 65534.
Proof.
  exact (numberToBytes_is_big_endian (ToHex.Number (-2)) true 2 (Nat.lt_0_succ 1) eq_refl).
Defined.

(** X9.  Without options, [numberToBytes] returns exactly for a value that
    is not negative (and, for a number, at most [Number.MAX_SAFE_INTEGER]);
    the bytes then denote the value. *)
Theorem numberToBytes_without_size (v : ToHex.numeric) :
  match ToBytes.numberToBytes v None with
  | Return bytes =>
      0 <= ToHex.integer v
      /\ (ToHex.is_bigint v = false -> ToHex.integer v <= 2 ^ 53 - 1)
      /\ be_value bytes = ToHex.integer v
  | Throw _ =>
      ToHex.integer v < 0
      \/ (ToHex.is_bigint v = false /\ 2 ^ 53 - 1 < ToHex.integer v)
  end.
Proof.
  unfold ToBytes.numberToBytes. rewrite numberToHex_unsized.
  destruct (Z.leb_spec 0 (ToHex.integer v)) as [H0 | H0]; cbn [andb bind]; [|left; exact H0].
  destruct (ToHex.is_bigint v) eqn:Eb; cbn [orb bind].
  - destruct (toString16_spec _ H0) as [A V].
    destruct (hexToBytes_digits _ A) as [bs [E [Ev _]]].
    cbn [append]. rewrite E. split; [exact H0|]. split; [discriminate|].
    rewrite Ev. exact V.
  - destruct (Z.leb_spec (ToHex.integer v) ToHex.MAX_SAFE_INTEGER) as [H1 | H1]; cbn [bind].
    + destruct (toString16_spec _ H0) as [A V].
      destruct (hexToBytes_digits _ A) as [bs [E [Ev _]]].
      cbn [append]. rewrite E. split; [exact H0|]. split; [intros _; exact H1|].
      rewrite Ev. exact V.
    + right. split; [reflexivity | exact H1].
Qed.

Lemma numberToBytes_without_size_witness :
  0 <= 420
  /\ (ToHex.is_bigint (ToHex.Number 420) = false -> 420 <= 2 ^ 53 - 1)
  /\ be_value [x01; xa4] = 420.
Proof. exact (numberToBytes_without_size (ToHex.Number 420)). Defined.

(** X10.  Whatever [numberToHex] returns is a strict hex string, unless
    the size is the number zero. *)
Theorem numberToHex_returns_hex (v : ToHex.numeric) (o : ToHex.NumberToHexOpts) (hex : string)
  (Hsize : ToHex.size o <> Some 0%nat)
  (H : ToHex.numberToHex v o = Return hex) :
  IsHex.isHex (Js.VString hex) None = true.
Proof.
  destruct o as [s [[|k]|]]; cbn [ToHex.size] in Hsize; [contradiction Hsize; reflexivity| |].
  - destruct (in_range s (S k) (ToHex.integer v)) eqn:Hr.
    + destruct (numberToHex_sized v s k Hr) as [L E]. rewrite E in H. injection H as <-.
      destruct (shifted_value s (S k) (ToHex.integer v) Hr) as [_ Rs].
      destruct (toString16_spec _ (proj1 Rs)) as [A _].
      apply isHex_prefixed. rewrite all_hex_app, all_hex_zero_digits. exact A.
    + rewrite (numberToHex_out_of_range v s k Hr) in H. discriminate H.
  - unfold ToHex.numberToHex, ToHex.minValue, ToHex.maxValue, ToHex.given_size in H.
    cbn [ToHex.size ToHex.signed] in H.
    destruct ((match (if ToHex.is_bigint v then None else Some ToHex.MAX_SAFE_INTEGER) with
               | Some m => negb (m =? 0) && (m <? ToHex.integer v)
               | None => false
               end)
              || (ToHex.integer v
                  <? match (if ToHex.is_bigint v then None else Some ToHex.MAX_SAFE_INTEGER) with
                     | Some m => if s then - m - 1 else 0
                     | None => 0
                     end)) eqn:C; [discriminate H|].
    apply orb_false_iff in C. destruct C as [_ C]. apply Z.ltb_ge in C.
    destruct (Z.ltb_spec (ToHex.integer v) 0) as [N | N].
    + destruct s; cbn [andb bind] in H; [discriminate H|].
      destruct (ToHex.is_bigint v); lia.
    + rewrite andb_false_r in H. cbn [bind] in H. injection H as <-.
      destruct (toString16_spec _ N) as [A _].
      apply isHex_prefixed. exact A.
Qed.

Lemma numberToHex_returns_hex_witness :
  IsHex.isHex (Js.VString "0x01a4") None = true.
Proof.
  exact (numberToHex_returns_hex (ToHex.Number 420)
           {| ToHex.signed := false; ToHex.size := Some 2%nat |} "0x01a4"
           ltac:(discriminate) eq_refl).
Defined.

(** The size zero is the exception: a negative number passes the range
    check and is printed with its sign. *)
Example numberToHex_size_zero :
  ToHex.numberToHex (ToHex.Number (-5)) {| ToHex.signed := true; ToHex.size := Some 0%nat |}
  = Return "0x-4".
Proof. vm_compute. reflexivity. Qed.

End NumberTheorems.

(** ** Padding and decoding of hex strings *)
Module PadFacts.
Import Thrown.
Import DataSpec.
Import DataFacts.

Lemma hex_value_from_zero_digits (k : nat) : forall acc,
  hex_value_from acc (zero_digits k) = acc * 16 ^ Z.of_nat k.
Proof.
  induction k as [|k IH]; intro acc; [simpl; lia|].
  change (zero_digits (S k)) with (String "0" (zero_digits k)).
  cbn [hex_value_from]. change (ToBytes.charCodeToBase16 (Text.code "0")) with (Some 0).
  rewrite IH, Nat2Z.inj_succ, Z.pow_succ_r by lia. lia.
Qed.

(** The digits of a hex string as [hexToBytes] reads them: with a leading
    [0] when their number is odd. *)
Lemma decoded_digits (digits : string) :
  IsHex.all_hex digits = true ->
  exists bs,
    (forall whole,
       ToBytes.pairs whole
         (if Nat.odd (String.length digits) then String "0" digits else digits)
       = Return bs)
    /\ (2 * List.length bs
        = String.length digits + (if Nat.odd (String.length digits) then 1 else 0))%nat.
Proof.
  intro Hh. pose proof (even_padded digits) as He.
  pose proof (all_hex_padded digits) as Hp. rewrite Hh in Hp.
  destruct (pairs_all_hex _ He Hp) as [bs [E [_ El]]].
  exists bs. split; [exact E|].
  destruct (Nat.odd (String.length digits)); cbn [String.length] in El; lia.
Qed.

Lemma even_odd_false (n : nat) : Nat.even n = true -> Nat.odd n = false.
Proof. intro H. rewrite <- Nat.negb_even, H. reflexivity. Qed.

End PadFacts.

Module PadHexTheorems.
Import Thrown.
Import DataSpec.
Import DataFacts.
Import PadFacts.

(** X5.  [padHex] of a strict hex string that fits gives a strict hex
    string of exactly [2 * size] digits; padding on the left keeps the
    number the digits denote, padding on the right multiplies it by 16 for
    each digit added. *)
Theorem padHex_keeps_the_value (hex : string) (o : Pad.PadOptions) (n : nat)
  (Hhex : IsHex.isHex (Js.VString hex) None = true)
  (Hsize : Pad.size_or_default (Pad.size o) = Some n)
  (Hfits : (String.length hex <= 2 + 2 * n)%nat) :
  exists padded,
    Pad.padHex hex o = Return padded
    /\ IsHex.isHex (Js.VString padded) None = true
    /\ String.length padded = (2 + 2 * n)%nat
    /\ hex_value (Prim.slice 2 padded)
       = if Pad.is_right (Pad.dir o)
         then hex_value (Prim.slice 2 hex) * 16 ^ Z.of_nat (2 + 2 * n - String.length hex)
         else hex_value (Prim.slice 2 hex).
Proof.
  destruct (isHex_strict_inv hex Hhex) as [digits [-> Hd]].
  cbn [String.length] in Hfits.
  rewrite (NumberFacts.padHex_prefixed digits o n Hsize) by lia.
  eexists. split; [reflexivity|]. cbn [Prim.slice String.length].
  replace (2 + 2 * n - S (S (String.length digits)))%nat
    with (2 * n - String.length digits)%nat by lia.
  destruct (Pad.is_right (Pad.dir o)).
  - split; [|split].
    + apply NumberFacts.isHex_prefixed.
      rewrite all_hex_app, all_hex_zero_digits, Hd. reflexivity.
    + rewrite length_append, length_zero_digits. lia.
    + unfold hex_value. rewrite hex_value_from_app, hex_value_from_zero_digits.
      reflexivity.
  - split; [|split].
    + apply NumberFacts.isHex_prefixed.
      rewrite all_hex_app, all_hex_zero_digits, Hd. reflexivity.
    + rewrite length_append, length_zero_digits. lia.
    + apply hex_value_zero_digits.
Qed.

Lemma padHex_keeps_the_value_witness :
  exists padded,
    Pad.padHex "0xa4e" (right_options 2) = Return padded
    /\ IsHex.isHex (Js.VString padded) None = true
    /\ String.length padded = 6%nat
    /\ hex_value (Prim.slice 2 padded) = hex_value "a4e" * 16.
Proof.
  exact (padHex_keeps_the_value "0xa4e" (right_options 2) 2 eq_refl eq_refl
           ltac:(simpl; lia)).
Defined.

(** X6.  Padding commutes with decoding: for a strict hex string that
    fits, padding the text and then decoding it gives the same bytes as
    decoding it and then padding the bytes.  This holds towards the left,
    and towards the right when the number of digits is even. *)
Theorem padding_commutes_with_decoding (hex : string) (o : Pad.PadOptions) (n : nat)
  (Hhex : IsHex.isHex (Js.VString hex) None = true)
  (Hsize : Pad.size_or_default (Pad.size o) = Some n)
  (Hfits : (String.length hex <= 2 + 2 * n)%nat)
  (Hdir : Pad.is_right (Pad.dir o) = false \/ Nat.even (String.length hex) = true) :
  bind (Pad.padHex hex o) ToBytes.hexToBytes
  = bind (ToBytes.hexToBytes hex) (fun bytes => Pad.padBytes bytes o)
  /\ returned (bind (Pad.padHex hex o) ToBytes.hexToBytes) = true.
Proof.
  destruct (isHex_strict_inv hex Hhex) as [digits [-> Hd]].
  cbn [String.length] in Hfits, Hdir.
  rewrite (NumberFacts.padHex_prefixed digits o n Hsize) by lia. cbn [bind].
  destruct (decoded_digits digits Hd) as [bs [Eb Lb]].
  assert (Er : ToBytes.hexToBytes (String "0" (String "x" digits)) = Return bs).
  { unfold ToBytes.hexToBytes. cbn [Prim.slice]. apply Eb. }
  rewrite Er. cbn [bind].
  unfold Pad.padBytes. rewrite Hsize.
  destruct (Nat.ltb_spec n (List.length bs)) as [C | C].
  { destruct (Nat.odd (String.length digits)); lia. }
  unfold ToBytes.hexToBytes. cbn [Prim.slice].
  destruct (Pad.is_right (Pad.dir o)) eqn:Ed.
  - destruct Hdir as [Hdir | Hdir]; [discriminate Hdir|].
    change (Nat.even (String.length digits) = true) in Hdir.
    rewrite <- Nat.negb_odd in Hdir.
    destruct (Nat.odd (String.length digits)) eqn:Eo; [discriminate Hdir|].
    rewrite ArrayFacts.pad_right_loop by exact C.
    replace (2 * n - String.length digits)%nat with (2 * (n - List.length bs))%nat by lia.
    assert (Ev : Nat.odd (String.length
                            (digits ++ zero_digits (2 * (n - List.length bs)))) = false).
    { rewrite length_append, length_zero_digits, Nat.odd_add, Eo, Nat.odd_mul.
      reflexivity. }
    rewrite Ev, pairs_app by (rewrite <- Nat.negb_odd, Eo; reflexivity).
    rewrite Eb. cbn [bind]. rewrite zero_digits_double.
    rewrite <- (DigitFacts.append_empty (digits_text (Prim.zeros (n - List.length bs)))).
    rewrite pairs_digits_app. cbn [ToBytes.pairs bind]. rewrite app_nil_r.
    split; reflexivity.
  - rewrite ArrayFacts.pad_left_loop by exact C.
    assert (Ev : Nat.odd (String.length
                            (zero_digits (2 * n - String.length digits) ++ digits)) = false).
    { rewrite length_append, length_zero_digits.
      replace (2 * n - String.length digits + String.length digits)%nat
        with (2 * n)%nat by lia.
      rewrite Nat.odd_mul. reflexivity. }
    rewrite Ev.
    assert (Es : (zero_digits (2 * n - String.length digits) ++ digits)%string
                 = (digits_text (Prim.zeros (n - List.length bs))
                    ++ (if Nat.odd (String.length digits)
                        then String "0" digits else digits))%string).
    { rewrite <- zero_digits_double.
      destruct (Nat.odd (String.length digits)).
      - rewrite <- zero_digits_succ. f_equal. f_equal. lia.
      - f_equal. f_equal. lia. }
    rewrite Es, pairs_digits_app, Eb. cbn [bind]. split; reflexivity.
Qed.

Lemma padding_commutes_with_decoding_witness :
  bind (Pad.padHex "0xa4e" (left_options 4)) ToBytes.hexToBytes
  = bind (ToBytes.hexToBytes "0xa4e") (fun bytes => Pad.padBytes bytes (left_options 4))
  /\ returned (bind (Pad.padHex "0xa4e" (left_options 4)) ToBytes.hexToBytes) = true.
Proof.
  exact (padding_commutes_with_decoding "0xa4e" (left_options 4) 4 eq_refl eq_refl
           ltac:(simpl; lia) (or_introl eq_refl)).
Defined.

(** X11.  [bytesToHex] always prints a strict hex string, of two digits
    for each byte after the [0x]. *)
Theorem bytesToHex_is_hex (bytes : list byte) (strict : option bool) :
  IsHex.isHex (Js.VString (ToHex.bytesToHex bytes)) strict = true
  /\ String.length (ToHex.bytesToHex bytes) = (2 + 2 * List.length bytes)%nat.
Proof.
  rewrite bytesToHex_digits. split.
  - apply NumberFacts.isHex_prefixed.
    induction bytes as [|x bs IH]; [reflexivity|].
    cbn [digits_text]. rewrite all_hex_app, IH, andb_true_r.
    unfold hex_text. cbn [IsHex.all_hex].
    destruct (nibble_of_hexdigit (Base64.b x / 16)) as [_ E1].
    { pose proof (Base64Facts.for_all_bytes
                    (fun x => (0 <=? Base64.b x / 16) && (Base64.b x / 16 <? 16)) eq_refl x) as R.
      simpl in R. lia. }
    destruct (nibble_of_hexdigit (Base64.b x mod 16)) as [_ E2].
    { apply Z.mod_pos_bound. lia. }
    rewrite E1, E2. reflexivity.
  - cbn [String.length]. rewrite length_digits_text. reflexivity.
Qed.

End PadHexTheorems.

(** ** [concatBytes] *)
Module ConcatTheorems.
Import DataSpec.

Lemma length_sum (values : list (list byte)) : forall k,
  fold_left (fun length arr => (length + List.length arr)%nat) values k
  = (k + List.length (List.concat values))%nat.
Proof.
  induction values as [|arr rest IH]; intro k; simpl; [lia|].
  rewrite IH, length_app. lia.
Qed.

Lemma skipn_zeros (m : nat) : forall k, skipn m (Prim.zeros k) = Prim.zeros (k - m).
Proof.
  induction m as [|m IH]; intros [|k]; simpl; try reflexivity. apply IH.
Qed.

Lemma set_at_end (done arr : list byte) (k : nat) :
  (List.length arr <= k)%nat ->
  Prim.set (done ++ Prim.zeros k) arr (List.length done)
  = Some ((done ++ arr) ++ Prim.zeros (k - List.length arr)).
Proof.
  intro H. unfold Prim.set, Prim.zeros. rewrite length_app, repeat_length.
  destruct (Nat.leb_spec (List.length done + List.length arr) (List.length done + k))
    as [C | C]; [|lia].
  f_equal. rewrite firstn_app, firstn_all, Nat.sub_diag, firstn_O, app_nil_r.
  rewrite skipn_app, skipn_all2 by lia. simpl.
  replace (List.length done + List.length arr - List.length done)%nat
    with (List.length arr) by lia.
  fold (Prim.zeros k). rewrite skipn_zeros, <- app_assoc. reflexivity.
Qed.

Lemma write_all_concat (values : list (list byte)) : forall done k,
  (List.length (List.concat values) <= k)%nat ->
  ToBytes.write_all values (List.length done) (done ++ Prim.zeros k)
  = Some ((done ++ List.concat values)
          ++ Prim.zeros (k - List.length (List.concat values))).
Proof.
  induction values as [|arr rest IH]; intros done k H; simpl.
  - rewrite app_nil_r, Nat.sub_0_r. reflexivity.
  - simpl in H. rewrite length_app in H.
    rewrite set_at_end by lia.
    rewrite <- (length_app done arr). rewrite IH by lia.
    rewrite <- !app_assoc, length_app. do 5 f_equal. lia.
Qed.

(** X12.  [concatBytes] returns the arrays one after the other, in order;
    no write of the loop falls outside the result. *)
Theorem concatBytes_is_concatenation (values : list (list byte)) :
  ToBytes.concatBytes values = Some (List.concat values).
Proof.
  unfold ToBytes.concatBytes. rewrite length_sum.
  pose proof (write_all_concat values [] _ (Nat.le_refl _)) as W.
  rewrite Nat.sub_diag in W. cbn [app List.length Prim.zeros repeat] in W.
  rewrite app_nil_r in W. exact W.
Qed.

End ConcatTheorems.

(** ** Every portable value survives the codec *)
Module RoundTripFacts.
Import Js JSONBig.
Import Spec CodecSpec.

(** Induction on values, through the items of arrays and the fields of
    objects. *)
Lemma value_nested_ind (P : value -> Prop) :
  P VUndefined -> P VNull -> (forall b, P (VBool b)) -> (forall z, P (VBigInt z)) ->
  (forall s, P (VString s)) ->
  (forall items, Forall P items -> P (VArray items)) ->
  (forall fields, Forall (fun kv => P (snd kv)) fields -> P (VObject fields)) ->
  forall v, P v.
Proof.
  intros Hu Hn Hb Hz Hs Ha Ho. fix IH 1. intros [ | | b | z | s | items | fields].
  - exact Hu.
  - exact Hn.
  - apply Hb.
  - apply Hz.
  - apply Hs.
  - apply Ha. induction items as [|x r IHr]; constructor; [apply IH | exact IHr].
  - apply Ho. induction fields as [|[k x] r IHr]; constructor; [apply IH | exact IHr].
Qed.

(** *** Strings *)

Lemma escape_char_body (c : ascii) (acc tail : string) :
  string_body Plain acc (escape_char c ++ tail) = string_body Plain (acc ++ ch c) tail.
Proof.
  destruct c as [[] [] [] [] [] [] [] []]; reflexivity.
Qed.

Lemma escape_eq (a : ascii) (r : string) :
  escape (String a r)
  = match r with
    | String b r2 =>
        if escaped2 a b then ("\u" ++ hex4 (unit2 a b) ++ escape r2)%string
        else
          match r2 with
          | String c r3 =>
              if escaped3 a b c then ("\u" ++ hex4 (unit3 a b c) ++ escape r3)%string
              else (escape_char a ++ escape r)%string
          | EmptyString => (escape_char a ++ escape r)%string
          end
    | EmptyString => (escape_char a ++ escape r)%string
    end.
Proof. destruct r as [|b [|c r3]]; reflexivity. Qed.

Lemma hexval_hexdigit (n : Z) : 0 <= n < 16 -> hexval (hexdigit n) = Some n.
Proof.
  intro H. rewrite <- (Z2Nat.id n) by lia.
  assert (K : (Z.to_nat n < 16)%nat) by lia.
  generalize dependent (Z.to_nat n). intros k K.
  do 16 (destruct k as [|k]; [reflexivity|]). lia.
Qed.

Lemma hex4_value (u : Z) :
  0 <= u < 65536 ->
  ((Z.shiftr u 12 mod 16 * 16 + Z.shiftr u 8 mod 16) * 16 + Z.shiftr u 4 mod 16) * 16
  + u mod 16 = u.
Proof.
  intro H. rewrite !Z.shiftr_div_pow2 by lia.
  change (2 ^ 12) with 4096. change (2 ^ 8) with 256. change (2 ^ 4) with 16.
  Z.div_mod_to_equations. lia.
Qed.

Lemma hex_mode (h1 h2 h3 h4 : ascii) (n1 n2 n3 n4 : Z) (acc r : string) :
  hexval h1 = Some n1 -> hexval h2 = Some n2 -> hexval h3 = Some n3 -> hexval h4 = Some n4 ->
  string_body (Hex 4 0) acc (String h1 (String h2 (String h3 (String h4 r))))
  = string_body Plain (append_unit acc (((n1 * 16 + n2) * 16 + n3) * 16 + n4)) r.
Proof.
  intros H1 H2 H3 H4. cbn [string_body]. rewrite H1, H2, H3, H4. reflexivity.
Qed.

(** The decoder reads a [\u] escape as the code unit it spells. *)
Lemma hex_escape (u : Z) (acc tail : string) :
  0 <= u < 65536 ->
  string_body Plain acc ("\u" ++ hex4 u ++ tail) = string_body Plain (append_unit acc u) tail.
Proof.
  intro Hu.
  assert (D : forall k, 0 <= Z.shiftr u k mod 16 < 16)
    by (intro k; apply Z.mod_pos_bound; lia).
  assert (D0 : 0 <= u mod 16 < 16) by (apply Z.mod_pos_bound; lia).
  change (string_body Plain acc ("\u" ++ hex4 u ++ tail))
    with (string_body (Hex 4 0) acc
            (String (hexdigit (Z.shiftr u 12 mod 16))
               (String (hexdigit (Z.shiftr u 8 mod 16))
                  (String (hexdigit (Z.shiftr u 4 mod 16))
                     (String (hexdigit (u mod 16)) tail))))).
  rewrite (hex_mode _ _ _ _ _ _ _ _ acc tail
             (hexval_hexdigit _ (D 12)) (hexval_hexdigit _ (D 8))
             (hexval_hexdigit _ (D 4)) (hexval_hexdigit _ D0)).
  rewrite hex4_value by exact Hu. reflexivity.
Qed.

Lemma for_all_ascii2 (P : ascii -> ascii -> bool) :
  forallb (fun x => forallb (fun y => P (ascii_of_byte x) (ascii_of_byte y))
                            Base64Checks.all_bytes) Base64Checks.all_bytes = true ->
  forall a b, P a b = true.
Proof.
  intros H a b.
  apply (DataFacts.for_all_ascii (P a)).
  apply (DataFacts.for_all_ascii
           (fun a => forallb (fun y => P a (ascii_of_byte y)) Base64Checks.all_bytes) H).
Qed.

(** An escaped character of two bytes is its code unit, which is no
    surrogate. *)
Lemma unit2_bytes (a b : ascii) :
  escaped2 a b = true ->
  0 <= unit2 a b < 65536 /\ low_surrogate (unit2 a b) = false
  /\ fromCharCode (unit2 a b) = String a (String b EmptyString).
Proof.
  assert (H : forall a b, escaped2_checked a b = true).
  { apply for_all_ascii2. vm_compute. reflexivity. }
  intro E. specialize (H a b). unfold escaped2_checked in H. rewrite E in H.
  cbn [implb] in H. apply andb_true_iff in H. destruct H as [H H3].
  apply andb_true_iff in H. destruct H as [H H2].
  apply andb_true_iff in H. destruct H as [H0 H1].
  apply Z.leb_le in H0. apply Z.ltb_lt in H1. apply negb_true_iff in H2.
  apply String.eqb_eq in H3. repeat split; assumption.
Qed.

Lemma unit3_bytes (a b c : ascii) :
  escaped3 a b c = true ->
  0 <= unit3 a b c < 65536 /\ low_surrogate (unit3 a b c) = false
  /\ fromCharCode (unit3 a b c) = String a (String b (String c EmptyString)).
Proof.
  assert (H : forall a b, escaped3_checked a b = true).
  { apply for_all_ascii2. vm_compute. reflexivity. }
  intro E. specialize (H a b). unfold escaped3_checked in H.
  assert (L : lead3 a && continuation b = true).
  { unfold escaped3 in E. destruct (lead3 a); [|discriminate].
    destruct (continuation b); [reflexivity | discriminate]. }
  rewrite L in H.
  pose proof (DataFacts.for_all_ascii (escaped3_check a b) H c) as K.
  unfold escaped3_check in K. rewrite E in K.
  cbn [implb] in K. apply andb_true_iff in K. destruct K as [K H3].
  apply andb_true_iff in K. destruct K as [K H2].
  apply andb_true_iff in K. destruct K as [H0 H1].
  apply Z.leb_le in H0. apply Z.ltb_lt in H1. apply negb_true_iff in H2.
  apply String.eqb_eq in H3. repeat split; assumption.
Qed.

Lemma append_unit_plain (acc : string) (u : Z) :
  low_surrogate u = false -> append_unit acc u = (acc ++ fromCharCode u)%string.
Proof. intro H. unfold append_unit. rewrite H. reflexivity. Qed.

Lemma escape_body_bounded (n : nat) : forall s acc rest,
  (String.length s <= n)%nat ->
  string_body Plain acc (escape s ++ String dq rest) = Ok ((acc ++ s)%string, rest).
Proof.
  induction n as [|n IH]; intros s acc rest Hl.
  - destruct s; [|simpl in Hl; lia]. rewrite DigitFacts.append_empty. reflexivity.
  - destruct s as [|a r]; [rewrite DigitFacts.append_empty; reflexivity|].
    cbn [String.length] in Hl.
    assert (Plain_step : forall t, (String.length t <= n)%nat -> forall tail,
               tail = (escape t ++ String dq rest)%string ->
               string_body Plain acc (escape_char a ++ tail)
               = Ok ((acc ++ String a t)%string, rest)).
    { intros t Ht tail ->. rewrite escape_char_body, IH by exact Ht.
      rewrite DigitFacts.append_assoc. reflexivity. }
    rewrite escape_eq. destruct r as [|b r2].
    + rewrite DigitFacts.append_assoc. apply Plain_step; [simpl; lia | reflexivity].
    + cbn [String.length] in Hl. destruct (escaped2 a b) eqn:E2.
      * destruct (unit2_bytes a b E2) as [Hu [Hs Hb]].
        rewrite !DigitFacts.append_assoc, hex_escape by exact Hu.
        rewrite append_unit_plain by exact Hs. rewrite Hb, IH by lia.
        rewrite DigitFacts.append_assoc. reflexivity.
      * destruct r2 as [|c r3].
        -- rewrite DigitFacts.append_assoc. apply Plain_step; [simpl; lia | reflexivity].
        -- cbn [String.length] in Hl. destruct (escaped3 a b c) eqn:E3.
           ++ destruct (unit3_bytes a b c E3) as [Hu [Hs Hb]].
              rewrite !DigitFacts.append_assoc, hex_escape by exact Hu.
              rewrite append_unit_plain by exact Hs. rewrite Hb, IH by lia.
              rewrite DigitFacts.append_assoc. reflexivity.
           ++ rewrite DigitFacts.append_assoc.
              apply Plain_step; [simpl; lia | reflexivity].
Qed.

Lemma escape_body (s : string) : forall acc rest,
  string_body Plain acc (escape s ++ String dq rest) = Ok ((acc ++ s)%string, rest).
Proof. intros acc rest. apply (escape_body_bounded (String.length s)). apply Nat.le_refl. Qed.

Lemma string_lit_quote (s rest : string) :
  string_lit (quote s ++ rest) = Ok (s, rest).
Proof.
  unfold quote. cbn [append string_lit]. change (is_code dq 34) with true. cbv iota.
  rewrite DigitFacts.append_assoc. apply (escape_body s EmptyString rest).
Qed.

(** *** Numbers *)

(** Below [2^53] the rounding to double is exact. *)
Lemma round_pos_exact (n : Z) :
  0 < n < 2 ^ 53 ->
  exists x, Double.round_pos n 1 = Some x /\ Double.integer_value x = Some n.
Proof.
  intros [Hlo Hhi].
  assert (He : 0 <= Z.log2 n < 53).
  { split; [apply Z.log2_nonneg | apply Z.log2_lt_pow2; lia]. }
  exists (n * 2 ^ (52 - Z.log2 n), Z.log2 n - 52). split.
  - unfold Double.round_pos, Double.exponent.
    assert (H1 : (1 <=? n) = true) by (apply Z.leb_le; lia).
    rewrite H1, Z.div_1_r.
    rewrite (Z.max_l (Z.log2 n)) by lia.
    rewrite (Z.max_r 0 (52 - Z.log2 n)) by lia.
    rewrite (Z.max_l 0 (Z.log2 n - 52)) by lia.
    assert (E1 : (1024 <=? Z.log2 n) = false) by (apply Z.leb_gt; lia).
    assert (E2 : (Z.log2 n =? 1023) = false) by (apply Z.eqb_neq; lia).
    rewrite E1, E2. cbn [orb andb].
    unfold Double.div_rne. change (1 * 2 ^ 0) with 1.
    rewrite Z.mod_1_r, Z.div_1_r. reflexivity.
  - unfold Double.integer_value.
    destruct (Z.leb_spec 0 (Z.log2 n - 52)) as [H | H].
    + replace (Z.log2 n) with 52 by lia. simpl. f_equal. lia.
    + replace (- (Z.log2 n - 52)) with (52 - Z.log2 n) by lia.
      assert (P : 0 < 2 ^ (52 - Z.log2 n)) by (apply Z.pow_pos_nonneg; lia).
      rewrite Z.mod_mul by lia. rewrite Z.eqb_refl, Z.div_mul by lia. reflexivity.
Qed.

Lemma to_number_nonzero (neg : bool) (z : Z) :
  z <> 0 ->
  to_number {| l_minus := neg; l_int := digits_of z; l_frac := None; l_exp := None |}
  = Double.round_pos (Z.abs z) 1.
Proof.
  intro Hz0.
  destruct (CodecFacts.digits_of_uint z Hz0) as [d [Hd Hv]].
  destruct (CodecFacts.digits_of_first z) as [c [r [Hc _]]].
  assert (Hne : Text.nonempty (digits_of z) = true) by (rewrite Hc; reflexivity).
  unfold to_number. cbn [l_int l_frac l_exp].
  rewrite Hne. cbn [Text.nonempty negb andb orb].
  rewrite DigitFacts.append_empty, Hd, DigitFacts.digits_value_uint, Hv.
  assert (E : (Z.abs z =? 0) = false) by (apply Z.eqb_neq; lia).
  rewrite E. cbn [String.length Z.of_nat Z.sub Z.opp Z.leb Z.compare].
  change (10 ^ 0) with 1. rewrite Z.mul_1_r. reflexivity.
Qed.

Lemma number_zero (rest : string) :
  ends_number rest -> number (String "0" rest) = Ok (VBigInt 0, rest).
Proof.
  intro Hr. unfold number.
  assert (E : lex_number (String "0" rest)
              = ({| l_minus := false; l_int := "0"; l_frac := None; l_exp := None |}, rest)).
  { unfold lex_number. change (is_code "0" 45) with false. cbv iota.
    cbn [span_digits]. change (Text.is_digit "0") with true. cbv iota.
    rewrite DigitFacts.span_digits_rest by (destruct rest; simpl in *; tauto).
    destruct rest as [|c0 r0]; [reflexivity|].
    simpl in Hr. destruct Hr as [_ [H46 [H101 H69]]].
    rewrite H46, H101, H69. reflexivity. }
  rewrite E. reflexivity.
Qed.

(** [number()] gives back every integer that is finite as a double. *)
Lemma number_integer (z : Z) (rest : string) :
  finite z = true -> ends_number rest ->
  number (Text.of_Z z ++ rest) = Ok (VBigInt z, rest).
Proof.
  intros Hf Hr. unfold finite in Hf. apply Z.ltb_lt in Hf.
  destruct (Z.eq_dec z 0) as [-> | Hz0]; [apply number_zero; exact Hr|].
  destruct (Z_lt_le_dec (Z.abs z) (2 ^ 53)) as [Hs | Hb].
  - unfold number. rewrite (CodecFacts.lex_number_integer z rest Hz0 Hr).
    rewrite to_number_nonzero by exact Hz0.
    destruct (round_pos_exact (Z.abs z)) as [x [Ex Ev]]; [lia|].
    rewrite Ex, CodecFacts.text_integer, DigitFacts.bigint_of_Z, Ev.
    cbn [l_minus].
    replace (if z <? 0 then - Z.abs z else Z.abs z) with z
      by (destruct (Z.ltb_spec z 0); lia).
    destruct (15 <? String.length (Text.of_Z z))%nat; reflexivity.
  - apply CodecFacts.number_big; [lia | exact Hr].
Qed.

(** *** The text of a value *)

Lemma str_object (fields : list (string * value)) :
  (forall kv, In kv fields -> str (snd kv) <> None) ->
  str (VObject fields)
  = Some ("{" ++ Text.join "," (map member_text fields) ++ "}")%string.
Proof.
  intro H. cbn [str]. do 4 f_equal.
  induction fields as [|[k x] r IH]; [reflexivity|].
  cbn [map]. unfold member_text at 1, text_of. cbn [fst snd].
  destruct (str x) as [t|] eqn:E.
  - f_equal. apply IH. intros kv Hin. apply H. right. exact Hin.
  - exfalso. apply (H (k, x)); [left; reflexivity | exact E].
Qed.

Lemma str_array (items : list value) :
  str (VArray items) = Some ("[" ++ Text.join "," (map text_of items) ++ "]")%string.
Proof. reflexivity. Qed.

Lemma portable_str (v : value) : portable v = true -> str v = Some (text_of v).
Proof.
  unfold text_of. destruct v; simpl; try reflexivity. discriminate.
Qed.

Lemma portable_fields (fields : list (string * value)) :
  portable (VObject fields) = true ->
  distinct (map fst fields) = true
  /\ property_order (map fst fields) = true
  /\ forallb allowed_key (map fst fields) = true
  /\ forall kv, In kv fields -> portable (snd kv) = true.
Proof.
  cbn [portable]. intro H. apply andb_true_iff in H. destruct H as [H H3].
  apply andb_true_iff in H. destruct H as [H H2].
  apply andb_true_iff in H. destruct H as [H1 H4]. repeat split; try assumption.
  clear H1 H2 H4. induction fields as [|[k x] r IH]; intros kv Hin; [contradiction|].
  apply andb_true_iff in H3. destruct H3 as [Hx Hr].
  destruct Hin as [<- | Hin]; [exact Hx | apply IH; assumption].
Qed.

Lemma text_of_object (fields : list (string * value)) :
  portable (VObject fields) = true ->
  text_of (VObject fields)
  = ("{" ++ Text.join "," (map member_text fields) ++ "}")%string.
Proof.
  intro H. destruct (portable_fields fields H) as [_ [_ [_ Hp]]].
  unfold text_of. rewrite str_object; [reflexivity|].
  intros kv Hin. rewrite (portable_str _ (Hp kv Hin)). discriminate.
Qed.

Lemma opens_of_Z (z : Z) (rest : string) : opens (Text.of_Z z ++ rest).
Proof.
  destruct (CodecFacts.of_Z_first z) as [c [r [Hc [Hn [_ [_ [_ Hw]]]]]]].
  rewrite Hc. cbn [append opens]. split; [exact Hw|].
  unfold is_code in *. unfold Text.is_digit in Hn.
  destruct (Z.eqb_spec (Text.code c) 45) as [E | E].
  - rewrite E. split; reflexivity.
  - simpl in Hn. apply andb_true_iff in Hn. destruct Hn as [H1 H2].
    apply Z.leb_le in H1, H2. split; apply Z.eqb_neq; lia.
Qed.

Lemma opens_text (v : value) (rest : string) :
  portable v = true -> opens (text_of v ++ rest).
Proof.
  intro Hp. destruct v as [ | | [|] | z | s | items | fields]; try discriminate Hp;
    try (cbn; repeat split; reflexivity).
  apply opens_of_Z.
Qed.

Lemma white_opens (t : string) : opens t -> white t = t.
Proof. destruct t as [|c r]; [contradiction|]. intros [H _]. simpl. rewrite H. reflexivity. Qed.

Lemma closes_ends_number (rest : string) : closes rest -> ends_number rest.
Proof.
  destruct rest as [|c r]; [trivial|]. intros [-> | [-> | ->]]; repeat split.
Qed.

Lemma length_join_cons (t : string) (l : list string) :
  (String.length t <= String.length (Text.join "," (t :: l)))%nat
  /\ (l <> [] ->
      String.length (Text.join "," (t :: l))
      = String.length t + 1 + String.length (Text.join "," l))%nat.
Proof.
  destruct l as [|u l].
  - split; [simpl; lia | intro H; contradiction].
  - cbn [Text.join]. rewrite !DataFacts.length_append. cbn [String.length].
    split; [lia | intros _; lia].
Qed.

(** *** One step of the decoder, on each kind of text *)

Lemma value_word_null (fuel : nat) (rest : string) :
  value_ (S fuel) ("null" ++ rest) = Ok (VNull, rest).
Proof. reflexivity. Qed.

Lemma value_word_true (fuel : nat) (rest : string) :
  value_ (S fuel) ("true" ++ rest) = Ok (VBool true, rest).
Proof. reflexivity. Qed.

Lemma value_word_false (fuel : nat) (rest : string) :
  value_ (S fuel) ("false" ++ rest) = Ok (VBool false, rest).
Proof. reflexivity. Qed.

Lemma value_string_eq (fuel : nat) (r : string) :
  value_ (S fuel) (String dq r)
  = match string_lit (String dq r) with
    | Ok (t, r') => Ok (VString t, r')
    | Err m => Err m
    end.
Proof. reflexivity. Qed.

Lemma value_array_eq (fuel : nat) (r : string) :
  value_ (S fuel) (String "[" r)
  = match white r with
    | EmptyString => Err "Bad array"
    | String c' r' as r1 =>
        if is_code c' 93 then Ok (VArray [], r') else elements fuel [] r1
    end.
Proof. reflexivity. Qed.

Lemma value_object_text_eq (fuel : nat) (r : string) :
  value_ (S fuel) (String "{" r)
  = match white r with
    | EmptyString => Err "Bad object"
    | String c' r' as r1 =>
        if is_code c' 125 then Ok (VObject [], r') else members fuel [] r1
    end.
Proof. reflexivity. Qed.

Lemma elements_eq (fuel : nat) (acc : list value) (c : ascii) (s : string) :
  elements (S fuel) acc (String c s)
  = match value_ fuel (String c s) with
    | Err m => Err m
    | Ok (v, r) =>
        match white r with
        | String c r' as r1 =>
            if is_code c 93 then Ok (VArray (acc ++ [v]), r')
            else if is_code c 44 then elements fuel (acc ++ [v]) (white r')
            else Err (expected "," r1)
        | EmptyString => Err (expected "," EmptyString)
        end
    end.
Proof. reflexivity. Qed.

Lemma members_eq (fuel : nat) (acc : list (string * value)) (c : ascii) (s : string) :
  members (S fuel) acc (String c s)
  = match string_lit (String c s) with
    | Err m => Err m
    | Ok (key, r) =>
        match white r with
        | EmptyString => Err (expected ":" EmptyString)
        | String c r' as r1 =>
            if negb (is_code c 58) then Err (expected ":" r1)
            else if suspect "__proto__" key
            then Err "Object contains forbidden prototype property"
            else if suspect "constructor" key
            then Err "Object contains forbidden constructor property"
            else
              match value_ fuel r' with
              | Err m => Err m
              | Ok (v, r2) =>
                  match white r2 with
                  | String c2 r3 as r2' =>
                      if is_code c2 125 then Ok (VObject (assign key v acc), r3)
                      else if is_code c2 44 then members fuel (assign key v acc) (white r3)
                      else Err (expected "," r2')
                  | EmptyString => Err (expected "," EmptyString)
                  end
              end
        end
    end.
Proof. reflexivity. Qed.

Lemma set_new {A : Type} (k : string) (v : A) (l : list (string * A)) :
  existsb (String.eqb k) (map fst l) = false -> set k v l = l ++ [(k, v)].
Proof.
  induction l as [|[k' v'] r IH]; simpl; [reflexivity|].
  intro H. apply orb_false_iff in H. destruct H as [H1 H2].
  rewrite String.eqb_sym, H1, IH by exact H2. reflexivity.
Qed.

Lemma lookup_absent {A : Type} (k : string) (l : list (string * A)) :
  existsb (String.eqb k) (map fst l) = false -> lookup k l = None.
Proof.
  induction l as [|[k' v'] r IH]; simpl; [reflexivity|].
  intro H. apply orb_false_iff in H. destruct H as [H1 H2].
  rewrite String.eqb_sym, H1. apply IH, H2.
Qed.

(** In the order of the properties, what comes before an array index is
    an array index below it. *)
Lemma ascending_bound (l : list string) (k : string) (i : Z) (rest : list string) :
  array_index k = Some i ->
  forall lo, ascending lo (l ++ k :: rest) = true -> lo < i.
Proof.
  intro Hk. induction l as [|k1 l IH]; intros lo H; cbn [app ascending] in H.
  - rewrite Hk in H. apply andb_true_iff in H. destruct H as [H _].
    apply Z.ltb_lt. exact H.
  - destruct (array_index k1) as [j|].
    + apply andb_true_iff in H. destruct H as [H1 H2]. apply Z.ltb_lt in H1.
      specialize (IH j H2). lia.
    + unfold no_index in H. rewrite forallb_app in H.
      apply andb_true_iff in H. destruct H as [_ H]. cbn [forallb] in H. rewrite Hk in H.
      discriminate H.
Qed.

Lemma place_last {A : Type} (i : Z) (k : string) (v : A) (rest : list string) :
  array_index k = Some i ->
  forall (l : list (string * A)) (lo : Z),
    ascending lo (map fst l ++ k :: rest) = true -> place i k v l = l ++ [(k, v)].
Proof.
  intro Hk. induction l as [|[k1 v1] l IH]; intros lo H; [reflexivity|].
  cbn [map fst app ascending] in H. cbn [place app].
  destruct (array_index k1) as [j|].
  - apply andb_true_iff in H. destruct H as [_ H].
    pose proof (ascending_bound (map fst l) k i rest Hk j H) as B.
    apply Z.ltb_lt in B. rewrite B. f_equal. apply (IH j H).
  - unfold no_index in H. rewrite forallb_app in H.
    apply andb_true_iff in H. destruct H as [_ H]. cbn [forallb] in H. rewrite Hk in H.
    discriminate H.
Qed.

(** A new property that comes next in the order of the properties goes
    last. *)
Lemma assign_new {A : Type} (k : string) (v : A) (l : list (string * A))
      (rest : list string) :
  existsb (String.eqb k) (map fst l) = false ->
  property_order (map fst l ++ k :: rest) = true ->
  assign k v l = l ++ [(k, v)].
Proof.
  intros Hn Ho. unfold assign. rewrite (lookup_absent k l Hn).
  destruct (array_index k) as [i|] eqn:Hk.
  - apply (place_last i k v rest Hk l (-1) Ho).
  - apply set_new, Hn.
Qed.

Lemma elements_decode (items : list value) :
  Forall (fun x => portable x = true /\ decodes x) items -> items <> [] ->
  forall acc fuel rest,
    (String.length (Text.join "," (map text_of items)) + 2 <= fuel)%nat ->
    elements fuel acc (Text.join "," (map text_of items) ++ String "]" rest)
    = Ok (VArray (acc ++ items), rest).
Proof.
  induction 1 as [|x r [Hp Hd] Hr IH]; intros Hne acc fuel rest Hf; [contradiction|].
  cbn [map] in *.
  destruct (length_join_cons (text_of x) (map text_of r)) as [L1 L2].
  destruct fuel as [|fuel]; [lia|].
  destruct r as [|y r'].
  - cbn [map Text.join] in *.
    pose proof (opens_text x (String "]" rest) Hp) as Ho.
    destruct (text_of x ++ String "]" rest)%string as [|c s] eqn:Et; [contradiction|].
    rewrite elements_eq, <- Et. rewrite Hd; [reflexivity | lia | simpl; auto].
  - assert (Hne' : map text_of (y :: r') <> []) by discriminate.
    specialize (L2 Hne').
    assert (Ej : (Text.join "," (text_of x :: map text_of (y :: r')) ++ String "]" rest)%string
                 = (text_of x ++ String "," (Text.join "," (map text_of (y :: r'))
                                             ++ String "]" rest))%string).
    { cbn [map Text.join]. rewrite !DigitFacts.append_assoc. reflexivity. }
    rewrite Ej.
    pose proof (opens_text x
                  (String "," (Text.join "," (map text_of (y :: r')) ++ String "]" rest)) Hp)
      as Ho.
    destruct (text_of x ++ String "," (Text.join "," (map text_of (y :: r'))
                                       ++ String "]" rest))%string as [|c s] eqn:Et;
      [contradiction|].
    rewrite elements_eq, <- Et. rewrite Hd; [|lia | simpl; auto].
    cbn [white]. change (Text.code "," <=? 32) with false. cbv iota.
    change (is_code "," 93) with false. change (is_code "," 44) with true. cbv iota.
    rewrite white_opens.
    + rewrite IH; [|discriminate | lia].
      rewrite <- app_assoc. reflexivity.
    + inversion Hr as [|? ? [Hpy _] _]; subst.
      cbn [map Text.join]. destruct (map text_of r').
      * apply (opens_text y _ Hpy).
      * rewrite DigitFacts.append_assoc. apply (opens_text y _ Hpy).
Qed.

Lemma opens_member (kv : string * value) (rest : string) :
  opens (member_text kv ++ rest).
Proof. unfold member_text, quote. cbn. repeat split; reflexivity. Qed.

Lemma opens_join_members (kv : string * value) (r : list (string * value)) (rest : string) :
  opens (Text.join "," (map member_text (kv :: r)) ++ rest).
Proof.
  cbn [map Text.join]. destruct (map member_text r).
  - apply opens_member.
  - rewrite DigitFacts.append_assoc. apply opens_member.
Qed.

Lemma existsb_snoc (k' k : string) (l : list string) :
  existsb (String.eqb k') (l ++ [k]) = existsb (String.eqb k') l || String.eqb k' k.
Proof. rewrite existsb_app. simpl. rewrite orb_false_r. reflexivity. Qed.

Lemma existsb_eqb_false (k : string) (l : list string) (k' : string) :
  existsb (String.eqb k) l = false -> In k' l -> String.eqb k' k = false.
Proof.
  intros H Hin. destruct (String.eqb_spec k' k) as [-> | N]; [|reflexivity].
  exfalso. assert (T : existsb (String.eqb k) l = true).
  { apply existsb_exists. exists k. split; [exact Hin | apply String.eqb_refl]. }
  rewrite T in H. discriminate H.
Qed.

Lemma members_decode (fields : list (string * value)) :
  Forall (fun kv => portable (snd kv) = true /\ decodes (snd kv)) fields -> fields <> [] ->
  forallb allowed_key (map fst fields) = true ->
  distinct (map fst fields) = true ->
  forall acc fuel rest,
    (forall k, In k (map fst fields) -> existsb (String.eqb k) (map fst acc) = false) ->
    property_order (map fst acc ++ map fst fields) = true ->
    (String.length (Text.join "," (map member_text fields)) + 2 <= fuel)%nat ->
    members fuel acc (Text.join "," (map member_text fields) ++ String "}" rest)
    = Ok (VObject (acc ++ fields), rest).
Proof.
  induction 1 as [|[k x] r [Hp Hd] Hr IH]; intros Hne Hall Hdis acc fuel rest Hacc Hord Hf;
    [contradiction|].
  cbn [map fst snd] in *.
  cbn [forallb] in Hall. apply andb_true_iff in Hall. destruct Hall as [Hk Hall].
  cbn [distinct] in Hdis. apply andb_true_iff in Hdis. destruct Hdis as [Hnew Hdis].
  apply negb_true_iff in Hnew.
  unfold allowed_key in Hk. apply andb_true_iff in Hk. destruct Hk as [Hk1 Hk2].
  apply negb_true_iff in Hk1, Hk2.
  destruct (length_join_cons (member_text (k, x)) (map member_text r)) as [L1 L2].
  assert (Lm : String.length (member_text (k, x))
               = (String.length (quote k) + 1 + String.length (text_of x))%nat).
  { unfold member_text. cbn [fst snd]. rewrite !DataFacts.length_append.
    cbn [String.length]. lia. }
  destruct fuel as [|fuel]; [lia|].
  assert (Step : forall tail,
             closes tail ->
             members (S fuel) acc (member_text (k, x) ++ tail)
             = match white tail with
               | String c2 r3 as r2' =>
                   if is_code c2 125 then Ok (VObject (acc ++ [(k, x)]), r3)
                   else if is_code c2 44
                        then members fuel (acc ++ [(k, x)]) (white r3)
                        else Err (expected "," r2')
               | EmptyString => Err (expected "," EmptyString)
               end).
  { intros tail Ht.
    pose proof (opens_member (k, x) tail) as Ho.
    assert (Em : (member_text (k, x) ++ tail)%string
                 = (quote k ++ String ":" (text_of x ++ tail))%string).
    { unfold member_text. cbn [fst snd]. rewrite !DigitFacts.append_assoc. reflexivity. }
    destruct (member_text (k, x) ++ tail)%string as [|c s] eqn:Et; [contradiction|].
    rewrite members_eq, Em, string_lit_quote.
    cbn [white]. change (Text.code ":" <=? 32) with false. cbv iota.
    change (is_code ":" 58) with true. cbn [negb]. rewrite Hk1, Hk2.
    rewrite Hd; [|lia | apply closes_ends_number, Ht].
    rewrite (assign_new k x acc (map fst r)) by (try exact Hord; apply Hacc; left; reflexivity).
    reflexivity. }
  destruct r as [|kv r'].
  - cbn [map Text.join] in *. rewrite Step by (simpl; auto). reflexivity.
  - assert (Hne' : map member_text (kv :: r') <> []) by discriminate.
    specialize (L2 Hne').
    assert (Ej : (Text.join "," (member_text (k, x) :: map member_text (kv :: r'))
                  ++ String "}" rest)%string
                 = (member_text (k, x)
                    ++ String "," (Text.join "," (map member_text (kv :: r'))
                                   ++ String "}" rest))%string).
    { cbn [map Text.join]. rewrite !DigitFacts.append_assoc. reflexivity. }
    rewrite Ej, Step by (simpl; auto).
    cbn [white]. change (Text.code "," <=? 32) with false. cbv iota.
    change (is_code "," 125) with false. change (is_code "," 44) with true. cbv iota.
    rewrite white_opens by apply opens_join_members.
    rewrite IH; [rewrite <- app_assoc; reflexivity | discriminate | exact Hall
                | exact Hdis | | | lia].
    + intros k' Hin. rewrite map_app. cbn [map fst]. rewrite existsb_snoc.
      rewrite Hacc by (right; exact Hin).
      rewrite (existsb_eqb_false k _ k' Hnew Hin). reflexivity.
    + rewrite map_app, <- app_assoc. exact Hord.
Qed.

Lemma Forall_portable (items : list value) :
  forallb portable items = true ->
  Forall (fun x => portable x = true -> decodes x) items ->
  Forall (fun x => portable x = true /\ decodes x) items.
Proof.
  intros Hp H. induction H as [|x r Hx Hr IH]; constructor.
  - simpl in Hp. apply andb_true_iff in Hp. destruct Hp as [Hp _]. auto.
  - apply IH. simpl in Hp. apply andb_true_iff in Hp. apply Hp.
Qed.

Lemma Forall_portable_fields (fields : list (string * value)) :
  (forall kv, In kv fields -> portable (snd kv) = true) ->
  Forall (fun kv => portable (snd kv) = true -> decodes (snd kv)) fields ->
  Forall (fun kv => portable (snd kv) = true /\ decodes (snd kv)) fields.
Proof.
  intros Hp H. induction H as [|x r Hx Hr IH]; constructor.
  - split; [|apply Hx]; apply Hp; left; reflexivity.
  - apply IH. intros kv Hin. apply Hp. right. exact Hin.
Qed.

(** The decoder gives back every portable value from its text. *)
Lemma portable_decodes (v : value) : portable v = true -> decodes v.
Proof.
  induction v as [ | | b | z | s | items IH | fields IH] using value_nested_ind;
    intros Hp fuel rest Hf Hc.
  - discriminate Hp.
  - destruct fuel as [|fuel]; [lia|]. apply value_word_null.
  - destruct fuel as [|fuel]; [lia|].
    destruct b; [apply value_word_true | apply value_word_false].
  - destruct fuel as [|fuel]; [lia|].
    change (text_of (VBigInt z)) with (Text.of_Z z).
    rewrite CodecFacts.value_number. apply number_integer; [exact Hp | exact Hc].
  - destruct fuel as [|fuel]; [lia|].
    change (text_of (VString s)) with (quote s).
    assert (E : (quote s ++ rest)%string = String dq ((escape s ++ ch dq) ++ rest)%string)
      by reflexivity.
    rewrite E, value_string_eq, <- E, string_lit_quote. reflexivity.
  - destruct fuel as [|fuel]; [lia|].
    cbn [portable] in Hp. pose proof (Forall_portable items Hp IH) as Hall.
    change (text_of (VArray items))
      with ("[" ++ Text.join "," (map text_of items) ++ "]")%string in *.
    assert (E : (("[" ++ Text.join "," (map text_of items) ++ "]") ++ rest)%string
                = String "[" (Text.join "," (map text_of items) ++ String "]" rest)%string).
    { cbn [append]. rewrite DigitFacts.append_assoc. reflexivity. }
    rewrite E, value_array_eq.
    cbn [append String.length] in Hf. rewrite DataFacts.length_append in Hf.
    cbn [String.length] in Hf.
    destruct items as [|x r].
    + reflexivity.
    + assert (Ho : opens (Text.join "," (map text_of (x :: r)) ++ String "]" rest)).
      { inversion Hall as [|? ? [Hpx _] _]; subst. cbn [map Text.join].
        destruct (map text_of r).
        - apply (opens_text x _ Hpx).
        - rewrite DigitFacts.append_assoc. apply (opens_text x _ Hpx). }
      rewrite white_opens by exact Ho.
      destruct (Text.join "," (map text_of (x :: r)) ++ String "]" rest)%string
        as [|c' r'] eqn:Et; [contradiction|].
      destruct Ho as [_ [H93 _]]. rewrite H93, <- Et.
      apply (elements_decode (x :: r) Hall); [discriminate | lia].
  - destruct fuel as [|fuel]; [lia|].
    destruct (portable_fields fields Hp) as [Hdis [Hord [Hkeys Hvals]]].
    pose proof (Forall_portable_fields fields Hvals IH) as Hall.
    rewrite text_of_object in * by exact Hp.
    assert (E : (("{" ++ Text.join "," (map member_text fields) ++ "}") ++ rest)%string
                = String "{" (Text.join "," (map member_text fields) ++ String "}" rest)%string).
    { cbn [append]. rewrite DigitFacts.append_assoc. reflexivity. }
    rewrite E, value_object_text_eq.
    cbn [append String.length] in Hf. rewrite DataFacts.length_append in Hf.
    cbn [String.length] in Hf.
    destruct fields as [|kv r].
    + reflexivity.
    + pose proof (opens_join_members kv r (String "}" rest)) as Ho.
      rewrite white_opens by exact Ho.
      destruct (Text.join "," (map member_text (kv :: r)) ++ String "}" rest)%string
        as [|c' r'] eqn:Et; [contradiction|].
      destruct Ho as [_ [_ H125]]. rewrite H125, <- Et.
      apply (members_decode (kv :: r) Hall); try assumption; try discriminate; try lia.
      intros k _. reflexivity.
Qed.

(** *** Fields that are not set *)

Lemma str_none (v : value) : str v = None -> v = VUndefined.
Proof. destruct v; simpl; try discriminate. reflexivity. Qed.

Lemma wire_defined (v : value) : v <> VUndefined -> wire v <> VUndefined.
Proof. destruct v; simpl; try discriminate. intro H. exact H. Qed.

(** The stringifier does not see the difference between a value and the
    value as it reaches the wire. *)
Lemma str_wire (v : value) : str (wire v) = str v.
Proof.
  induction v as [ | | b | z | s | items IH | fields IH] using value_nested_ind;
    try reflexivity.
  - cbn [wire]. rewrite !str_array. do 4 f_equal. rewrite map_map.
    induction IH as [|x r Hx Hr IHr]; [reflexivity|].
    cbn [map]. rewrite IHr. f_equal. unfold text_of.
    destruct x; try (rewrite Hx; reflexivity). reflexivity.
  - cbn [wire str]. do 4 f_equal.
    induction IH as [|[k x] r Hx Hr IHr]; [reflexivity|].
    cbn [snd] in Hx.
    destruct (str x) as [t|] eqn:E.
    + assert (Hd : x <> VUndefined) by (intros ->; discriminate E).
      pose proof (wire_defined x Hd) as Hw.
      destruct x; try contradiction; rewrite Hx, IHr; reflexivity.
    + rewrite (str_none x E). exact IHr.
Qed.

End RoundTripFacts.

Module RoundTripTheorems.
Import Js.
Import CodecSpec.

(** X13.  The codec is the identity on every portable value: a value
    without [undefined], with integers finite as doubles and objects whose
    keys are distinct, allowed by the decoder, and in the order of the
    properties of an object (array indices first, in ascending order), is
    printed by [stringifyBigJSON] to a text that [parseBigJSON] decodes,
    without diagnostic, into the same value.  Integers of any size below
    the double range, strings with quotes, backslashes, control
    characters and the characters beyond ASCII that the encoder escapes
    (a string being the bytes of its UTF-8 encoding), and any nesting are
    covered. *)
Theorem codec_round_trip (v : value) (Hv : portable v = true) :
  exists t,
    Http.stringifyBigJSON v = Some t /\ Http.parseBigJSON t = (v, []).
Proof.
  exists (text_of v). split.
  - apply RoundTripFacts.portable_str, Hv.
  - unfold Http.parseBigJSON, JSONBig.parse.
    pose proof (RoundTripFacts.portable_decodes v Hv
                  (S (2 * String.length (text_of v))) EmptyString ltac:(lia) I) as D.
    rewrite DigitFacts.append_empty in D. rewrite D. reflexivity.
Qed.

Lemma codec_round_trip_witness :
  exists t,
    Http.stringifyBigJSON
      (VObject [("amount", VBigInt (2 ^ 80 + 1)); ("side", VString "Buy");
                ("fees", VArray [VNull; VBool true; VBigInt (-7)])]) = Some t
    /\ Http.parseBigJSON t
       = (VObject [("amount", VBigInt (2 ^ 80 + 1)); ("side", VString "Buy");
                   ("fees", VArray [VNull; VBool true; VBigInt (-7)])], []).
Proof.
  apply (codec_round_trip
           (VObject [("amount", VBigInt (2 ^ 80 + 1)); ("side", VString "Buy");
                     ("fees", VArray [VNull; VBool true; VBigInt (-7)])])).
  vm_compute. reflexivity.
Defined.

Example escapes_beyond_ascii :
  Http.stringifyBigJSON (VString ("a" ++ line_separator ++ "b"))
  = Some (String JSONBig.dq ("a\u2028b" ++ JSONBig.ch JSONBig.dq))
  /\ Http.parseBigJSON (String JSONBig.dq ("a\u2028b" ++ JSONBig.ch JSONBig.dq))
     = (VString ("a" ++ line_separator ++ "b"), []).
Proof. split; vm_compute; reflexivity. Qed.

Example surrogate_pair :
  Http.parseBigJSON (String JSONBig.dq ("\ud83d\ude00" ++ JSONBig.ch JSONBig.dq))
  = (VString grinning_face, []).
Proof. vm_compute. reflexivity. Qed.

Example array_indices_first :
  Http.parseBigJSON (Text.join (JSONBig.ch JSONBig.dq) ["{"; "b"; ":1,"; "10"; ":2,"; "9"; ":3}"])
  = (VObject [("9", VBigInt 3); ("10", VBigInt 2); ("b", VBigInt 1)], [])
  /\ Http.stringifyBigJSON (VObject [("9", VBigInt 3); ("10", VBigInt 2); ("b", VBigInt 1)])
     = Some (Text.join (JSONBig.ch JSONBig.dq) ["{"; "9"; ":3,"; "10"; ":2,"; "b"; ":1}"]).
Proof. split; vm_compute; reflexivity. Qed.

(** X14.  A field that is [undefined] does not reach the wire, and an
    item that is [undefined] arrives as [null]: when the value so changed
    is portable, the text [stringifyBigJSON] prints for a value decodes
    into it. *)
Theorem unset_fields_are_left_out (v : value) (Hv : portable (wire v) = true) :
  exists t,
    Http.stringifyBigJSON v = Some t /\ Http.parseBigJSON t = (wire v, []).
Proof.
  exists (text_of (wire v)). split.
  - unfold Http.stringifyBigJSON, JSONBig.stringify.
    rewrite <- RoundTripFacts.str_wire. apply RoundTripFacts.portable_str, Hv.
  - unfold Http.parseBigJSON, JSONBig.parse.
    pose proof (RoundTripFacts.portable_decodes (wire v) Hv
                  (S (2 * String.length (text_of (wire v)))) EmptyString
                  ltac:(lia) I) as D.
    rewrite DigitFacts.append_empty in D. rewrite D. reflexivity.
Qed.

Lemma unset_fields_are_left_out_witness :
  exists t,
    Http.stringifyBigJSON
      (VObject [("receiver_address", VUndefined);
                ("path", VArray [VUndefined; VBigInt 1])]) = Some t
    /\ Http.parseBigJSON t = (VObject [("path", VArray [VNull; VBigInt 1])], []).
Proof.
  apply (unset_fields_are_left_out
           (VObject [("receiver_address", VUndefined);
                     ("path", VArray [VUndefined; VBigInt 1])])).
  vm_compute. reflexivity.
Defined.

End RoundTripTheorems.

(** ** Facts on the replies the client reads *)
Module ReplyFacts.
Import Js Client.
Import Spec CodecSpec ClientSpec.

Lemma settle_success (st : Z) (body : string) :
  200 <= st < 300 ->
  Http.settle (Http.Response st body)
  = inr {| Http.status := st;
           Http.r_data := Http.transformResponse (Http.stripBOM body) |}.
Proof.
  intro H. unfold Http.settle.
  destruct (Z.leb_spec 200 st); [|lia]. destruct (Z.ltb_spec st 300); [|lia]. reflexivity.
Qed.

Lemma parsed_body (body : string) (v : value) :
  JSONBig.parse body = JSONBig.Ok v -> Http.transformResponse body = v.
Proof.
  intro H. unfold Http.transformResponse, Http.parseBigJSON. rewrite H. reflexivity.
Qed.

(** The body of a reply that is not JSON is kept as it is. *)
Lemma raw_body (body e : string) :
  JSONBig.parse body = JSONBig.Err e -> Http.transformResponse body = VString body.
Proof.
  intro H. unfold Http.transformResponse, Http.parseBigJSON. rewrite H. reflexivity.
Qed.

Lemma not_204 (st : Z) : st <> 204 -> (st =? 204) = false.
Proof. intro H. apply Z.eqb_neq. exact H. Qed.

Lemma code_inv (a : ascii) (n : Z) : (Text.code a =? n) = true -> a = Text.chr n.
Proof.
  intro H. apply Z.eqb_eq in H. unfold Text.chr. rewrite <- H. unfold Text.code.
  rewrite N2Z.id, ascii_N_embedding. reflexivity.
Qed.

(** A text that starts with a byte order mark does not decode. *)
Lemma bom_is_rejected (a b c : ascii) (r : string) :
  Http.is_bom a b c = true ->
  JSONBig.parse (String a (String b (String c r)))
  = JSONBig.Err ("Unexpected '" ++ JSONBig.ch a ++ "'").
Proof.
  unfold Http.is_bom. intro H. apply andb_true_iff in H. destruct H as [H _].
  apply andb_true_iff in H. destruct H as [Ha _]. apply code_inv in Ha. subst a.
  reflexivity.
Qed.

(** A text that decodes has no byte order mark to drop. *)
Lemma decoded_without_bom (body : string) (v : value) :
  JSONBig.parse body = JSONBig.Ok v -> Http.stripBOM body = body.
Proof.
  intro H. destruct body as [|a [|b [|c r]]]; try reflexivity.
  cbn [Http.stripBOM]. destruct (Http.is_bom a b c) eqn:E; [|reflexivity].
  rewrite (bom_is_rejected a b c r E) in H. discriminate H.
Qed.

End ReplyFacts.

Module ReplyTheorems.
Import Js Client.
Import Spec CodecSpec ClientSpec ReplyFacts.

(** X15.  When the server answers a quote request with a success status
    other than 204 and a body that decodes to an object with a
    [signed_quote] object, [requestQuoteWithOptions] returns the [quote]
    and the [signature] of that object and the [gas_sponsorship_info] of
    the reply, a missing one being [undefined]; the assemble request built
    from the result carries that quote and that signature, and nothing
    else, as its [signed_quote]. *)
Theorem quote_is_returned_as_sent
        (localeCompare : string -> string -> Z) (server : Http.outbound_request -> Http.reply)
        (now : Z) (this : ExternalMatchClient) (order : value) (ro : RequestQuoteOptions.t)
        (st : Z) (body : string) (fields sq : list (string * value))
        (Hst : 200 <= st < 300 /\ st <> 204)
        (Hbody : JSONBig.parse body = JSONBig.Ok (VObject fields))
        (Hsq : lookup "signed_quote" fields = Some (VObject sq))
        (Hreply : server (Http.outbound localeCompare (httpClient this) now Http.POST
                            (RequestQuoteOptions.buildRequestPath ro) (quote_request order)
                            (getHeaders this))
                  = Http.Response st body) :
  let returned := {| quote := field "quote" sq;
                     signature := field "signature" sq;
                     gas_sponsorship_info := field "gas_sponsorship_info" fields |} in
  requestQuoteWithOptions localeCompare server now this order ro = Returned (Some returned)
  /\ forall ao,
      prop (assemble_request returned ao) "signed_quote"
      = Some (VObject [("quote", field "quote" sq); ("signature", field "signature" sq)]).
Proof.
  destruct Hst as [Hst H204]. intro returned. split; [|intro ao; reflexivity].
  unfold requestQuoteWithOptions, Http.post. rewrite Hreply, settle_success by exact Hst.
  rewrite (decoded_without_bom _ _ Hbody), (parsed_body _ _ Hbody).
  unfold quote_result. cbn [Http.status Http.r_data truthy negb].
  rewrite (not_204 st H204). cbn [orb prop]. rewrite Hsq. reflexivity.
Qed.

Lemma quote_is_returned_as_sent_witness :
  requestQuoteWithOptions ordinalCompare quote_reply_server
    1700000000000 Samples.sample_client Samples.sample_order RequestQuoteOptions.new
  = Returned (Some {| quote := VObject [("price", VBigInt (2 ^ 70))];
                      signature := VString "0xsig";
                      gas_sponsorship_info := VUndefined |}).
Proof.
  apply (quote_is_returned_as_sent ordinalCompare quote_reply_server 1700000000000
           Samples.sample_client Samples.sample_order RequestQuoteOptions.new 200
           quote_reply_body quote_reply_fields
           [("quote", VObject [("price", VBigInt (2 ^ 70))]); ("signature", VString "0xsig")]).
  - lia.
  - vm_compute. reflexivity.
  - reflexivity.
  - reflexivity.
Defined.

(** X16.  [assembleQuoteWithOptions] does not look into a successful
    reply: for a success status other than 204, the text of the reply,
    without its byte order mark if it has one, is returned decoded when it
    decodes to a truthy value and gives [null] when it decodes to a falsy
    one, whatever its shape; a text that does not decode and is not empty
    is returned as it is. *)
Theorem assemble_returns_the_body
        (localeCompare : string -> string -> Z) (server : Http.outbound_request -> Http.reply)
        (now : Z) (this : ExternalMatchClient) (q : SignedExternalQuote)
        (ao : AssembleExternalMatchOptions.t) (st : Z) (body : string)
        (Hst : 200 <= st < 300 /\ st <> 204)
        (Hreply : server (Http.outbound localeCompare (httpClient this) now Http.POST
                            (AssembleExternalMatchOptions.buildRequestPath ao)
                            (assemble_request q ao) (getHeaders this))
                  = Http.Response st body) :
  assembleQuoteWithOptions localeCompare server now this q ao
  = match JSONBig.parse (Http.stripBOM body) with
    | JSONBig.Ok v => Returned (if truthy v then Some v else None)
    | JSONBig.Err _ =>
        Returned (if Text.nonempty (Http.stripBOM body)
                  then Some (VString (Http.stripBOM body)) else None)
    end.
Proof.
  destruct Hst as [Hst H204].
  unfold assembleQuoteWithOptions, Http.post. rewrite Hreply, settle_success by exact Hst.
  unfold assemble_result. cbn [Http.status Http.r_data]. rewrite (not_204 st H204).
  cbn [orb]. generalize (Http.stripBOM body). intro text.
  destruct (JSONBig.parse text) as [v | e] eqn:E.
  - rewrite (parsed_body text v E). destruct (truthy v); reflexivity.
  - rewrite (raw_body text e E). cbn [truthy]. destruct (Text.nonempty text); reflexivity.
Qed.

Lemma assemble_returns_the_body_witness :
  assembleQuoteWithOptions ordinalCompare (fun _ => Http.Response 200 marked_reply_body)
    1700000000000 Samples.sample_client Samples.sample_quote AssembleExternalMatchOptions.new
  = Returned (Some (VObject [("ok", VBool true)])).
Proof.
  rewrite (assemble_returns_the_body ordinalCompare
             (fun _ => Http.Response 200 marked_reply_body)
             1700000000000 Samples.sample_client Samples.sample_quote
             AssembleExternalMatchOptions.new 200 marked_reply_body
             ltac:(lia) eq_refl).
  vm_compute. reflexivity.
Defined.

(** X17.  [requestQuoteWithOptions] on a successful reply whose text
    (without its byte order mark) does not decode and is not empty throws
    an [ExternalMatchClientError] that carries no status code and has a
    message: the reply is a string, reading the [quote] of its missing
    [signed_quote] raises a [TypeError], and the [catch] clause wraps
    it. *)
Theorem quote_from_malformed_reply
        (localeCompare : string -> string -> Z) (server : Http.outbound_request -> Http.reply)
        (now : Z) (this : ExternalMatchClient) (order : value) (ro : RequestQuoteOptions.t)
        (st : Z) (body e : string)
        (Hst : 200 <= st < 300 /\ st <> 204)
        (Hbody : JSONBig.parse (Http.stripBOM body) = JSONBig.Err e
                 /\ Http.stripBOM body <> EmptyString)
        (Hreply : server (Http.outbound localeCompare (httpClient this) now Http.POST
                            (RequestQuoteOptions.buildRequestPath ro) (quote_request order)
                            (getHeaders this))
                  = Http.Response st body) :
  exists m,
    requestQuoteWithOptions localeCompare server now this order ro
    = Thrown {| message := m; statusCode := None |}
    /\ m <> EmptyString.
Proof.
  destruct Hst as [Hst H204]. destruct Hbody as [He Hn].
  unfold requestQuoteWithOptions, Http.post. rewrite Hreply, settle_success by exact Hst.
  rewrite (raw_body _ e He).
  unfold quote_result. cbn [Http.status Http.r_data truthy]. rewrite (not_204 st H204).
  destruct (Http.stripBOM body) as [|c r]; [contradiction|].
  eexists. split; [reflexivity | discriminate].
Qed.

Lemma quote_from_malformed_reply_witness :
  exists m,
    requestQuoteWithOptions ordinalCompare (fun _ => Http.Response 200 "Bad Gateway")
      1700000000000 Samples.sample_client Samples.sample_order RequestQuoteOptions.new
    = Thrown {| message := m; statusCode := None |}
    /\ m <> EmptyString.
Proof.
  apply (quote_from_malformed_reply ordinalCompare (fun _ => Http.Response 200 "Bad Gateway")
           1700000000000 Samples.sample_client Samples.sample_order RequestQuoteOptions.new
           200 "Bad Gateway" "Unexpected 'B'").
  - lia.
  - split; [vm_compute; reflexivity | discriminate].
  - reflexivity.
Defined.

(** X18.  When the connection fails, both requests throw an
    [ExternalMatchClientError] without status code; its message is the
    message of the failure, or the fallback of the method when that
    message is empty. *)
Theorem connection_failure_is_rethrown
        (localeCompare : string -> string -> Z) (server : Http.outbound_request -> Http.reply)
        (now : Z) (this : ExternalMatchClient) (order : value) (q : SignedExternalQuote)
        (ro : RequestQuoteOptions.t) (ao : AssembleExternalMatchOptions.t) (m : string) :
  (server (Http.outbound localeCompare (httpClient this) now Http.POST
             (RequestQuoteOptions.buildRequestPath ro) (quote_request order)
             (getHeaders this))
   = Http.NetworkError m ->
   requestQuoteWithOptions localeCompare server now this order ro
   = Thrown {| message := if Text.nonempty m then m else "Failed to request quote";
               statusCode := None |})
  /\ (server (Http.outbound localeCompare (httpClient this) now Http.POST
                (AssembleExternalMatchOptions.buildRequestPath ao)
                (assemble_request q ao) (getHeaders this))
      = Http.NetworkError m ->
      assembleQuoteWithOptions localeCompare server now this q ao
      = Thrown {| message := if Text.nonempty m then m else "Failed to assemble quote";
                  statusCode := None |}).
Proof.
  split; intro H.
  - unfold requestQuoteWithOptions, Http.post. rewrite H. reflexivity.
  - unfold assembleQuoteWithOptions, Http.post. rewrite H. reflexivity.
Qed.

Lemma connection_failure_is_rethrown_witness :
  requestQuoteWithOptions ordinalCompare (fun _ => Http.NetworkError "")
    1700000000000 Samples.sample_client Samples.sample_order RequestQuoteOptions.new
  = Thrown {| message := "Failed to request quote"; statusCode := None |}.
Proof.
  apply (proj1 (connection_failure_is_rethrown ordinalCompare
                  (fun _ => Http.NetworkError "") 1700000000000 Samples.sample_client
                  Samples.sample_order Samples.sample_quote RequestQuoteOptions.new
                  AssembleExternalMatchOptions.new "")).
  reflexivity.
Defined.

End ReplyTheorems.

(** ** Facts on the signature and on the paths *)
Module WireFacts.
Import Js Client.
Import Spec ClientSpec.

(** *** The digest has 32 bytes *)

Lemma length_fold_round (l : list (Z * Z)) : forall st,
  List.length st = 8%nat -> List.length (fold_left Sha256.round l st) = 8%nat.
Proof.
  induction l as [|[k wt] l IH]; intros st H; [exact H|].
  cbn [fold_left]. apply IH. reflexivity.
Qed.

Lemma length_compress (st block : list Z) :
  List.length st = 8%nat -> List.length (Sha256.compress st block) = 8%nat.
Proof.
  intro H. unfold Sha256.compress.
  rewrite length_map, length_combine, length_fold_round by exact H.
  rewrite H. reflexivity.
Qed.

Lemma length_blocks (n : nat) : forall ws st,
  List.length st = 8%nat -> List.length (Sha256.blocks n ws st) = 8%nat.
Proof.
  induction n as [|n IH]; intros ws st H; [exact H|].
  cbn [Sha256.blocks]. destruct ws as [|x ws]; [exact H|].
  apply IH, length_compress, H.
Qed.

Lemma length_words_bytes (l : list Z) :
  List.length (flat_map (Sha256.be_bytes 4) l) = (4 * List.length l)%nat.
Proof.
  induction l as [|z l IH]; [reflexivity|].
  cbn [flat_map]. rewrite length_app, IH. cbn [Sha256.be_bytes List.length]. 
  unfold Sha256.be_bytes. rewrite length_map, length_rev, length_seq. lia.
Qed.

Lemma length_sha256 (msg : list byte) : List.length (Sha256.sha256 msg) = 32%nat.
Proof.
  unfold Sha256.sha256. rewrite length_words_bytes, length_blocks; reflexivity.
Qed.

(** *** Base64 without padding: digits only, four for three bytes *)

Lemma sextet_digit (v : Z) :
  Base64Checks.sextet_ok v = true -> base64_digit (Base64.sextet_char v) = true.
Proof.
  intro H. apply Base64Facts.sextet_ok_spec in H.
  assert (R : forall c, sextet_in_range c = true).
  { apply DataFacts.for_all_ascii. vm_compute. reflexivity. }
  specialize (R (Base64.sextet_char v)). unfold sextet_in_range in R. rewrite H in R.
  apply andb_true_iff in R. destruct R as [R1 R2]. apply Z.leb_le in R1. apply Z.ltb_lt in R2.
  assert (A : forallb (fun v => base64_digit (Base64.sextet_char v)) all_sextets = true)
    by (vm_compute; reflexivity).
  rewrite forallb_forall in A. apply A. unfold all_sextets.
  rewrite <- (Z2Nat.id v) by lia. apply in_map, in_seq. lia.
Qed.

Lemma encodeBase64_shape (bs : list byte) :
  all_chars base64_digit (Http.encodeBase64 bs) = true
  /\ String.length (Http.encodeBase64 bs) = ((4 * List.length bs + 2) / 3)%nat.
Proof.
  unfold Http.encodeBase64.
  induction bs as [| x | x y | x y z r [IH1 IH2]] using Base64Facts.three_step_ind.
  - split; reflexivity.
  - revert x.
    assert (H : forall x,
      all_chars base64_digit (Base64.strip_padding (Base64.encode [x]))
      && (String.length (Base64.strip_padding (Base64.encode [x])) =? 2)%nat = true).
    { apply Base64Facts.for_all_bytes. vm_compute. reflexivity. }
    intro x. specialize (H x). apply andb_true_iff in H. destruct H as [H1 H2].
    apply Nat.eqb_eq in H2. split; [exact H1 | rewrite H2; reflexivity].
  - revert x y.
    assert (H : forall x y,
      all_chars base64_digit (Base64.strip_padding (Base64.encode [x; y]))
      && (String.length (Base64.strip_padding (Base64.encode [x; y])) =? 3)%nat = true).
    { apply (Base64Facts.for_all_bytes2
               (fun x y =>
                  all_chars base64_digit (Base64.strip_padding (Base64.encode [x; y]))
                  && (String.length (Base64.strip_padding (Base64.encode [x; y])) =? 3)%nat)).
      vm_compute. reflexivity. }
    intros x y. specialize (H x y). apply andb_true_iff in H. destruct H as [H1 H2].
    apply Nat.eqb_eq in H2. split; [exact H1 | rewrite H2; reflexivity].
  - pose proof (Base64Facts.low2_range x) as Hu.
    pose proof (Base64Facts.high2_range z) as Ht.
    pose proof (Base64Facts.first_ok x) as H1.
    pose proof (Base64Facts.second_ok _ y Hu) as H2.
    pose proof (Base64Facts.third_ok y _ Ht) as H3.
    pose proof (Base64Facts.fourth_ok z) as H4.
    change (Base64.encode (x :: y :: z :: r))
      with (String (Base64.sextet_char (Base64Checks.s1 x))
             (String (Base64.sextet_char (Base64Checks.s2 (Base64Checks.low2 x) y))
               (String (Base64.sextet_char (Base64Checks.s3 y (Base64Checks.high2 z)))
                 (String (Base64.sextet_char (Base64Checks.s4 z)) (Base64.encode r))))).
    rewrite !Base64Facts.strip_cons by (apply Base64Facts.sextet_char_not_pad; assumption).
    cbn [all_chars String.length List.length].
    rewrite !sextet_digit by assumption. rewrite IH1, IH2. split; [reflexivity|].
    replace (4 * S (S (S (List.length r))) + 2)%nat
      with (4 * List.length r + 2 + 4 * 3)%nat by lia.
    rewrite Nat.div_add by lia. lia.
Qed.

(** *** Base64 with padding can be decoded too *)

Lemma decode_padded_three (x y z : byte) (r : list byte) :
  Base64.decode (Base64.encode (x :: y :: z :: r))
  = x :: y :: z :: Base64.decode (Base64.encode r).
Proof.
  pose proof (Base64Facts.low2_range x) as Hu.
  pose proof (Base64Facts.high2_range z) as Ht.
  pose proof (Base64Facts.first_ok x) as H1.
  pose proof (Base64Facts.second_ok _ y Hu) as H2.
  pose proof (Base64Facts.third_ok y _ Ht) as H3.
  pose proof (Base64Facts.fourth_ok z) as H4.
  unfold Base64.decode.
  change (Base64.encode (x :: y :: z :: r))
    with (String (Base64.sextet_char (Base64Checks.s1 x))
           (String (Base64.sextet_char (Base64Checks.s2 (Base64Checks.low2 x) y))
             (String (Base64.sextet_char (Base64Checks.s3 y (Base64Checks.high2 z)))
               (String (Base64.sextet_char (Base64Checks.s4 z)) (Base64.encode r))))).
  rewrite !Base64Facts.sextets_cons by assumption.
  cbn [Base64.group].
  rewrite Base64Facts.first_byte, Base64Facts.second_byte, Base64Facts.third_byte
    by assumption.
  reflexivity.
Qed.

Lemma decode_padded (bs : list byte) : Base64.decode (Base64.encode bs) = bs.
Proof.
  induction bs as [| x | x y | x y z r IH] using Base64Facts.three_step_ind.
  - reflexivity.
  - apply Base64Facts.bytes_eqb_eq. revert x. apply Base64Facts.for_all_bytes.
    vm_compute. reflexivity.
  - apply Base64Facts.bytes_eqb_eq. revert x y.
    apply (Base64Facts.for_all_bytes2
             (fun x y => Base64Checks.bytes_eqb (Base64.decode (Base64.encode [x; y])) [x; y])).
    vm_compute. reflexivity.
  - rewrite decode_padded_three, IH. reflexivity.
Qed.

(** *** The headers of a request of the client *)

Lemma sort_client_headers (cmp : string -> string -> Z) (k v e : string) :
  lexicographic_on cmp signed_names ->
  Http.sort cmp [(RENEGADE_API_KEY_HEADER, k); (RENEGADE_SDK_VERSION_HEADER, v);
                 (Http.RENEGADE_AUTH_EXPIRATION_HEADER, e)]
  = [(RENEGADE_API_KEY_HEADER, k); (Http.RENEGADE_AUTH_EXPIRATION_HEADER, e);
     (RENEGADE_SDK_VERSION_HEADER, v)].
Proof.
  intro Hlex. cbn [Http.sort Http.insert fst].
  assert (E1 : (cmp RENEGADE_SDK_VERSION_HEADER Http.RENEGADE_AUTH_EXPIRATION_HEADER <=? 0)
               = false).
  { apply Z.leb_gt. apply Z.nle_gt. intro C.
    apply (Hlex RENEGADE_SDK_VERSION_HEADER Http.RENEGADE_AUTH_EXPIRATION_HEADER) in C.
    - discriminate C.
    - simpl. auto.
    - simpl. auto. }
  assert (E2 : (cmp RENEGADE_API_KEY_HEADER Http.RENEGADE_AUTH_EXPIRATION_HEADER <=? 0)
               = true).
  { apply Z.leb_le.
    apply (Hlex RENEGADE_API_KEY_HEADER Http.RENEGADE_AUTH_EXPIRATION_HEADER).
    - simpl. auto.
    - simpl. auto.
    - reflexivity. }
  rewrite E1. cbn [Http.insert fst]. rewrite E2. reflexivity.
Qed.

(** The collation of the runtime orders the three names the client signs
    as the lexicographic order does. *)
Lemma collation_on_signed_names : lexicographic_on Collation.localeCompare signed_names.
Proof.
  intros a b Ha Hb. simpl in Ha, Hb.
  destruct Ha as [<- | [<- | [<- | []]]]; destruct Hb as [<- | [<- | [<- | []]]];
    vm_compute; split; intro H;
    first [reflexivity | discriminate H | exfalso; apply H; reflexivity
          | intro H'; discriminate H'].
Qed.

(** *** The form-urlencoded serializer *)

Lemma encode_char_unreserved (c : ascii) :
  all_chars unreserved (URLSearchParams.encode_char c) = true.
Proof. revert c. apply DataFacts.for_all_ascii. vm_compute. reflexivity. Qed.

Lemma all_chars_app (p : ascii -> bool) (s t : string) :
  all_chars p (s ++ t) = all_chars p s && all_chars p t.
Proof.
  induction s as [|c s IH]; simpl; [reflexivity|]. rewrite IH, andb_assoc. reflexivity.
Qed.

Lemma encode_unreserved (s : string) : all_chars unreserved (URLSearchParams.encode s) = true.
Proof.
  induction s as [|c s IH]; [reflexivity|].
  cbn [URLSearchParams.encode]. rewrite all_chars_app, encode_char_unreserved, IH.
  reflexivity.
Qed.

Lemma encode_hex_char (c : ascii) :
  IsHex.hex_char c = true -> URLSearchParams.encode_char c = String c EmptyString.
Proof.
  assert (H : forall c,
    implb (IsHex.hex_char c)
          (String.eqb (URLSearchParams.encode_char c) (String c EmptyString)) = true).
  { apply DataFacts.for_all_ascii. vm_compute. reflexivity. }
  intro Hc. specialize (H c). rewrite Hc in H. apply String.eqb_eq. exact H.
Qed.

Lemma encode_digits (s : string) : IsHex.all_hex s = true -> URLSearchParams.encode s = s.
Proof.
  induction s as [|c s IH]; [reflexivity|].
  cbn [IsHex.all_hex URLSearchParams.encode]. intro H.
  apply andb_true_iff in H. destruct H as [Hc Hs].
  rewrite (encode_hex_char c Hc), IH by exact Hs. reflexivity.
Qed.

Lemma encode_hex (a : string) :
  IsHex.isHex (VString a) None = true -> URLSearchParams.encode a = a.
Proof.
  intro H. destruct (DataFacts.isHex_strict_inv a H) as [digits [-> Hd]].
  cbn [URLSearchParams.encode]. rewrite (encode_digits digits Hd). reflexivity.
Qed.

Lemma encode_disable :
  URLSearchParams.encode "disable_gas_sponsorship" = "disable_gas_sponsorship".
Proof. reflexivity. Qed.

Lemma encode_refund : URLSearchParams.encode "refund_address" = "refund_address".
Proof. reflexivity. Qed.

Lemma encode_native : URLSearchParams.encode "refund_native_eth" = "refund_native_eth".
Proof. reflexivity. Qed.

Lemma encode_true : URLSearchParams.encode "true" = "true".
Proof. reflexivity. Qed.

Lemma encode_false : URLSearchParams.encode "false" = "false".
Proof. reflexivity. Qed.

End WireFacts.

Module WireTheorems.
Import Js Client.
Import Spec ClientSpec WireFacts.

(** X19.  For a request of the match client, the headers that enter the
    MAC are the API key, the SDK version and the expiration, whatever
    else is in the header object.  Under a comparator that orders these
    three names lexicographically, as the collation of the runtime does,
    the signature handed over is the MAC, under the decoded secret, of the
    path, then [x-renegade-api-key] and the key,
    [x-renegade-auth-expiration] and its value, [x-renegade-sdk-version]
    and its value, then the body. *)
Theorem client_request_signature
        (localeCompare : string -> string -> Z) (this : ExternalMatchClient) (now : Z)
        (path : string) (d : value)
        (Hlex : lexicographic_on localeCompare signed_names) :
  let w := Http.outbound localeCompare (httpClient this) now Http.POST path d
             (getHeaders this) in
  filter included (remove_name Http.RENEGADE_AUTH_HEADER (Http.o_headers w))
  = [(RENEGADE_API_KEY_HEADER, apiKey this);
     (RENEGADE_SDK_VERSION_HEADER, getSdkVersion);
     (Http.RENEGADE_AUTH_EXPIRATION_HEADER, Text.of_Z (now + 10000))]
  /\ lookup Http.RENEGADE_AUTH_HEADER (Http.o_headers w)
     = Some (Http.encodeBase64
               (Hmac.hmac_sha256 (Http.authKey (httpClient this))
                  (Text.utf8 (canonical_text this now path (body_text d)))))
  /\ lexicographic_on Collation.localeCompare signed_names.
Proof.
  intro w.
  assert (Hh : Http.o_headers w
               = set Http.RENEGADE_AUTH_HEADER
                   (Http.encodeBase64
                      (Hmac.hmac_sha256 (Http.authKey (httpClient this))
                         (Text.utf8 (canonical_text this now path (body_text d)))))
                   [("Accept", "application/json, text/plain, */*");
                    ("Content-Type", "application/json");
                    (RENEGADE_API_KEY_HEADER, apiKey this);
                    (RENEGADE_SDK_VERSION_HEADER, getSdkVersion);
                    (Http.RENEGADE_AUTH_EXPIRATION_HEADER, Text.of_Z (now + 10000))]).
  { unfold w, Http.outbound, Http.handover. cbn [Http.o_headers].
    rewrite MacFacts.interceptor_headers.
    assert (Es : seen_headers now (Http.request_config path d (getHeaders this))
                 = [("Accept", "application/json, text/plain, */*");
                    ("Content-Type", "application/json");
                    (RENEGADE_API_KEY_HEADER, apiKey this);
                    (RENEGADE_SDK_VERSION_HEADER, getSdkVersion);
                    (Http.RENEGADE_AUTH_EXPIRATION_HEADER, Text.of_Z (now + 10000))])
      by reflexivity.
    rewrite Es. do 3 f_equal.
    unfold mac_input.
    change (filter included _)
      with [(RENEGADE_API_KEY_HEADER, apiKey this);
            (RENEGADE_SDK_VERSION_HEADER, getSdkVersion);
            (Http.RENEGADE_AUTH_EXPIRATION_HEADER, Text.of_Z (now + 10000))].
    rewrite (sort_client_headers localeCompare _ _ _ Hlex).
    unfold canonical_text, header_bytes. cbn [flat_map fst snd config_path Http.request_config
                                              Http.url Http.data].
    rewrite !SensitivityFacts.utf8_app, app_nil_r, <- !app_assoc. reflexivity. }
  rewrite Hh. split; [|split].
  - rewrite HeaderFacts.included_remove_auth, HeaderFacts.included_set_auth. reflexivity.
  - apply HeaderFacts.lookup_set_same.
  - exact collation_on_signed_names.
Qed.

Lemma client_request_signature_witness :
  lookup Http.RENEGADE_AUTH_HEADER
    (Http.o_headers
       (Http.outbound Collation.localeCompare (httpClient Samples.sample_client)
          1700000000000 Http.POST "/v0/matching-engine/quote" Samples.sample_order
          (getHeaders Samples.sample_client)))
  = Some (Http.encodeBase64
            (Hmac.hmac_sha256 (Http.authKey (httpClient Samples.sample_client))
               (Text.utf8
                  (canonical_text Samples.sample_client 1700000000000
                     "/v0/matching-engine/quote" (body_text Samples.sample_order))))).
Proof.
  apply (client_request_signature Collation.localeCompare Samples.sample_client
           1700000000000 "/v0/matching-engine/quote" Samples.sample_order
           collation_on_signed_names).
Defined.

(** X20.  The signature the interceptor attaches, whatever the request,
    is 43 characters long, all of them digits of the standard base64
    alphabet (no padding), and [decodeBase64] maps it back to the 32 bytes
    of the MAC. *)
Theorem signature_is_43_digits
        (localeCompare : string -> string -> Z) (this : Http.RelayerHttpClient) (now : Z)
        (cfg : Http.config) :
  exists sig,
    auth_header (Http.addAuthInterceptor localeCompare this now cfg) = Some sig
    /\ String.length sig = 43%nat
    /\ all_chars base64_digit sig = true
    /\ Http.decodeBase64 sig
       = Hmac.hmac_sha256 (Http.authKey this)
           (mac_input localeCompare (config_path cfg) (seen_headers now cfg)
              (body_text (Http.data cfg)))
    /\ List.length (Http.decodeBase64 sig) = 32%nat.
Proof.
  rewrite MacFacts.interceptor_signature.
  eexists. split; [reflexivity|].
  destruct (encodeBase64_shape
              (Hmac.hmac_sha256 (Http.authKey this)
                 (mac_input localeCompare (config_path cfg) (seen_headers now cfg)
                    (body_text (Http.data cfg)))))
    as [Hc Hl].
  assert (L : List.length
                (Hmac.hmac_sha256 (Http.authKey this)
                   (mac_input localeCompare (config_path cfg) (seen_headers now cfg)
                      (body_text (Http.data cfg)))) = 32%nat)
    by apply length_sha256.
  split; [rewrite Hl, L; reflexivity|]. split; [exact Hc|].
  rewrite Base64Facts.decode_encode. split; [reflexivity | exact L].
Qed.

(** X21.  The key the client signs with is the API secret decoded from
    base64, whether the secret is written with its [=] padding or
    without. *)
Theorem secret_is_decoded (apiKey baseUrl : string) (key : list byte) :
  Http.authKey (httpClient (Client.new apiKey (Base64.encode key) baseUrl)) = key
  /\ Http.authKey (httpClient (Client.new apiKey (Http.encodeBase64 key) baseUrl)) = key.
Proof.
  unfold Client.new, Http.new. cbn [httpClient Http.authKey]. split.
  - apply decode_padded.
  - apply Base64Facts.decode_encode.
Qed.

(** X22.  The path of a quote request always carries
    [disable_gas_sponsorship]; a refund address that is set and not empty
    follows as [refund_address], then [refund_native_eth=true] when it is
    asked for.  The address is percent-encoded, so that none of its
    characters can end or add a parameter, and an address that is a strict
    hex string is carried as it is. *)
Theorem quote_path_parameters (o : RequestQuoteOptions.t) :
  RequestQuoteOptions.buildRequestPath o
  = (REQUEST_EXTERNAL_QUOTE_ROUTE ++ "?disable_gas_sponsorship="
     ++ Text.of_bool (RequestQuoteOptions.disableGasSponsorship o)
     ++ match RequestQuoteOptions.gasRefundAddress o with
        | Some a => if Text.nonempty a
                    then "&refund_address=" ++ URLSearchParams.encode a
                    else ""
        | None => ""
        end
     ++ (if RequestQuoteOptions.refundNativeEth o then "&refund_native_eth=true" else ""))%string
  /\ (forall a, all_chars unreserved (URLSearchParams.encode a) = true)
  /\ (forall a, IsHex.isHex (VString a) None = true -> URLSearchParams.encode a = a).
Proof.
  split; [|split; [apply encode_unreserved | apply encode_hex]].
  destruct o as [b [a|] n]; [|destruct b, n; reflexivity].
  destruct a as [|c r]; [destruct b, n; reflexivity|].
  unfold RequestQuoteOptions.buildRequestPath.
  destruct b, n; cbn -[URLSearchParams.encode];
    rewrite ?encode_disable, ?encode_refund, ?encode_native, ?encode_true, ?encode_false;
    generalize (URLSearchParams.encode (String c r)); intro e;
    cbn; rewrite ?DigitFacts.append_empty; reflexivity.
Qed.

Lemma quote_path_parameters_witness :
  URLSearchParams.encode "0xAb12" = "0xAb12".
Proof.
  exact (proj2 (proj2 (quote_path_parameters RequestQuoteOptions.new)) "0xAb12" eq_refl).
Defined.

(** X23.  The path of an assemble request has a query string only when
    sponsorship is requested or a refund address is set; it then carries
    [disable_gas_sponsorship=false] and the percent-encoded address.  It
    never carries [disable_gas_sponsorship=true]: with
    [requestGasSponsorship] false the parameter is absent. *)
Theorem assemble_path_parameters (o : AssembleExternalMatchOptions.t) :
  AssembleExternalMatchOptions.buildRequestPath o
  = (ASSEMBLE_EXTERNAL_MATCH_ROUTE
     ++ match AssembleExternalMatchOptions.requestGasSponsorship o,
              set_nonempty (AssembleExternalMatchOptions.gasRefundAddress o) with
        | false, false => ""
        | true, false => "?disable_gas_sponsorship=false"
        | false, true =>
            "?refund_address="
            ++ URLSearchParams.encode
                 (match AssembleExternalMatchOptions.gasRefundAddress o with
                  | Some a => a
                  | None => ""
                  end)
        | true, true =>
            "?disable_gas_sponsorship=false&refund_address="
            ++ URLSearchParams.encode
                 (match AssembleExternalMatchOptions.gasRefundAddress o with
                  | Some a => a
                  | None => ""
                  end)
        end)%string.
Proof.
  destruct o as [g s ra uo b [a|]]; [|destruct b; reflexivity].
  destruct a as [|c r]; [destruct b; reflexivity|].
  unfold AssembleExternalMatchOptions.buildRequestPath.
  destruct b; cbn -[URLSearchParams.encode];
    rewrite ?encode_disable, ?encode_refund, ?encode_false;
    generalize (URLSearchParams.encode (String c r)); intro e;
    cbn; rewrite ?DigitFacts.append_empty; reflexivity.
Qed.

End WireTheorems.

(** ** Which headers are signed *)
Module SelectionTheorems.
Import Js.
Import Spec.

(** X24.  Whatever the comparator of the runtime answers, the headers
    that enter the MAC are the headers of the [x-renegade] namespace other
    than [x-renegade-auth], each one exactly once: sorting loses and
    repeats nothing.  The selection does not look at the case of a name
    nor at the value. *)
Theorem signed_headers_are_the_selected_ones
        (localeCompare : string -> string -> Z) (h : Http.headers) :
  Permutation (Http.signed_headers localeCompare h) (filter included h)
  /\ (forall kv, In kv (Http.signed_headers localeCompare h)
                 <-> In kv h /\ included kv = true)
  /\ (forall k v v', included (k, v) = included (Text.toLowerCase k, v')).
Proof.
  rewrite HeaderFacts.signed_headers_spec. split; [apply SortFacts.sort_perm|]. split.
  - intro kv. rewrite <- filter_In. split; intro H.
    + eapply Permutation_in; [apply SortFacts.sort_perm | exact H].
    + eapply Permutation_in; [apply Permutation_sym, SortFacts.sort_perm | exact H].
  - intros k v v'. unfold included. cbn [fst].
    assert (E : Text.toLowerCase (Text.toLowerCase k) = Text.toLowerCase k).
    { induction k as [|c k IH]; [reflexivity|].
      cbn [Text.toLowerCase]. rewrite IH. f_equal.
      apply Ascii.eqb_eq. revert c. apply DataFacts.for_all_ascii.
      vm_compute. reflexivity. }
    rewrite E. reflexivity.
Qed.

End SelectionTheorems.

(** ** The two modes of [isHex] *)
Module IsHexTheorems.
Import Js.

(** X25.  [isHex] accepts only strings that are not empty; what it
    accepts in strict mode it also accepts in loose mode, and what it
    accepts in loose mode starts with [0x]. *)
Theorem isHex_strict_is_loose (value : Js.value) (strict : option bool)
  (H : IsHex.isHex value strict = true) :
  exists s rest,
    value = VString s /\ s = String "0" (String "x" rest)
    /\ IsHex.isHex value (Some false) = true.
Proof.
  unfold IsHex.isHex in *. destruct value as [ | | b | z | s | items | fields];
    try (destruct (negb (truthy _)); discriminate H).
  cbn [truthy] in *. destruct (Text.nonempty s) eqn:En; [|discriminate H].
  cbn [negb] in *.
  assert (P : exists rest, s = String "0" (String "x" rest)).
  { destruct strict as [[|]|].
    - destruct (DataFacts.strict_pattern_inv s H) as [d [E _]]. exists d. exact E.
    - apply DataFacts.startsWith_0x. exact H.
    - destruct (DataFacts.strict_pattern_inv s H) as [d [E _]]. exists d. exact E. }
  destruct P as [rest ->]. exists (String "0" (String "x" rest)), rest.
  split; [reflexivity|]. split; [reflexivity|].
  unfold Text.startsWith. destruct rest; reflexivity.
Qed.

Lemma isHex_strict_is_loose_witness :
  exists s rest,
    VString "0xAb" = VString s /\ s = String "0" (String "x" rest)
    /\ IsHex.isHex (VString "0xAb") (Some false) = true.
Proof. exact (isHex_strict_is_loose (VString "0xAb") None eq_refl). Defined.

End IsHexTheorems.

(** ** The message the signature authenticates *)
Module SignatureFacts.
Import Js Spec ClientSpec.

(** The base64 text of some bytes is its unpadded text followed by the
    padding. *)
Lemma encode_padding (bs : list byte) :
  Base64.encode bs = (Http.encodeBase64 bs ++ padding (List.length bs))%string.
Proof.
  unfold Http.encodeBase64.
  induction bs as [| x | x y | x y z r IH] using Base64Facts.three_step_ind.
  - reflexivity.
  - apply String.eqb_eq. revert x. apply Base64Facts.for_all_bytes. vm_compute. reflexivity.
  - apply String.eqb_eq. revert x y.
    apply (Base64Facts.for_all_bytes2
             (fun x y => String.eqb (Base64.encode [x; y])
                           (Base64.strip_padding (Base64.encode [x; y])
                            ++ padding (List.length [x; y])))).
    vm_compute. reflexivity.
  - pose proof (Base64Facts.low2_range x) as Hu.
    pose proof (Base64Facts.high2_range z) as Ht.
    pose proof (Base64Facts.first_ok x) as H1.
    pose proof (Base64Facts.second_ok _ y Hu) as H2.
    pose proof (Base64Facts.third_ok y _ Ht) as H3.
    pose proof (Base64Facts.fourth_ok z) as H4.
    change (Base64.encode (x :: y :: z :: r))
      with (String (Base64.sextet_char (Base64Checks.s1 x))
             (String (Base64.sextet_char (Base64Checks.s2 (Base64Checks.low2 x) y))
               (String (Base64.sextet_char (Base64Checks.s3 y (Base64Checks.high2 z)))
                 (String (Base64.sextet_char (Base64Checks.s4 z)) (Base64.encode r))))).
    rewrite !Base64Facts.strip_cons by (apply Base64Facts.sextet_char_not_pad; assumption).
    cbn [append List.length padding]. rewrite <- IH. reflexivity.
Qed.

(** The base64 text of a MAC ends with one [=], which the signature does
    not have. *)
Lemma mac_padding (key msg : list byte) :
  Base64.encode (Hmac.hmac_sha256 key msg)
  = (Http.encodeBase64 (Hmac.hmac_sha256 key msg) ++ "=")%string
  /\ all_chars base64_digit (Http.encodeBase64 (Hmac.hmac_sha256 key msg)) = true
  /\ String.length (Http.encodeBase64 (Hmac.hmac_sha256 key msg)) = 43%nat.
Proof.
  assert (L : List.length (Hmac.hmac_sha256 key msg) = 32%nat) by apply WireFacts.length_sha256.
  destruct (WireFacts.encodeBase64_shape (Hmac.hmac_sha256 key msg)) as [Hc Hl].
  split; [|split; [exact Hc | rewrite Hl, L; reflexivity]].
  rewrite encode_padding, L. reflexivity.
Qed.

Lemma by_name_by_ordinal (hs : Http.headers) :
  StronglySorted by_name hs -> StronglySorted (by_comparator ordinalCompare) hs.
Proof.
  induction 1 as [|x r Hr IH Hx]; constructor; [exact IH|].
  rewrite Forall_forall in *. intros y Hy. unfold by_comparator.
  apply OrderFacts.ordinalCompare_lex. apply Hx, Hy.
Qed.

(** A header object has one arrangement in lexicographic order of the
    names. *)
Lemma lexicographic_unique (l1 l2 : Http.headers) :
  Permutation l1 l2 -> NoDup (names l1) ->
  StronglySorted by_name l1 -> StronglySorted by_name l2 -> l1 = l2.
Proof.
  intros Hp Hnd H1 H2.
  apply (SortFacts.sorted_unique ordinalCompare l1 l2 Hp Hnd).
  - apply OrderFacts.ordinalCompare_total_order.
  - apply by_name_by_ordinal, H1.
  - apply by_name_by_ordinal, H2.
Qed.

Lemma mixed_case_sorted : StronglySorted by_name Samples.mixed_case_lexicographic.
Proof.
  repeat constructor.
Qed.

Lemma mixed_case_selected :
  filter included (seen_headers 1700000000000 Samples.mixed_case_config)
  = [("x-renegade-api-key", "key");
     ("X-Renegade-Sdk-Version", "typescript-v0.1.8");
     ("x-renegade-auth-expiration", "1700000010000")].
Proof. reflexivity. Qed.

End SignatureFacts.

Module SignatureTheorems.
Import Js Spec ClientSpec SignatureFacts.
Import Samples.

(** C1, as the code has it.  The signature that [addAuthInterceptor]
    attaches is made from the HMAC-SHA256, keyed with the base64-decoded
    secret, of: the UTF-8 bytes of the path; then, for the headers whose
    name starts (whatever the case) with [x-renegade], [x-renegade-auth]
    left out, the bytes of the name followed by the bytes of the value,
    the headers taken in the order in which [Array.prototype.sort] puts
    them with [localeCompare] on their names; then the bytes of the
    serialized body (none when there is no body).  That order is the order
    of the comparator when it is a total order on the names, and it is the
    lexicographic order when the comparator orders these names
    lexicographically.  The base64 text of the 32-byte digest ends with one
    [=]; the signature is that text without it: 43 base64 digits. *)
Theorem signature_is_hmac_of_sorted_request
        (localeCompare : string -> string -> Z) (base secret : string)
        (now : Z) (cfg : Http.config) :
  let selected := filter included (seen_headers now cfg) in
  exists (hs : Http.headers) (sig : string),
    Permutation hs selected
    /\ (total_order_on localeCompare (names selected) ->
        StronglySorted (by_comparator localeCompare) hs)
    /\ (lexicographic_on localeCompare (names selected) -> StronglySorted by_name hs)
    /\ auth_header (Http.addAuthInterceptor localeCompare (Http.new base secret) now cfg)
       = Some sig
    /\ Base64.encode
         (Hmac.hmac_sha256 (Base64.decode secret)
            (Text.utf8 (config_path cfg)
             ++ flat_map header_bytes hs
             ++ Text.utf8 (body_text (Http.data cfg))))
       = (sig ++ "=")%string
    /\ all_chars base64_digit sig = true
    /\ String.length sig = 43%nat.
Proof.
  intro selected.
  exists (Http.sort localeCompare selected).
  exists (Http.encodeBase64
            (Hmac.hmac_sha256 (Base64.decode secret)
               (Text.utf8 (config_path cfg)
                ++ flat_map header_bytes (Http.sort localeCompare selected)
                ++ Text.utf8 (body_text (Http.data cfg))))).
  split; [apply SortFacts.sort_perm|].
  split; [apply SortFacts.sort_sorted|].
  split; [apply SortFacts.sort_lexicographic|].
  split; [rewrite MacFacts.interceptor_signature; reflexivity|].
  apply mac_padding.
Qed.

Lemma signature_is_hmac_of_sorted_request_witness :
  exists (hs : Http.headers) (sig : string),
    Permutation hs (filter included (seen_headers 1700000000000 sample_config))
    /\ StronglySorted by_name hs
    /\ auth_header (Http.addAuthInterceptor ordinalCompare (Http.new "https://x" "c2VjcmV0")
                      1700000000000 sample_config)
       = Some sig
    /\ Base64.encode
         (Hmac.hmac_sha256 (Base64.decode "c2VjcmV0")
            (Text.utf8 (config_path sample_config)
             ++ flat_map header_bytes hs
             ++ Text.utf8 (body_text (Http.data sample_config))))
       = (sig ++ "=")%string.
Proof.
  destruct (signature_is_hmac_of_sorted_request ordinalCompare "https://x" "c2VjcmV0"
              1700000000000 sample_config)
    as [hs [sig [Hp [_ [Hlex [Hsig [Henc _]]]]]]].
  exists hs, sig. split; [exact Hp|].
  split; [apply Hlex, OrderFacts.ordinalCompare_on|].
  split; [exact Hsig | exact Henc].
Defined.

(** C1, as stated, fails when a name has a capital: the collation of the
    runtime compares letters before case, so that [x-renegade-api-key]
    and [x-renegade-auth-expiration] come before
    [X-Renegade-Sdk-Version], which is first in lexicographic order.  The
    signature of the request is not the one the lexicographic order
    gives. *)
Lemma collation_order_is_not_lexicographic :
  let now := 1700000000000 in
  let selected := filter included (seen_headers now mixed_case_config) in
  Http.sort Collation.localeCompare selected
  = [("x-renegade-api-key", "key");
     ("x-renegade-auth-expiration", "1700000010000");
     ("X-Renegade-Sdk-Version", "typescript-v0.1.8")]
  /\ forall hs : Http.headers,
       Permutation hs selected -> StronglySorted by_name hs ->
       hs = mixed_case_lexicographic
       /\ auth_header (Http.addAuthInterceptor Collation.localeCompare
                         (Http.new "https://x" "c2VjcmV0") now mixed_case_config)
          <> Some (Base64.strip_padding
                     (Base64.encode
                        (Hmac.hmac_sha256 (Base64.decode "c2VjcmV0")
                           (Text.utf8 (config_path mixed_case_config)
                            ++ flat_map header_bytes hs
                            ++ Text.utf8 (body_text (Http.data mixed_case_config)))))).
Proof.
  intros now selected. split; [vm_compute; reflexivity|].
  intros hs Hp Hs.
  assert (E : mixed_case_lexicographic = hs).
  { apply lexicographic_unique.
    - eapply perm_trans; [|apply Permutation_sym, Hp].
      unfold selected, now. rewrite mixed_case_selected. unfold mixed_case_lexicographic.
      eapply perm_trans; [apply perm_swap|]. apply perm_skip. apply Permutation_refl.
    - repeat constructor; simpl; intuition discriminate.
    - exact mixed_case_sorted.
    - exact Hs. }
  subst hs. split; [reflexivity|].
  vm_compute. discriminate.
Qed.

End SignatureTheorems.

(** ** There are more paths than digests *)
Module CollisionFacts.
Import Js Spec.


Lemma words_length (n : nat) (w : string) :
  In w (Counting.words n) -> String.length w = n.
Proof.
  revert w. induction n as [|n IH]; intros w Hin.
  - destruct Hin as [<- | []]. reflexivity.
  - cbn [Counting.words] in Hin. apply in_app_or in Hin.
    destruct Hin as [Hin | Hin]; apply in_map_iff in Hin;
      destruct Hin as [u [<- Hu]]; cbn [String.length]; f_equal; apply IH, Hu.
Qed.









End CollisionFacts.

(** ** The signature as a function of the request *)
Module SensitivityTheorems.
Import Js Spec OrderFacts SortFacts HeaderFacts MacFacts Base64Facts SensitivityFacts.
Import Samples.
Import SampleFacts.




End SensitivityTheorems.

(** ** The decoder does not run out of calls *)
Module FuelFacts.
Import Js JSONBig.
Import Spec PassSpec.










Lemma elements_start (fuel : nat) (acc : list value) :
  elements (S fuel) acc EmptyString = Err "Bad array".
Proof. reflexivity. Qed.

Lemma members_start (fuel : nat) (acc : list (string * value)) :
  members (S fuel) acc EmptyString = Err "Bad object".
Proof. reflexivity. Qed.











End FuelFacts.

(** ** Texts the decoder rejects *)
Module PassFacts.
Import Js JSONBig.
Import Spec CodecSpec PassSpec.

Example rfc8259_samples :
  forallb Rfc8259.valid valid_samples = true
  /\ forallb (fun s => negb (Rfc8259.valid s)) invalid_samples = true.
Proof. split; vm_compute; reflexivity. Qed.



(** *** Blank texts and texts that start with the wrong character *)






(** *** A string that is not closed *)



(** *** Text after a complete value *)



(** *** These texts are not JSON *)












End PassFacts.

(** ** The BigInt-safe decoder on malformed texts *)
Module PassTheorems.
Import Js JSONBig.
Import Spec CodecSpec PassSpec PassFacts.




End PassTheorems.
